(** * tiny-clj developer tooling: tag index queries and comment-aware rename

    A shallow embedding of [ctags_mcp_tool.py], [ctags_cursor_integration.py]
    and [refactor_tool_advanced.py], followed by the properties of the
    specification that these modules decide.

    Conventions of the embedding.
    - A Python [str] is a [string]; a character is a code point below 256.
      Where a property needs more of the characters than holds for every
      Python string (case mapping that commutes with concatenation, digits
      that [int] reads, text that every write encodes), it is stated for
      ASCII text.
    - [s.find(sub, start)] returns [option nat] ([None] for [-1]).
    - Exceptions are values of [result]; a [try/except] is a [match].
    - The file system is a finite view [fs : string -> option file] keyed by
      resolved paths; [join_root] stands for [Path(workspace_root) / rel].
    - Text files are read with universal newlines and written with LF line
      ends, as on a POSIX system.
    - The subprocess that the rename tool starts to query the tag index is
      a direct call of the function the subprocess runs; starting it raises
      for an argument that holds a NUL character.
    - The loop of [rename_symbol] that can run for ever (on an empty old
      symbol) takes a [fuel]; [None] is a loop that has not ended. *)

From Stdlib Require Import String Ascii List ZArith Lia Bool Arith PeanoNat.
From Stdlib Require Import Sorted Permutation.
Import ListNotations.
Open Scope string_scope.
Open Scope nat_scope.

(** ** Python string primitives *)

Module Py.

Definition NUL : ascii := "000"%char.
Definition TAB : ascii := "009"%char.
Definition LF : ascii := "010"%char.
Definition CR : ascii := "013"%char.
Definition DQUOTE : ascii := "034"%char.

Definition tab : string := String TAB "".
Definition nl : string := String LF "".

Definition code (c : ascii) : nat := nat_of_ascii c.

Definition between (lo hi n : nat) : bool := (lo <=? n) && (n <=? hi).

(** [str.isspace] on one character: TAB..CR, FS..US, SPACE, NEL, NBSP. *)
Definition isspace (c : ascii) : bool :=
  let n := code c in
  between 9 13 n || between 28 32 n || (n =? 133) || (n =? 160).

Fixpoint lstrip (s : string) : string :=
  match s with
  | "" => ""
  | String c r => if isspace c then lstrip r else s
  end.

Fixpoint rstrip (s : string) : string :=
  match s with
  | "" => ""
  | String c r =>
      match rstrip r with
      | "" => if isspace c then "" else String c ""
      | r' => String c r'
      end
  end.

(** [s.strip()] *)
Definition strip (s : string) : string := rstrip (lstrip s).

(** [s[:n]] and [s[n:]] for [0 <= n] *)
Fixpoint take (n : nat) (s : string) : string :=
  match n, s with
  | S n', String c r => String c (take n' r)
  | _, _ => ""
  end.

Fixpoint drop (n : nat) (s : string) : string :=
  match n, s with
  | S n', String _ r => drop n' r
  | _, _ => s
  end.

(** [s.startswith(p)] *)
Fixpoint startswith (p s : string) : bool :=
  match p, s with
  | "", _ => true
  | String a p', String b s' => Ascii.eqb a b && startswith p' s'
  | String _ _, "" => false
  end.

(** [s.endswith(suf)] *)
Definition endswith (suf s : string) : bool :=
  (String.length suf <=? String.length s) &&
  (drop (String.length s - String.length suf) s =? suf)%string.

(** [sub in s] *)
Fixpoint contains (sub s : string) : bool :=
  startswith sub s ||
  match s with
  | "" => false
  | String _ r => contains sub r
  end.

(** The lowest index of an occurrence of [sub] in [s], where [s] is the
    part of the searched string that starts at absolute index [i]. *)
Fixpoint find_at (sub s : string) (i : nat) : option nat :=
  if startswith sub s then Some i
  else match s with
       | "" => None
       | String _ r => find_at sub r (S i)
       end.

(** [s.find(sub, start)]: [None] stands for [-1]. *)
Definition find (sub s : string) (start : nat) : option nat :=
  if String.length s <? start then None else find_at sub (drop start s) start.

(** [s.split(sep)] for a one-character separator *)
Fixpoint split (sep : ascii) (s : string) : list string :=
  match s with
  | "" => [""]
  | String c r =>
      if Ascii.eqb c sep then "" :: split sep r
      else match split sep r with
           | h :: t => String c h :: t
           | [] => [String c ""]
           end
  end.

(** [s.split(sep, 1)] when [sep in s]: the parts before and after the
    first separator; [None] when [sep] does not occur. *)
Fixpoint cut (sep : ascii) (s : string) : option (string * string) :=
  match s with
  | "" => None
  | String c r =>
      if Ascii.eqb c sep then Some ("", r)
      else match cut sep r with
           | Some (k, v) => Some (String c k, v)
           | None => None
           end
  end.

(** [sep.join(ls)] *)
Definition join (sep : string) (ls : list string) : string :=
  String.concat sep ls.

(** Text-mode decoding with universal newlines: CR LF and a lone CR are
    read as LF. *)
Fixpoint universal_newlines (s : string) : string :=
  match s with
  | "" => ""
  | String c r =>
      if Ascii.eqb c CR then
        String LF
          match r with
          | String c' r' =>
              if Ascii.eqb c' LF then universal_newlines r'
              else universal_newlines r
          | "" => ""
          end
      else String c (universal_newlines r)
  end.

(** [f.readlines()] on decoded text: lines keep their terminating LF. *)
Fixpoint readlines (s : string) : list string :=
  match s with
  | "" => []
  | String c r =>
      if Ascii.eqb c LF then String c "" :: readlines r
      else match readlines r with
           | h :: t => String c h :: t
           | [] => [String c ""]
           end
  end.

(** [str.lower] on one character: A..Z and the upper-case letters of the
    Latin-1 block (all but the multiplication sign) move up by 32.  On
    these code points [str.lower] maps each character on its own. *)
Definition lower_char (c : ascii) : ascii :=
  let n := code c in
  if between 65 90 n || between 192 214 n || between 216 222 n
  then ascii_of_nat (n + 32) else c.

Fixpoint lower (s : string) : string :=
  match s with
  | "" => ""
  | String c r => String (lower_char c) (lower r)
  end.

(** The decimal digits, and the characters [str.isdigit] accepts: the
    decimal digits and the superscripts two, three and one. *)
Definition isdecimal_char (c : ascii) : bool := between 48 57 (code c).

Definition isdigit_char (c : ascii) : bool :=
  let n := code c in
  between 48 57 n || (n =? 178) || (n =? 179) || (n =? 185).

Fixpoint forallb_str (p : ascii -> bool) (s : string) : bool :=
  match s with
  | "" => true
  | String c r => p c && forallb_str p r
  end.

(** [s.isascii()]: every character has a code below 128. *)
Definition isascii (s : string) : bool :=
  forallb_str (fun c => code c <? 128) s.

(** [s.isdigit()]: non-empty and every character a digit *)
Definition isdigit (s : string) : bool :=
  negb (s =? "")%string && forallb_str isdigit_char s.

Inductive exn : Type := ValueError | OSError.

Inductive result (A : Type) : Type :=
| Ok (a : A)
| Raise (e : exn).
Arguments Ok {A} a.
Arguments Raise {A} e.

Fixpoint decimal_value (acc : Z) (s : string) : Z :=
  match s with
  | "" => acc
  | String c r => decimal_value (10 * acc + Z.of_nat (code c - 48))%Z r
  end.

(** CPython's default bound on the number of digits [int] converts. *)
Definition max_str_digits : nat := 4300.

(** [int(s)] for a string [s] that satisfies [isdigit]: the value when all
    characters are decimal digits and there are at most [max_str_digits]
    of them, [ValueError] otherwise. *)
Definition int_of_digits (s : string) : result Z :=
  if forallb_str isdecimal_char s && (String.length s <=? max_str_digits)
  then Ok (decimal_value 0 s) else Raise ValueError.

(** [sorted(l, key=...)] for any order on the keys: the stable sort,
    written as insertion from the right. *)
Fixpoint insert_by {A : Type} (leb : A -> A -> bool) (x : A) (l : list A)
  : list A :=
  match l with
  | [] => [x]
  | y :: r => if leb x y then x :: l else y :: insert_by leb x r
  end.

Fixpoint sort_by {A : Type} (leb : A -> A -> bool) (l : list A) : list A :=
  match l with
  | [] => []
  | x :: r => insert_by leb x (sort_by leb r)
  end.

(** [l[:stop]] for an integer [stop]: a negative [stop] counts from the
    end of the list. *)
Definition slice_to {A : Type} (l : list A) (stop : Z) : list A :=
  if (stop <? 0)%Z then firstn (List.length l - Z.to_nat (- stop)) l
  else firstn (Z.to_nat stop) l.

End Py.

(** ** The file system as the tools see it *)

Module FS.
Import Py.

(** A file that exists: whether [open(p, 'r')] succeeds, whether the
    bytes it holds decode as UTF-8, whether [open(p, 'w')] succeeds, and
    the text it holds when they decode. *)
Record file : Type := mkFile {
  opens : bool;
  decodes : bool;
  writable : bool;
  content : string
}.

(** The file can be read as text: it opens and its bytes decode. *)
Definition readable (f : file) : bool := opens f && decodes f.

Definition fs : Type := string -> option file.

(** [os.path.exists(p)] / [Path.exists] *)
Definition exists_ (st : fs) (p : string) : bool :=
  match st p with Some _ => true | None => false end.

(** [open(p, 'r', encoding='utf-8')] followed by reading all of it: a file
    that does not open raises [OSError], bytes that do not decode raise
    [UnicodeDecodeError], which is a [ValueError]. *)
Definition read_text (st : fs) (p : string) : result string :=
  match st p with
  | Some f => if readable f then Ok (universal_newlines (content f))
              else Raise (if opens f then ValueError else OSError)
  | None => Raise OSError
  end.

Definition update (st : fs) (p : string) (f : file) : fs :=
  fun q => if (q =? p)%string then Some f else st q.

(** [open(p, 'w', encoding='utf-8')] followed by [f.write(text)]: the file
    then holds the encoding of [text].  The strings of this development
    hold code points below 256, which UTF-8 encodes, so that [f.write]
    does not raise once the file is open. *)
Definition write_text (st : fs) (p : string) (text : string) : result fs :=
  match st p with
  | Some f => if writable f then Ok (update st p (mkFile (opens f) true true text))
              else Raise OSError
  | None => Ok (update st p (mkFile true true true text))
  end.

(** The workspace: [join_root rel] is the resolved [Path(workspace_root) / rel]. *)
Record workspace : Type := mkWorkspace {
  join_root : string -> string
}.

End FS.

(** ** ctags_mcp_tool.py *)

Module CtagsParser.
Import Py FS.

(** One entry of [self.tags]. *)
Record tag : Type := mkTag {
  name : string;
  filename : string;
  excmd : string;
  kind : string;
  line : Z;
  typeref : string;
  scope : string;
  access : string;
  signature : string;
  line_number : nat
}.

(** The dict [ext_fields]: the binding added last is the one found. *)
Definition dict : Type := list (string * string).

Fixpoint dict_get (d : dict) (k default : string) : string :=
  match d with
  | [] => default
  | (k', v) :: r => if (k' =? k)%string then v else dict_get r k default
  end.

Definition dict_set (d : dict) (k v : string) : dict := (k, v) :: d.

Definition terminator : string := String ";" (String DQUOTE "").

(** The loop over [ext_part.split('\t')] of [_parse_tag_line]. *)
Definition parse_ext (ext_part : string) : dict :=
  let ext_part :=
    if endswith terminator ext_part
    then take (String.length ext_part - 2) ext_part else ext_part in
  fold_left
    (fun ext_fields field =>
       match cut ":" field with
       | Some (key, value) => dict_set ext_fields key value
       | None => ext_fields
       end)
    (split TAB ext_part) [].

Definition _parse_tag_line (line : string) (line_num : nat)
  : result (option tag) :=
  let parts := split TAB line in
  if List.length parts <? 3 then Ok None
  else
    let tag_name := nth 0 parts "" in
    let filename := nth 1 parts "" in
    let excmd := nth 2 parts "" in
    let ext_fields :=
      if 3 <? List.length parts then parse_ext (nth 3 parts "") else [] in
    let mk (n : Z) :=
      Ok (Some (mkTag tag_name filename excmd
                  (dict_get ext_fields "kind" "") n
                  (dict_get ext_fields "typeref" "")
                  (dict_get ext_fields "scope" "")
                  (dict_get ext_fields "access" "")
                  (dict_get ext_fields "signature" "")
                  line_num)) in
    if isdigit (dict_get ext_fields "line" "")
    then match int_of_digits (dict_get ext_fields "line" "") with
         | Ok n => mk n
         | Raise e => Raise e
         end
    else mk 0%Z.

(** The loop of [_load_tags] over the lines of the tag file, numbered
    from [line_num]. *)
Fixpoint load_lines (ls : list string) (line_num : nat) : result (list tag) :=
  match ls with
  | [] => Ok []
  | l :: rest =>
      let line := strip l in
      if startswith "!_TAG_" line then load_lines rest (S line_num)
      else
        match _parse_tag_line line line_num with
        | Raise e => Raise e
        | Ok t =>
            match load_lines rest (S line_num) with
            | Raise e => Raise e
            | Ok ts => Ok (match t with Some t => t :: ts | None => ts end)
            end
        end
  end.

Definition _load_tags (st : fs) (tags_file_path : string) : result (list tag) :=
  if negb (exists_ st tags_file_path) then Ok []
  else
    match read_text st tags_file_path with
    | Raise e => Raise e
    | Ok text => load_lines (readlines text) 1
    end.

(** The sort key [(x['filename'], x['line'])] and the order of tuples. *)
Definition key_leb (a b : tag) : bool :=
  match String.compare (filename a) (filename b) with
  | Lt => true
  | Eq => (line a <=? line b)%Z
  | Gt => false
  end.

Fixpoint insert_sorted (x : tag) (l : list tag) : list tag :=
  match l with
  | [] => [x]
  | y :: r => if key_leb x y then x :: l else y :: insert_sorted x r
  end.

(** [sorted(results, key=...)]: the stable sort, written as insertion from
    the right so that equal keys keep their order. *)
Fixpoint sorted (l : list tag) : list tag :=
  match l with
  | [] => []
  | x :: r => insert_sorted x (sorted r)
  end.

(** Truth value of an optional string argument: [None] and the empty
    string are false. *)
Definition given (o : option string) : option string :=
  match o with
  | Some s => if (s =? "")%string then None else Some s
  | None => None
  end.

Definition find_symbols (tags : list tag) (query : string)
    (kind_filter filename_filter : option string) : list tag :=
  let query_lower := lower query in
  let keep (t : tag) : bool :=
    if match given kind_filter with
       | Some k => negb (kind t =? k)%string
       | None => false
       end then false
    else if match given filename_filter with
            | Some f => negb (contains f (filename t))
            | None => false
            end then false
    else contains query_lower (lower (name t)) in
  sorted (filter keep tags).

Definition find_definition (tags : list tag) (symbol : string) : list tag :=
  let exact_matches := filter (fun t => (name t =? symbol)%string) tags in
  match exact_matches with
  | _ :: _ => exact_matches
  | [] => find_symbols tags symbol None None
  end.

Definition find_references (tags : list tag) (symbol : string) : list tag :=
  filter (fun t => contains symbol (name t) || contains symbol (typeref t)) tags.


Definition get_symbols_in_file (tags : list tag) (filename_query : string)
  : list tag :=
  filter (fun t => contains filename_query (filename t)) tags.

(** [sorted(list(kinds))] over the set of the non-empty kinds: whatever
    order the set is listed in, the sort gives the same list. *)
Definition get_kinds (tags : list tag) : list string :=
  sort_by String.leb
    (nodup string_dec
       (map kind (filter (fun t => negb (kind t =? "")%string) tags))).

End CtagsParser.

Module CtagsMCPTool.
Import Py FS CtagsParser.

(** [CtagsMCPTool(workspace_root)]: the parser over [workspace_root / "tags"] *)
Definition new (ws : workspace) (st : fs) : result (list tag) :=
  _load_tags st (join_root ws "tags").

(** The [definitions] field of [find_definition]. *)
Definition find_definition (tags : list tag) (symbol : string) : list tag :=
  firstn 10 (CtagsParser.find_definition tags symbol).

(** The [references] field of [find_references]. *)
Definition find_references (tags : list tag) (symbol : string) : list tag :=
  firstn 50 (CtagsParser.find_references tags symbol).

(** The [total_results] and [symbols] fields of [search_symbols]. *)
Definition search_symbols (tags : list tag) (query : string)
    (kind_filter filename_filter : option string) : nat * list tag :=
  let results := CtagsParser.find_symbols tags query kind_filter filename_filter in
  (List.length results, firstn 50 results).


(** [tag['kind'] or 'unknown'] *)
Definition kind_or_unknown (t : tag) : string :=
  if (kind t =? "")%string then "unknown" else kind t.

(** [by_kind[kind].append(symbol)] on a dict that keeps the order in which
    its keys were first set. *)
Fixpoint group_add (by_kind : list (string * list tag)) (k : string) (t : tag)
  : list (string * list tag) :=
  match by_kind with
  | [] => [(k, [t])]
  | (k', l) :: r =>
      if (k' =? k)%string then (k', (l ++ [t])%list) :: r
      else (k', l) :: group_add r k t
  end.

(** The fields [total_symbols] and [symbols_by_kind] of [get_file_symbols]. *)
Definition get_file_symbols (tags : list tag) (filename_query : string)
  : nat * list (string * list tag) :=
  let symbols := get_symbols_in_file tags filename_query in
  (List.length symbols,
   fold_left (fun by_kind symbol =>
                group_add by_kind (kind_or_unknown symbol) symbol)
             symbols []).

(** [kind_counts[kind] = kind_counts.get(kind, 0) + 1] *)
Fixpoint count_add (kind_counts : list (string * nat)) (k : string)
  : list (string * nat) :=
  match kind_counts with
  | [] => [(k, 1)]
  | (k', n) :: r =>
      if (k' =? k)%string then (k', n + 1) :: r
      else (k', n) :: count_add r k
  end.

Record kinds_result : Type := mkKindsResult {
  available_kinds : list string;
  kind_counts : list (string * nat);
  total_tags : nat
}.

Definition get_available_kinds (tags : list tag) : kinds_result :=
  mkKindsResult
    (get_kinds tags)
    (fold_left (fun counts t => count_add counts (kind_or_unknown t)) tags [])
    (List.length tags).

End CtagsMCPTool.

(** ** ctags_cursor_integration.py *)

Module CursorCtagsIntegration.
Import Py FS CtagsParser.

(** One element of the [references] list of [find_all_references]. *)
Record reference : Type := mkReference {
  ref_file : string;
  ref_line : Z;
  ref_column : nat;
  ref_kind : string;
  ref_context : string
}.

Definition to_reference (t : tag) : reference :=
  mkReference (filename t) (line t) 1 (kind t) (excmd t).

Definition find_all_references (tags : list tag) (symbol : string)
  : list reference :=
  map to_reference (CtagsMCPTool.find_references tags symbol).

(** [main] for the command [find_references]: the integration object is
    built outside the [try], so a failure to load the tags ends the
    process with an error. *)
Definition main_find_references (ws : workspace) (st : fs) (symbol : string)
  : result (list reference) :=
  match CtagsMCPTool.new ws st with
  | Raise e => Raise e
  | Ok tags => Ok (find_all_references tags symbol)
  end.


Inductive goto_result : Type :=
| Found (file : string) (line : Z) (column : nat)
        (symbol kind signature : string)
| NotFound (message : string).

Definition goto_definition (tags : list tag) (symbol : string) : goto_result :=
  match CtagsMCPTool.find_definition tags symbol with
  | definition :: _ =>
      Found (filename definition) (line definition) 1 symbol
            (kind definition) (signature definition)
  | [] => NotFound ("No definition found for symbol: " ++ symbol)
  end.

(** [main] for the command [goto_definition]. *)
Definition main_goto_definition (ws : workspace) (st : fs) (symbol : string)
  : result goto_result :=
  match CtagsMCPTool.new ws st with
  | Raise e => Raise e
  | Ok tags => Ok (goto_definition tags symbol)
  end.

(** One element of the [symbols] list of [get_symbols_in_current_file]. *)
Record file_symbol : Type := mkFileSymbol {
  fsym_name : string;
  fsym_kind : string;
  fsym_line : Z;
  fsym_signature : string;
  fsym_scope : string
}.

Definition to_file_symbol (t : tag) : file_symbol :=
  mkFileSymbol (name t) (kind t) (line t) (signature t) (scope t).

(** The fields [symbols] and [total] of [get_symbols_in_current_file]. *)
Definition get_symbols_in_current_file (tags : list tag)
    (filename_query : string) : list file_symbol * nat :=
  let by_kind := snd (CtagsMCPTool.get_file_symbols tags filename_query) in
  let symbols :=
    flat_map (fun group => map to_file_symbol (snd group)) by_kind in
  (sort_by (fun a b => (fsym_line a <=? fsym_line b)%Z) symbols,
   List.length symbols).

(** One element of the [symbols] list of [search_symbols_fuzzy]. *)
Record fuzzy_symbol : Type := mkFuzzySymbol {
  fz_name : string;
  fz_kind : string;
  fz_file : string;
  fz_line : Z;
  fz_signature : string;
  fz_scope : string
}.

Definition to_fuzzy_symbol (t : tag) : fuzzy_symbol :=
  mkFuzzySymbol (name t) (kind t) (filename t) (line t) (signature t) (scope t).

(** The fields [symbols] and [total] of [search_symbols_fuzzy]. *)
Definition search_symbols_fuzzy (tags : list tag) (query : string) (limit : Z)
  : list fuzzy_symbol * nat :=
  let result := CtagsMCPTool.search_symbols tags query None None in
  (map to_fuzzy_symbol (slice_to (snd result) limit), fst result).

Record workspace_info : Type := mkWorkspaceInfo {
  tags_file_exists : bool;
  total_symbols : nat;
  info_available_kinds : list string;
  kind_distribution : list (string * nat)
}.

Definition get_workspace_info (ws : workspace) (st : fs) (tags : list tag)
  : workspace_info :=
  let kinds_result := CtagsMCPTool.get_available_kinds tags in
  mkWorkspaceInfo
    (exists_ st (join_root ws "tags"))
    (CtagsMCPTool.total_tags kinds_result)
    (CtagsMCPTool.available_kinds kinds_result)
    (CtagsMCPTool.kind_counts kinds_result).

End CursorCtagsIntegration.

(** ** refactor_tool_advanced.py *)

Module AdvancedRefactorTool.
Import Py FS.
Import CursorCtagsIntegration.

Definition is_comment_line (line : string) : bool :=
  let stripped := strip line in
  if startswith "//" stripped || startswith "/*" stripped
     || startswith "*" stripped then true
  else if contains "/*" stripped && contains "*/" stripped then true
  else if startswith "///" stripped || startswith "* @" stripped then true
  else false.

Definition is_in_comment (line : string) (position : nat) : bool :=
  if match find "//" line 0 with
     | Some comment_pos => comment_pos <? position
     | None => false
     end then true
  else
    match find "/*" line 0 with
    | Some block_start =>
        if block_start <? position then
          match find "*/" line block_start with
          | None => true
          | Some block_end => position <? block_end
          end
        else false
    | None => false
    end.

(** [subprocess.run] with [symbol] among the arguments starts the process
    unless the argument holds a NUL character, for which it raises
    [ValueError].  The interpreter is taken to be installed and the
    argument to be no longer than the operating system accepts. *)
Definition spawns (symbol : string) : bool :=
  negb (contains (String NUL "") symbol).

(** The subprocess call: a non-zero return code or any exception yields
    the empty list. *)
Definition find_all_references (ws : workspace) (st : fs) (symbol : string)
  : list reference :=
  if spawns symbol then
    match main_find_references ws st symbol with
    | Ok refs => refs
    | Raise _ => []
    end
  else [].

Record occurrence : Type := mkOccurrence {
  occ_file : string;
  occ_line : nat;
  occ_column : nat;
  occ_context : string;
  occ_match : string
}.

(** The [while True] loop of [find_symbol_occurrences] on one line; every
    round moves [start_pos] forward, [fuel] bounds the rounds. *)
Fixpoint occurrences_from (fuel : nat) (symbol file : string) (line_num : nat)
    (line : string) (start_pos : nat) : list occurrence :=
  match fuel with
  | 0 => []
  | S fuel' =>
      match find symbol line start_pos with
      | None => []
      | Some pos =>
          (if negb (is_in_comment line pos)
           then [mkOccurrence file line_num (pos + 1) (strip line) symbol]
           else [])
          ++ occurrences_from fuel' symbol file line_num line (pos + 1)
      end
  end.

Definition occurrences_in_line (symbol file : string) (line_num : nat)
    (line : string) : list occurrence :=
  if is_comment_line line then []
  else if contains symbol line
  then occurrences_from (String.length line + 2) symbol file line_num line 0
  else [].

(** [for line_num, line in enumerate(lines, line_num)] *)
Fixpoint occurrences_in_lines (symbol file : string) (line_num : nat)
    (lines : list string) : list occurrence :=
  match lines with
  | [] => []
  | l :: rest =>
      occurrences_in_line symbol file line_num l
      ++ occurrences_in_lines symbol file (S line_num) rest
  end.

(** The body of the loop over the references: what one reference adds. *)
Definition occurrences_of_ref (ws : workspace) (st : fs) (symbol : string)
    (r : reference) : list occurrence :=
  let file_path := join_root ws (ref_file r) in
  if exists_ st file_path then
    match read_text st file_path with
    | Ok text => occurrences_in_lines symbol (ref_file r) 1 (readlines text)
    | Raise _ => []
    end
  else [].

Definition find_symbol_occurrences (ws : workspace) (st : fs) (symbol : string)
  : list occurrence :=
  flat_map (occurrences_of_ref ws st symbol) (find_all_references ws st symbol).

(** [s.replace(old, new)] for a non-empty [old]: [skip] characters of a
    match just replaced are still to be passed over. *)
Fixpoint replace_from (old new : string) (skip : nat) (s : string) : string :=
  match s with
  | "" => ""
  | String c r =>
      match skip with
      | S k => replace_from old new k r
      | 0 =>
          if startswith old s
          then new ++ replace_from old new (String.length old - 1) r
          else String c (replace_from old new 0 r)
      end
  end.

Fixpoint insert_between (new s : string) : string :=
  match s with
  | "" => ""
  | String c r => String c (new ++ insert_between new r)
  end.

(** [s.replace(old, new)]; an empty [old] matches before every character
    and at the end. *)
Definition replace (old new s : string) : string :=
  if (old =? "")%string then new ++ insert_between new s
  else replace_from old new 0 s.

Record change : Type := mkChange {
  ch_file : string;
  ch_line : nat;
  ch_column : nat;
  old_line : string;
  new_line : string
}.

Record preview : Type := mkPreview {
  old_symbol : string;
  new_symbol : string;
  total_occurrences : nat;
  files_affected : list string;
  changes : list change;
  skipped_comments : nat
}.

(** [list(set(...))]: each file once; the order of a Python set is not
    specified, this is one of the possible orders. *)
Definition list_set (l : list string) : list string := nodup string_dec l.

(** What one reference adds to [skipped_comments]. *)
Definition skipped_of_ref (ws : workspace) (st : fs) (old_symbol : string)
    (r : reference) : nat :=
  let file_path := join_root ws (ref_file r) in
  if exists_ st file_path then
    match read_text st file_path with
    | Ok text =>
        List.length
          (filter (fun line => contains old_symbol line && is_comment_line line)
                  (readlines text))
    | Raise _ => 0
    end
  else 0.

Definition change_of (old_symbol new_symbol : string) (occ : occurrence)
  : change :=
  let old_context := occ_context occ in
  let new_context := replace old_symbol new_symbol old_context in
  mkChange (occ_file occ) (occ_line occ) (occ_column occ)
    old_context new_context.

Definition preview_rename (ws : workspace) (st : fs)
    (old_symbol new_symbol : string) : preview :=
  let occurrences := find_symbol_occurrences ws st old_symbol in
  mkPreview old_symbol new_symbol
    (List.length occurrences)
    (list_set (map occ_file occurrences))
    (map (change_of old_symbol new_symbol) occurrences)
    (list_sum (map (skipped_of_ref ws st old_symbol)
                   (find_all_references ws st old_symbol))).

(** The [while True] loop of [rename_symbol] on one line.  [None] is a loop
    still running when [fuel] rounds are over. *)
Fixpoint replace_loop (fuel : nat) (old_symbol new_symbol new_line : string)
    (start_pos : nat) : option string :=
  match fuel with
  | 0 => None
  | S fuel' =>
      match find old_symbol new_line start_pos with
      | None => Some new_line
      | Some pos =>
          if negb (is_in_comment new_line pos) then
            replace_loop fuel' old_symbol new_symbol
              (take pos new_line ++ new_symbol
                 ++ drop (pos + String.length old_symbol) new_line)
              (pos + String.length new_symbol)
          else
            replace_loop fuel' old_symbol new_symbol new_line (pos + 1)
      end
  end.

(** The body of [for i, line in enumerate(lines)].  A non-empty
    [old_symbol] needs at most [length line + 1] rounds; [fuel] is the
    budget beyond that. *)
Definition rename_line (fuel : nat) (old_symbol new_symbol line : string)
  : option string :=
  if contains old_symbol line && negb (is_comment_line line)
  then replace_loop (fuel + String.length line + 1) old_symbol new_symbol line 0
  else Some line.

Fixpoint rename_lines (fuel : nat) (old_symbol new_symbol : string)
    (lines : list string) : option (list string) :=
  match lines with
  | [] => Some []
  | l :: rest =>
      match rename_line fuel old_symbol new_symbol l with
      | None => None
      | Some l' =>
          match rename_lines fuel old_symbol new_symbol rest with
          | None => None
          | Some rest' => Some (l' :: rest')
          end
      end
  end.

(** From the text read to the text written. *)
Definition rewrite_text (fuel : nat) (old_symbol new_symbol content : string)
  : option string :=
  match rename_lines fuel old_symbol new_symbol (split LF content) with
  | Some lines => Some (join nl lines)
  | None => None
  end.

(** The state of the loop over [preview["changes"]]. *)
Record apply_state : Type := mkApplyState {
  files : fs;
  files_changed : list string;
  changes_made : nat
}.

Definition set_add (x : string) (l : list string) : list string :=
  if in_dec string_dec x l then l else l ++ [x].

(** One round of the loop over the changes; an exception while reading
    or writing is caught and the round changes nothing. *)
Definition apply_change (fuel : nat) (ws : workspace)
    (old_symbol new_symbol : string) (s : apply_state) (c : change)
  : option apply_state :=
  let file_path := join_root ws (ch_file c) in
  match read_text (files s) file_path with
  | Raise _ => Some s
  | Ok content =>
      match rewrite_text fuel old_symbol new_symbol content with
      | None => None
      | Some text =>
          match write_text (files s) file_path text with
          | Raise _ => Some s
          | Ok st' =>
              Some (mkApplyState st' (set_add (ch_file c) (files_changed s))
                      (S (changes_made s)))
          end
      end
  end.

Fixpoint apply_changes (fuel : nat) (ws : workspace)
    (old_symbol new_symbol : string) (s : apply_state) (cs : list change)
  : option apply_state :=
  match cs with
  | [] => Some s
  | c :: rest =>
      match apply_change fuel ws old_symbol new_symbol s c with
      | None => None
      | Some s' => apply_changes fuel ws old_symbol new_symbol s' rest
      end
  end.

Inductive rename_result : Type :=
| Preview (p : preview)
| Completed (files_changed : list string) (changes_made : nat) (p : preview).

(** [rename_symbol]: the file system it leaves and the value it returns;
    [None] when one of its loops does not end within [fuel]. *)
Definition rename_symbol (fuel : nat) (ws : workspace) (st : fs)
    (old_symbol new_symbol : string) (dry_run : bool)
  : option (fs * rename_result) :=
  let p := preview_rename ws st old_symbol new_symbol in
  if dry_run then Some (st, Preview p)
  else
    match apply_changes fuel ws old_symbol new_symbol
            (mkApplyState st [] 0) (changes p) with
    | None => None
    | Some s => Some (files s, Completed (files_changed s) (changes_made s) p)
    end.


(** [get_symbol_info]: the definition is kept when the subprocess ended
    normally and reported success; an exception of the first
    [subprocess.run] is caught and reported with [str(e)]. *)
Record symbol_info : Type := mkSymbolInfo {
  info_symbol : string;
  info_definition : option goto_result;
  info_references : list reference;
  total_references : nat
}.

Inductive symbol_info_result : Type :=
| Info (i : symbol_info)
| InfoError (symbol error : string).

Definition get_symbol_info (ws : workspace) (st : fs) (symbol : string)
  : symbol_info_result :=
  if spawns symbol then
    let definition :=
      match main_goto_definition ws st symbol with
      | Ok (Found f l c s k g) => Some (Found f l c s k g)
      | Ok (NotFound _) => None
      | Raise _ => None
      end in
    let references := find_all_references ws st symbol in
    Info (mkSymbolInfo symbol definition references (List.length references))
  else InfoError symbol "embedded null byte".

End AdvancedRefactorTool.

(** ** Concrete inputs *)

Module Examples.
Import Py FS CtagsParser CursorCtagsIntegration AdvancedRefactorTool.

Definition dquote : string := String DQUOTE "".

(** The tag line and the source line of the end-to-end scenario. *)
Definition tag_line_foo : string :=
  "foo" ++ tab ++ "src/a.c" ++ tab ++ "10;" ++ dquote ++ tab
  ++ "kind:function" ++ tab ++ "line:10".

Definition source_line_foo : string := "int foo() { return 1; } // calls foo".

(** A workspace whose root is the current directory. *)
Definition here : workspace := mkWorkspace (fun rel => rel).

(** A file system with a tag table and one source file. *)
Definition two_files (tags_file src_file : file) : fs :=
  fun p =>
    if (p =? "tags")%string then Some tags_file
    else if (p =? "src/a.c")%string then Some src_file
    else None.

Definition plain (text : string) : file := mkFile true true true text.

Definition scenario : fs :=
  two_files (plain tag_line_foo) (plain source_line_foo).

(** A tag line with the kind in the fourth field and the line number in
    the fifth. *)
Definition tag_line_kind_then_line : string :=
  "n" ++ tab ++ "f" ++ tab ++ "c" ++ tab ++ "kind:function" ++ tab ++ "line:10".

(** Two records of the same name, the later file first. *)
Definition tags_b_then_a : list tag :=
  [ mkTag "foo" "b.c" "1" "function" 1 "" "" "" "" 1;
    mkTag "foo" "a.c" "2" "function" 2 "" "" "" "" 2 ].

(** Records for the substring fallback. *)
Definition tags_fallback : list tag :=
  [ mkTag "foobar" "b.c" "1" "function" 7 "" "" "" "" 1;
    mkTag "xFOO" "a.c" "2" "function" 3 "" "" "" "" 2;
    mkTag "other" "a.c" "3" "variable" 1 "" "" "" "" 3 ].

(** A line with a closed block comment followed by code. *)
Definition block_then_code : string := "/* a */ x".

(** A tag table present that cannot be opened for reading. *)
Definition unreadable_tags : fs :=
  fun p => if (p =? "tags")%string then Some (mkFile false true true tag_line_foo)
           else None.

(** A tag table that opens but whose bytes are not UTF-8. *)
Definition undecodable_tags : fs :=
  fun p => if (p =? "tags")%string then Some (mkFile true false true "")
           else None.

Definition no_files : fs := fun _ => None.

(** Two tag lines that name the same source file. *)
Definition two_refs_table : string :=
  "foo" ++ tab ++ "src/a.c" ++ tab ++ "1" ++ nl
  ++ "foo2" ++ tab ++ "src/a.c" ++ tab ++ "2" ++ nl.

Definition two_refs : fs :=
  two_files (plain two_refs_table) (plain ("x = foo + foo2;" ++ nl)).

(** A source line whose comment holds the character [/]. *)
Definition slash_table : string := "operator /" ++ tab ++ "src/a.c" ++ tab ++ "1".
Definition slash_line : string := "a // b / c".
Definition slash_files : fs := two_files (plain slash_table) (plain slash_line).

End Examples.

(** ** Notions used to state the properties *)

Module Notions.
Import Py FS CtagsParser.

(** [sub] is a contiguous part of [s]. *)
Definition is_substring (sub s : string) : Prop :=
  exists pre post, s = pre ++ sub ++ post.

(** [sub] occurs in [s] at index [i]. *)
Definition occurs_at (sub s : string) (i : nat) : Prop :=
  i <= String.length s /\ startswith sub (drop i s) = true.

(** Ascending order of the keys [(filename, line)]. *)
Definition key_le (a b : tag) : Prop :=
  String.compare (filename a) (filename b) = Lt \/
  (filename a = filename b /\ (line a <= line b)%Z).

(** The classification of an offset as the specification words it: a
    [//] before the offset, or a [/*] before the offset whose closing
    [*/] (the first one from the [/*] on) is absent or begins at or after
    the offset. *)
Definition in_comment_claimed (line : string) (offset : nat) : Prop :=
  (exists i, i < offset /\ occurs_at "//" line i) \/
  (exists b, b < offset /\ occurs_at "/*" line b /\
     ((forall e, b <= e -> ~ occurs_at "*/" line e) \/
      (exists e, b <= e /\ occurs_at "*/" line e /\
                 (forall j, b <= j -> j < e -> ~ occurs_at "*/" line j) /\
                 offset <= e))).

(** Every character of [s] that [str.isdigit] accepts is one of the decimal
    digits 0 to 9 that [int] reads. *)
Definition digits_are_decimal (s : string) : bool :=
  forallb_str (fun c => negb (isdigit_char c) || isdecimal_char c) s.

End Notions.

Module RenameNotions.
Import Py FS CursorCtagsIntegration AdvancedRefactorTool Notions.

(** How many of the references name the file [f]. *)
Definition refs_naming (f : string) (refs : list reference) : nat :=
  List.length (filter (fun r => (ref_file r =? f)%string) refs).

(** The character [c] is not in [s]. *)
Definition lacks (c : ascii) (s : string) : bool :=
  forallb_str (fun d => negb (Ascii.eqb d c)) s.

(** What a line [l] of the text read and the line [l'] written for it
    have in common: a comment line or a line without the old symbol is
    written as it is; and, for a non-empty old symbol without [/] and a
    new symbol without [*], the line written agrees with the line read
    from every position classified as inside a comment on. *)
Definition line_frame (old new l l' : string) : Prop :=
  ((is_comment_line l = true \/ contains old l = false) -> l' = l) /\
  (old <> "" -> lacks "/" old = true -> lacks "*" new = true ->
   forall p, is_in_comment l p = true -> exists x, l' = x ++ drop p l).

(** The same without the condition on the symbols, for the matches of the
    old symbol inside a comment. *)
Definition line_frame_claimed (old l l' : string) : Prop :=
  ((is_comment_line l = true \/ contains old l = false) -> l' = l) /\
  (forall p, occurs_at old l p -> is_in_comment l p = true ->
             exists x, l' = x ++ drop p l).

(** The text written for the text read: line by line. *)
Definition text_frame (old new text text' : string) : Prop :=
  exists lines',
    text' = join nl lines' /\
    Forall2 (line_frame old new) (split LF text) lines'.

(** A path before and after the rename: untouched, or rewritten one or
    more times, each time from the text read to a text in [text_frame]. *)
Inductive rewritten (old new : string) : option file -> option file -> Prop :=
| rewritten_same (o : option file) : rewritten old new o o
| rewritten_step (f : file) (text' : string) (o : option file) :
    readable f = true -> writable f = true ->
    text_frame old new (universal_newlines (content f)) text' ->
    rewritten old new (Some (mkFile (opens f) true true text')) o ->
    rewritten old new (Some f) o.

(** No [*/] at or after a [/*]. *)
Definition opens_stay_open (cur : string) : Prop :=
  forall i e, occurs_at "/*" cur i -> occurs_at "*/" cur e -> e < i.

(** A reason for every position from [y] on to be inside a comment. *)
Definition comment_before (cur : string) (y : nat) : Prop :=
  (exists i, i < y /\ occurs_at "//" cur i) \/
  ((exists i, i < y /\ occurs_at "/*" cur i) /\ opens_stay_open cur).

(** The state of the rename loop on the line [l] while the scan has not
    reached the marker at [mu] that opens the comment: the part of the
    current line from [start] on is the part of [l] from [k] on. *)
Definition scan_before_marker (l : string) (mu : nat) (block : bool)
    (cur : string) (start k : nat) : Prop :=
  start <= String.length cur /\ drop start cur = drop k l /\ k <= mu /\
  (block = true -> opens_stay_open cur).

End RenameNotions.

Module QueryNotions.
Import Py FS CtagsParser CtagsMCPTool Notions.

(** The three tests of [find_symbols] on one record. *)
Definition symbol_matches (query : string)
    (kind_filter filename_filter : option string) (t : tag) : bool :=
  match given kind_filter with
  | Some k => (kind t =? k)%string
  | None => true
  end
  && match given filename_filter with
     | Some f => contains f (filename t)
     | None => true
     end
  && contains (lower query) (lower (name t)).

(** Two records with the same sort key. *)
Definition same_key (x y : tag) : bool :=
  (filename x =? filename y)%string && (line x =? line y)%Z.

(** Strictly ascending order of strings. *)
Definition string_lt (a b : string) : Prop := String.compare a b = Lt.

(** How many records fall into the bucket [k] of the kinds. *)
Definition bucket_size (tags : list tag) (k : string) : nat :=
  List.length (filter (fun t => (kind_or_unknown t =? k)%string) tags).

(** [kind_counts.get(k, 0)] *)
Fixpoint count_of (kind_counts : list (string * nat)) (k : string) : nat :=
  match kind_counts with
  | [] => 0
  | (k', n) :: r => if (k' =? k)%string then n else count_of r k
  end.

(** [by_kind.get(k, [])] *)
Fixpoint group_of (by_kind : list (string * list tag)) (k : string)
  : list tag :=
  match by_kind with
  | [] => []
  | (k', l) :: r => if (k' =? k)%string then l else group_of r k
  end.

End QueryNotions.

Module ApplyNotions.
Import Py FS AdvancedRefactorTool.

(** Two states of one path that differ at most in the text held: the path
    names a file in both or in neither, with the same permissions. *)
Definition same_but_content (a b : option file) : Prop :=
  match a, b with
  | None, None => True
  | Some f, Some g => readable f = readable g /\ writable f = writable g
  | _, _ => False
  end.


End ApplyNotions.

(** * Properties *)

(** ** Facts about the string primitives *)

Module PyFacts.
Import Py Notions.

Lemma str_app_nil_r (s : string) : s ++ "" = s.
Proof. induction s; simpl; congruence. Qed.

Lemma str_app_assoc (a b c : string) : (a ++ b) ++ c = a ++ (b ++ c).
Proof. induction a; simpl; congruence. Qed.

Lemma str_length_app (a b : string) :
  String.length (a ++ b) = String.length a + String.length b.
Proof. induction a; simpl; congruence. Qed.

Lemma take_drop (n : nat) (s : string) : take n s ++ drop n s = s.
Proof.
  revert s; induction n as [|n IH]; intros [|c r]; simpl; try reflexivity.
  now rewrite IH.
Qed.

Lemma length_take (n : nat) (s : string) :
  String.length (take n s) = Nat.min n (String.length s).
Proof.
  revert s; induction n as [|n IH]; intros [|c r]; simpl; try reflexivity.
  now rewrite IH.
Qed.

Lemma length_drop (n : nat) (s : string) :
  String.length (drop n s) = String.length s - n.
Proof.
  revert s; induction n as [|n IH]; intros [|c r]; simpl; try reflexivity.
  now rewrite IH.
Qed.

Lemma drop_0 (s : string) : drop 0 s = s.
Proof. now destruct s. Qed.

Lemma drop_all (n : nat) (s : string) : String.length s <= n -> drop n s = "".
Proof.
  revert s; induction n as [|n IH]; intros [|c r]; simpl; intros H;
    try reflexivity; try lia.
  apply IH; lia.
Qed.

Lemma drop_app_length (a b : string) : drop (String.length a) (a ++ b) = b.
Proof. induction a; simpl; [apply drop_0 | assumption]. Qed.

Lemma take_app_length (a b : string) : take (String.length a) (a ++ b) = a.
Proof.
  induction a; simpl; [now destruct b | congruence].
Qed.

Lemma drop_app_ge (n : nat) (a b : string) :
  String.length a <= n -> drop n (a ++ b) = drop (n - String.length a) b.
Proof.
  revert n; induction a as [|c a IH]; simpl; intros n H.
  - now rewrite Nat.sub_0_r.
  - destruct n as [|n]; [lia|]. simpl. apply IH. lia.
Qed.

Lemma drop_app_le (n : nat) (a b : string) :
  n <= String.length a -> drop n (a ++ b) = drop n a ++ b.
Proof.
  revert n; induction a as [|c a IH]; simpl; intros n H.
  - assert (n = 0) by lia. subst. now rewrite drop_0.
  - destruct n as [|n]; [reflexivity|]. simpl. apply IH. lia.
Qed.

Lemma take_app_le (n : nat) (a b : string) :
  n <= String.length a -> take n (a ++ b) = take n a.
Proof.
  revert n; induction a as [|c a IH]; simpl; intros n H.
  - assert (n = 0) by lia. subst. now destruct b.
  - destruct n as [|n]; [reflexivity|]. simpl. f_equal. apply IH. lia.
Qed.

Lemma drop_drop (n m : nat) (s : string) : drop n (drop m s) = drop (m + n) s.
Proof.
  revert s; induction m as [|m IH]; intros s; simpl.
  - reflexivity.
  - destruct s as [|c r]; simpl; [now destruct n | apply IH].
Qed.

Lemma startswith_app (p r : string) : startswith p (p ++ r) = true.
Proof.
  induction p as [|c p IH]; simpl; [reflexivity|].
  now rewrite Ascii.eqb_refl, IH.
Qed.

Lemma startswith_inv (p s : string) :
  startswith p s = true -> s = p ++ drop (String.length p) s.
Proof.
  revert s; induction p as [|c p IH]; intros s H; simpl in *.
  - reflexivity.
  - destruct s as [|d s]; [discriminate|].
    apply andb_true_iff in H as [H1 H2].
    apply Ascii.eqb_eq in H1. subst d. simpl. f_equal. now apply IH.
Qed.

Lemma startswith_spec (p s : string) :
  startswith p s = true <-> exists r, s = p ++ r.
Proof.
  split.
  - intros H. eexists. now apply startswith_inv.
  - intros [r ->]. apply startswith_app.
Qed.

Lemma startswith_length (p s : string) :
  startswith p s = true -> String.length p <= String.length s.
Proof.
  intros H. apply startswith_inv in H. rewrite H, str_length_app. lia.
Qed.

Lemma startswith_nil (s : string) : startswith "" s = true.
Proof. now destruct s. Qed.

Lemma occurs_at_split (sub s : string) (i : nat) :
  occurs_at sub s i <->
  exists post, s = take i s ++ sub ++ post /\ String.length (take i s) = i.
Proof.
  unfold occurs_at. split.
  - intros [Hi H]. apply startswith_inv in H.
    exists (drop (String.length sub) (drop i s)). split.
    + rewrite <- H. now rewrite take_drop.
    + rewrite length_take. lia.
  - intros [post [E L]]. split.
    + rewrite length_take in L. lia.
    + rewrite E. rewrite <- L at 1. rewrite drop_app_length.
      apply startswith_app.
Qed.

Lemma occurs_at_bound (sub s : string) (i : nat) :
  occurs_at sub s i -> i + String.length sub <= String.length s.
Proof.
  intros [Hi H]. apply startswith_length in H.
  rewrite length_drop in H. lia.
Qed.

Lemma contains_spec (sub s : string) :
  contains sub s = true <-> is_substring sub s.
Proof.
  unfold is_substring. induction s as [|c s IH].
  - simpl. rewrite orb_false_r. split.
    + intros H. apply startswith_spec in H as [r E]. now exists "", r.
    + intros [pre [post E]]. destruct pre; [|discriminate].
      simpl in E. apply startswith_spec. now exists post.
  - change (contains sub (String c s))
      with (startswith sub (String c s) || contains sub s).
    rewrite orb_true_iff, IH. split.
    + intros [H | [pre [post E]]].
      * apply startswith_spec in H as [r E]. now exists "", r.
      * exists (String c pre), post. simpl. now rewrite E.
    + intros [pre [post E]]. destruct pre as [|d pre].
      * left. apply startswith_spec. now exists post.
      * right. simpl in E. injection E as _ E. now exists pre, post.
Qed.

Lemma contains_occurs (sub s : string) :
  contains sub s = true <-> exists i, occurs_at sub s i.
Proof.
  rewrite contains_spec. unfold is_substring. split.
  - intros [pre [post E]]. exists (String.length pre). subst s. split.
    + rewrite str_length_app. lia.
    + rewrite drop_app_length. apply startswith_app.
  - intros [i H]. apply occurs_at_split in H as [post [E _]].
    now exists (take i s), post.
Qed.

Lemma occurs_at_0 (sub s : string) :
  occurs_at sub s 0 <-> startswith sub s = true.
Proof.
  unfold occurs_at. rewrite drop_0. split; [tauto | intros; split; [lia | easy]].
Qed.

Lemma occurs_at_S (sub : string) (c : ascii) (r : string) (j : nat) :
  occurs_at sub (String c r) (S j) <-> occurs_at sub r j.
Proof. unfold occurs_at. simpl. split; intros [A B]; split; auto; lia. Qed.

Lemma occurs_at_drop (sub s : string) (n k : nat) :
  n <= String.length s ->
  (occurs_at sub (drop n s) k <-> occurs_at sub s (n + k)).
Proof.
  intros Hn. unfold occurs_at. rewrite drop_drop, length_drop.
  split; intros [A B]; split; auto; lia.
Qed.

Lemma find_at_shift (sub s : string) (i : nat) :
  find_at sub s i = option_map (fun k => k + i) (find_at sub s 0).
Proof.
  revert i; induction s as [|c r IH]; intros i; simpl.
  - now destruct (startswith sub "").
  - destruct (startswith sub (String c r)); [reflexivity|].
    rewrite (IH (S i)), (IH 1).
    destruct (find_at sub r 0); simpl; [f_equal; lia | reflexivity].
Qed.

Lemma find_at_some (sub s : string) (k : nat) :
  find_at sub s 0 = Some k <->
  occurs_at sub s k /\ forall j, j < k -> ~ occurs_at sub s j.
Proof.
  revert k; induction s as [|c r IH]; intros k.
  - simpl. destruct (startswith sub "") eqn:E.
    + split.
      * intros [= <-]. split; [now apply occurs_at_0 | intros; lia].
      * intros [[Hk _] _]. simpl in Hk. f_equal. lia.
    + split; [discriminate|]. intros [[Hk H] _]. simpl in Hk.
      assert (k = 0) by lia. subst. rewrite drop_0 in H. congruence.
  - cbn [find_at]. destruct (startswith sub (String c r)) eqn:E.
    + split.
      * intros [= <-]. split; [now apply occurs_at_0 | intros; lia].
      * intros [_ Hmin]. destruct k as [|k]; [reflexivity|].
        exfalso. apply (Hmin 0); [lia | now apply occurs_at_0].
    + rewrite find_at_shift. split.
      * destruct (find_at sub r 0) as [k'|] eqn:F; [|discriminate].
        intros [= <-]. destruct (IH k') as [IH1 _].
        destruct (IH1 eq_refl) as [F1 F2].
        rewrite Nat.add_1_r. split; [now apply occurs_at_S|].
        intros [|j] Hj.
        -- rewrite occurs_at_0. congruence.
        -- rewrite occurs_at_S. apply F2. lia.
      * intros [Hk Hmin]. destruct k as [|k].
        -- apply occurs_at_0 in Hk. congruence.
        -- apply occurs_at_S in Hk.
           assert (F : find_at sub r 0 = Some k).
           { apply IH. split; [assumption|]. intros j Hj Hocc.
             apply (Hmin (S j)); [lia | now apply occurs_at_S]. }
           rewrite F. simpl. f_equal. lia.
Qed.

Lemma find_at_none (sub s : string) :
  find_at sub s 0 = None <-> forall j, ~ occurs_at sub s j.
Proof.
  induction s as [|c r IH].
  - simpl. destruct (startswith sub "") eqn:E.
    + split; [discriminate|]. intros H. exfalso. apply (H 0).
      now apply occurs_at_0.
    + split; [|reflexivity]. intros _ j [Hj H]. simpl in Hj.
      assert (j = 0) by lia. subst. rewrite drop_0 in H. congruence.
  - cbn [find_at]. destruct (startswith sub (String c r)) eqn:E.
    + split; [discriminate|]. intros H. exfalso. apply (H 0).
      now apply occurs_at_0.
    + rewrite find_at_shift. split.
      * intros F [|j].
        -- rewrite occurs_at_0. congruence.
        -- rewrite occurs_at_S. apply IH.
           now destruct (find_at sub r 0).
      * intros H. assert (F : find_at sub r 0 = None).
        { apply IH. intros j Hj. apply (H (S j)). now apply occurs_at_S. }
        now rewrite F.
Qed.

(** [find] returns the lowest index at or after [start] where [sub]
    occurs. *)
Lemma find_some (sub s : string) (start pos : nat) :
  find sub s start = Some pos <->
  start <= pos /\ occurs_at sub s pos /\
  forall j, start <= j -> j < pos -> ~ occurs_at sub s j.
Proof.
  unfold find. destruct (String.length s <? start) eqn:L.
  - apply Nat.ltb_lt in L. split; [discriminate|].
    intros [A [[B _] _]]. lia.
  - apply Nat.ltb_ge in L. rewrite find_at_shift.
    destruct (find_at sub (drop start s) 0) as [k|] eqn:F; simpl.
    + apply find_at_some in F as [F1 F2].
      apply occurs_at_drop in F1; [|assumption]. split.
      * intros [= <-]. split; [lia|]. split.
        -- now rewrite Nat.add_comm.
        -- intros j Hj1 Hj2 Ho. apply (F2 (j - start)); [lia|].
           apply occurs_at_drop; [assumption|].
           now replace (start + (j - start)) with j by lia.
      * intros [A [B C]]. f_equal.
        destruct (Nat.lt_trichotomy (k + start) pos) as [H|[H|H]]; [|assumption|].
        -- exfalso. apply (C (k + start)); [lia | assumption |].
           now rewrite Nat.add_comm.
        -- exfalso. apply (F2 (pos - start)); [lia|].
           apply occurs_at_drop; [assumption|].
           now replace (start + (pos - start)) with pos by lia.
    + split; [discriminate|]. intros [A [B _]]. exfalso.
      rewrite find_at_none in F. apply (F (pos - start)).
      apply occurs_at_drop; [assumption|].
      now replace (start + (pos - start)) with pos by lia.
Qed.

Lemma find_none (sub s : string) (start : nat) :
  find sub s start = None <-> forall j, start <= j -> ~ occurs_at sub s j.
Proof.
  unfold find. destruct (String.length s <? start) eqn:L.
  - apply Nat.ltb_lt in L. split; [|reflexivity].
    intros _ j Hj [B _]. lia.
  - apply Nat.ltb_ge in L. rewrite find_at_shift.
    destruct (find_at sub (drop start s) 0) as [k|] eqn:F; simpl.
    + split; [discriminate|]. intros H. exfalso.
      apply find_at_some in F as [F1 _].
      apply occurs_at_drop in F1; [|assumption].
      apply (H (start + k)); [lia | assumption].
    + split; [|reflexivity]. intros _ j Hj Ho.
      rewrite find_at_none in F. apply (F (j - start)).
      apply occurs_at_drop; [assumption|].
      now replace (start + (j - start)) with j by lia.
Qed.

Lemma find_bound (sub s : string) (start pos : nat) :
  find sub s start = Some pos ->
  start <= pos /\ pos + String.length sub <= String.length s.
Proof.
  intros F. apply find_some in F as [A [B _]]. split; [assumption|].
  now apply occurs_at_bound.
Qed.

End PyFacts.

(** ** The query engine *)

Section Queries.
Import Py FS CtagsParser Notions PyFacts.

Lemma compare_refl (s : string) : String.compare s s = Eq.
Proof.
  induction s as [|c s IH]; simpl; [reflexivity|].
  unfold Ascii.compare. now rewrite N.compare_refl.
Qed.

Lemma compare_eq (a b : string) : String.compare a b = Eq <-> a = b.
Proof.
  split; [apply String.compare_eq_iff | intros ->; apply compare_refl].
Qed.

Lemma ascii_compare_lt_trans (a b c : ascii) :
  Ascii.compare a b = Lt -> Ascii.compare b c = Lt -> Ascii.compare a c = Lt.
Proof.
  unfold Ascii.compare. rewrite !N.compare_lt_iff. apply N.lt_trans.
Qed.

Lemma compare_lt_trans (a b c : string) :
  String.compare a b = Lt -> String.compare b c = Lt -> String.compare a c = Lt.
Proof.
  revert b c; induction a as [|x a IH]; intros [|y b] [|z c]; simpl;
    try discriminate; try reflexivity.
  destruct (Ascii.compare x y) eqn:Exy; try discriminate;
    destruct (Ascii.compare y z) eqn:Eyz; try discriminate; intros H1 H2.
  - apply Ascii.compare_eq_iff in Exy, Eyz. subst.
    unfold Ascii.compare. rewrite N.compare_refl. eapply IH; eassumption.
  - apply Ascii.compare_eq_iff in Exy. subst. now rewrite Eyz.
  - apply Ascii.compare_eq_iff in Eyz. subst. now rewrite Exy.
  - now rewrite (ascii_compare_lt_trans _ _ _ Exy Eyz).
Qed.

Lemma key_leb_le (a b : tag) : key_leb a b = true <-> key_le a b.
Proof.
  unfold key_leb, key_le.
  destruct (String.compare (filename a) (filename b)) eqn:E.
  - apply compare_eq in E. rewrite Z.leb_le. split.
    + intros H. right. auto.
    + intros [H | [_ H]]; [discriminate | assumption].
  - split; auto.
  - split; [discriminate|]. intros [H | [H _]]; [discriminate|].
    rewrite H, compare_refl in E. discriminate.
Qed.

Lemma key_le_total (a b : tag) : key_leb a b = false -> key_le b a.
Proof.
  unfold key_leb, key_le.
  rewrite (String.compare_antisym (filename b) (filename a)).
  destruct (String.compare (filename a) (filename b)) eqn:E; simpl.
  - apply compare_eq in E. rewrite Z.leb_gt. intros H. right.
    split; [congruence | lia].
  - discriminate.
  - auto.
Qed.

Lemma key_le_trans (a b c : tag) : key_le a b -> key_le b c -> key_le a c.
Proof.
  unfold key_le. intros [H1 | [H1 L1]] [H2 | [H2 L2]].
  - left. eapply compare_lt_trans; eassumption.
  - left. now rewrite <- H2.
  - left. now rewrite H1.
  - right. split; [congruence | lia].
Qed.

Lemma insert_sorted_perm (x : tag) (l : list tag) :
  Permutation (x :: l) (insert_sorted x l).
Proof.
  induction l as [|y r IH]; simpl; [apply Permutation_refl|].
  destruct (key_leb x y); [apply Permutation_refl|].
  eapply perm_trans; [apply perm_swap | now apply perm_skip].
Qed.

Lemma sorted_perm (l : list tag) : Permutation l (sorted l).
Proof.
  induction l as [|x r IH]; simpl; [constructor|].
  eapply perm_trans; [apply perm_skip, IH | apply insert_sorted_perm].
Qed.

Lemma insert_sorted_strongly (x : tag) (l : list tag) :
  StronglySorted key_le l -> StronglySorted key_le (insert_sorted x l).
Proof.
  induction 1 as [|y r Hr IH Hy]; simpl.
  - repeat constructor.
  - destruct (key_leb x y) eqn:E.
    + apply key_leb_le in E. constructor; [now constructor|].
      constructor; [assumption|].
      eapply Forall_impl; [|exact Hy]. intros z Hz.
      eapply key_le_trans; eassumption.
    + apply key_le_total in E. constructor; [assumption|].
      apply (Permutation_Forall (insert_sorted_perm x r)).
      now constructor.
Qed.

Lemma sorted_strongly (l : list tag) : StronglySorted key_le (sorted l).
Proof.
  induction l as [|x r IH]; simpl; [constructor|].
  now apply insert_sorted_strongly.
Qed.

Lemma in_sorted (t : tag) (l : list tag) : In t (sorted l) <-> In t l.
Proof.
  split; apply Permutation_in; [apply Permutation_sym|]; apply sorted_perm.
Qed.

End Queries.

Section QueryClaims.
Import Py FS CtagsParser Notions PyFacts.

Lemma find_symbols_unfiltered (tags : list tag) (query : string) :
  find_symbols tags query None None =
  sorted (filter (fun t => contains (lower query) (lower (name t))) tags).
Proof. reflexivity. Qed.

Lemma in_find_symbols_unfiltered (tags : list tag) (query : string) (t : tag) :
  In t (find_symbols tags query None None) <->
  In t tags /\ is_substring (lower query) (lower (name t)).
Proof.
  rewrite find_symbols_unfiltered, in_sorted, filter_In.
  now rewrite contains_spec.
Qed.

Lemma find_definition_exact (tags : list tag) (symbol : string) :
  (exists t, In t tags /\ name t = symbol) ->
  find_definition tags symbol
  = filter (fun t => (name t =? symbol)%string) tags.
Proof.
  intros [t [Hin Hn]]. unfold find_definition.
  destruct (filter _ tags) as [|x r] eqn:E; [|reflexivity].
  exfalso. assert (H : In t []); [|destruct H].
  rewrite <- E. apply filter_In. split; [assumption|].
  now apply String.eqb_eq.
Qed.

Lemma find_definition_fallback (tags : list tag) (symbol : string) :
  (forall t, In t tags -> name t <> symbol) ->
  find_definition tags symbol = find_symbols tags symbol None None.
Proof.
  intros H. unfold find_definition.
  destruct (filter _ tags) as [|x r] eqn:E; [reflexivity|].
  exfalso. assert (Hx : In x (x :: r)) by now left.
  rewrite <- E in Hx. apply filter_In in Hx as [Hx1 Hx2].
  apply String.eqb_eq in Hx2. now apply (H x).
Qed.

Lemma in_firstn {A : Type} (n : nat) (l : list A) (x : A) :
  In x (firstn n l) -> In x l.
Proof.
  intros H. rewrite <- (firstn_skipn n l). apply in_or_app. now left.
Qed.

Lemma exact_match_dec (tags : list tag) (symbol : string) :
  (exists t, In t tags /\ name t = symbol) \/
  (forall t, In t tags -> name t <> symbol).
Proof.
  induction tags as [|x r IH].
  - right. intros t [].
  - destruct (string_dec (name x) symbol) as [E|N].
    + left. exists x. split; [now left | assumption].
    + destruct IH as [[t [H1 H2]] | IH].
      * left. exists t. split; [now right | assumption].
      * right. intros t [<- | H]; auto.
Qed.

(** C5: [find_definition] returns exactly the records named [symbol] when
    the index has one, and otherwise the result of the substring search
    [find_symbols], all of whose records contain [symbol] case-insensitively
    and none of which is named [symbol]; so no result holds both a record
    named [symbol] and one that is not, and the capped list of the adapter
    is drawn from that result. *)
Theorem find_definition_exact_or_fallback (tags : list tag) (symbol : string) :
  let r := CtagsParser.find_definition tags symbol in
  ((exists t, In t tags /\ name t = symbol) ->
   r = filter (fun t => (name t =? symbol)%string) tags /\
   forall t, In t r <-> In t tags /\ name t = symbol)
  /\ ((forall t, In t tags -> name t <> symbol) ->
      r = find_symbols tags symbol None None /\
      forall t, In t r ->
        In t tags /\ is_substring (lower symbol) (lower (name t)) /\
        name t <> symbol)
  /\ ~ (exists t1 t2, In t1 r /\ In t2 r /\ name t1 = symbol /\ name t2 <> symbol)
  /\ (forall t, In t (CtagsMCPTool.find_definition tags symbol) -> In t r).
Proof.
  intros r. assert (Hexact : (exists t, In t tags /\ name t = symbol) ->
    r = filter (fun t => (name t =? symbol)%string) tags /\
    forall t, In t r <-> In t tags /\ name t = symbol).
  { intros H. unfold r. rewrite (find_definition_exact _ _ H).
    split; [reflexivity|]. intros t. rewrite filter_In.
    now rewrite String.eqb_eq. }
  assert (Hfall : (forall t, In t tags -> name t <> symbol) ->
      r = find_symbols tags symbol None None /\
      forall t, In t r ->
        In t tags /\ is_substring (lower symbol) (lower (name t)) /\
        name t <> symbol).
  { intros H. unfold r. rewrite (find_definition_fallback _ _ H).
    split; [reflexivity|]. intros t Ht.
    apply in_find_symbols_unfiltered in Ht as [H1 H2]. auto. }
  repeat split; try (apply Hexact; assumption); try (apply Hfall; assumption).
  - intros [t1 [t2 [H1 [H2 [E N]]]]].
    destruct (exact_match_dec tags symbol) as [D | D].
    + apply Hexact in D as [_ D]. apply D in H2. tauto.
    + apply Hfall in D as [_ D]. apply D in H1. tauto.
  - intros t Ht. unfold CtagsMCPTool.find_definition in Ht.
    now apply in_firstn in Ht.
Qed.

(** C6: before the cap of 50 that the adapter applies, [find_references]
    holds exactly the records of the index whose name or whose type
    reference contains [symbol] as a case-sensitive substring. *)
Theorem find_references_exact (tags : list tag) (symbol : string) :
  (forall t, In t (CtagsParser.find_references tags symbol) <->
             In t tags /\
             (is_substring symbol (name t) \/ is_substring symbol (typeref t)))
  /\ CtagsMCPTool.find_references tags symbol
     = firstn 50 (CtagsParser.find_references tags symbol).
Proof.
  split; [|reflexivity]. intros t. unfold CtagsParser.find_references.
  now rewrite filter_In, orb_true_iff, !contains_spec.
Qed.

(** C7, as the code has it: the results of [find_symbols], and so the
    results of [find_definition] when no record is named [symbol], are in
    ascending order of [(filename, line)] and are the matching records of
    the index; when a record is named [symbol], [find_definition] returns
    the records so named in the order of the tag table. *)
Theorem find_symbols_sorted_by_file_line (tags : list tag)
    (query : string) (kind_filter filename_filter : option string)
    (symbol : string) :
  StronglySorted key_le (find_symbols tags query kind_filter filename_filter)
  /\ (forall t, In t (find_symbols tags query None None) <->
                In t tags /\ is_substring (lower query) (lower (name t)))
  /\ ((forall t, In t tags -> name t <> symbol) ->
      StronglySorted key_le (find_definition tags symbol))
  /\ ((exists t, In t tags /\ name t = symbol) ->
      find_definition tags symbol
      = filter (fun t => (name t =? symbol)%string) tags).
Proof.
  split; [apply sorted_strongly|].
  split; [intros t; apply in_find_symbols_unfiltered|].
  split; [|apply find_definition_exact].
  intros H. rewrite (find_definition_fallback _ _ H). apply sorted_strongly.
Qed.

End QueryClaims.

(** ** The comment classifier *)

Section CommentClassifier.
Import Py FS Notions PyFacts AdvancedRefactorTool.

Lemma find_first_before (sub s : string) (n : nat) :
  (exists c, find sub s 0 = Some c /\ c < n) <->
  (exists i, i < n /\ occurs_at sub s i).
Proof.
  split.
  - intros [c [F L]]. apply find_some in F as [_ [F _]]. eauto.
  - intros [i [L O]]. destruct (find sub s 0) as [c|] eqn:F.
    + exists c. split; [reflexivity|]. apply find_some in F as [_ [_ F]].
      destruct (Compare_dec.le_lt_dec n c) as [G|G]; [|assumption].
      exfalso. apply (F i); [lia | lia | assumption].
    + exfalso. rewrite find_none in F. apply (F i); [lia | assumption].
Qed.

Lemma line_comment_test (line : string) (offset : nat) :
  match find "//" line 0 with
  | Some comment_pos => comment_pos <? offset
  | None => false
  end = true <-> exists i, i < offset /\ occurs_at "//" line i.
Proof.
  rewrite <- find_first_before. destruct (find "//" line 0) as [c|].
  - rewrite Nat.ltb_lt. split.
    + intros H. now exists c.
    + now intros [c' [[= <-] H]].
  - split; [discriminate | now intros [c [F _]]].
Qed.

Lemma block_comment_test (line : string) (offset : nat) :
  match find "/*" line 0 with
  | Some block_start =>
      if block_start <? offset then
        match find "*/" line block_start with
        | None => true
        | Some block_end => offset <? block_end
        end
      else false
  | None => false
  end = true <->
  exists b, b < offset /\ occurs_at "/*" line b /\
            (forall j, j < b -> ~ occurs_at "/*" line j) /\
            forall e, b <= e -> e <= offset -> ~ occurs_at "*/" line e.
Proof.
  destruct (find "/*" line 0) as [b|] eqn:B.
  - pose proof B as B'. apply find_some in B' as [_ [B1 B2]].
    assert (U : forall b', occurs_at "/*" line b' ->
                (forall j, j < b' -> ~ occurs_at "/*" line j) -> b' = b).
    { intros b' O M. destruct (Nat.lt_trichotomy b' b) as [H|[H|H]]; auto.
      - exfalso. apply (B2 b'); [lia | assumption | assumption].
      - exfalso. now apply (M b). }
    destruct (b <? offset) eqn:L.
    + apply Nat.ltb_lt in L.
      destruct (find "*/" line b) as [e|] eqn:E.
      * apply find_some in E as [E1 [E2 E3]]. rewrite Nat.ltb_lt. split.
        -- intros H. exists b.
           split; [assumption|]. split; [assumption|]. split.
           ++ intros j Hj. apply B2; lia.
           ++ intros e' H1 H2. apply E3; lia.
        -- intros [b' [_ [O [M N]]]]. apply U in O; [|assumption]. subst b'.
           destruct (Compare_dec.le_lt_dec e offset) as [G|G]; [|assumption].
           exfalso. now apply (N e).
      * rewrite find_none in E. split; [|reflexivity]. intros _.
        exists b. split; [assumption|]. split; [assumption|]. split.
        -- intros j Hj. apply B2; lia.
        -- intros e H1 _. now apply E.
    + apply Nat.ltb_ge in L. split; [discriminate|].
      intros [b' [Hb [O [M _]]]]. apply U in O; [|assumption]. lia.
  - rewrite find_none in B. split; [discriminate|].
    intros [b [_ [O _]]]. exfalso. apply (B b); [lia | assumption].
Qed.

Lemma is_in_comment_iff (line : string) (offset : nat) :
  is_in_comment line offset = true <->
  (exists i, i < offset /\ occurs_at "//" line i) \/
  (exists b, b < offset /\ occurs_at "/*" line b /\
     (forall j, j < b -> ~ occurs_at "/*" line j) /\
     forall e, b <= e -> e <= offset -> ~ occurs_at "*/" line e).
Proof.
  rewrite <- line_comment_test, <- block_comment_test.
  unfold is_in_comment.
  destruct (match find "//" line 0 with
            | Some comment_pos => comment_pos <? offset
            | None => false
            end); [tauto|].
  split; [auto | intros [H|H]; [discriminate | assumption]].
Qed.

(** C3, as the code has it: an offset is classified as inside a comment
    exactly when a [//] occurs strictly before it, or the first [/*] of the
    line occurs strictly before it and no [*/] begins between that [/*]
    and the offset, both included.  So when the first [*/] from that [/*]
    on begins exactly at the offset and no [//] precedes the offset, the
    result is false; and with no [/*] on the line the result is false at
    every offset up to the first [//] and true after it. *)
Theorem is_in_comment_exact (line : string) (offset : nat) :
  (is_in_comment line offset = true <->
     (exists i, i < offset /\ occurs_at "//" line i) \/
     (exists b, b < offset /\ occurs_at "/*" line b /\
        (forall j, j < b -> ~ occurs_at "/*" line j) /\
        forall e, b <= e -> e <= offset -> ~ occurs_at "*/" line e))
  /\ (forall b, find "/*" line 0 = Some b -> b < offset ->
        find "*/" line b = Some offset ->
        (forall i, i < offset -> ~ occurs_at "//" line i) ->
        is_in_comment line offset = false)
  /\ (forall c, find "//" line 0 = Some c -> find "/*" line 0 = None ->
        is_in_comment line offset = (c <? offset)).
Proof.
  split; [apply is_in_comment_iff|]. split.
  - intros b B L E N. apply not_true_is_false. intros H.
    apply is_in_comment_iff in H as [[i [Hi O]] | [b' [Hb [O [Mi C]]]]].
    + now apply (N i).
    + apply find_some in B as [_ [B1 B2]].
      assert (b' = b).
      { destruct (Nat.lt_trichotomy b' b) as [H|[H|H]]; auto.
        - exfalso. apply (B2 b'); [lia | assumption | assumption].
        - exfalso. now apply (Mi b). }
      subst b'. apply find_some in E as [E1 [E2 _]].
      now apply (C offset).
  - intros c C B. unfold is_in_comment. rewrite C, B.
    now destruct (c <? offset).
Qed.

End CommentClassifier.

(** ** Concrete runs of the queries and of the classifier *)

Section ConcreteQueries.
Import Py FS CtagsParser Notions PyFacts AdvancedRefactorTool Examples.

Lemma find_definition_exact_or_fallback_witness :
  (exists t, In t tags_b_then_a /\ name t = "foo") /\
  CtagsParser.find_definition tags_b_then_a "foo" = tags_b_then_a /\
  (forall t, In t tags_fallback -> name t <> "foo") /\
  map name (CtagsParser.find_definition tags_fallback "foo") = ["xFOO"; "foobar"].
Proof.
  assert (E : exists t, In t tags_b_then_a /\ name t = "foo").
  { eexists. split; [left; reflexivity | reflexivity]. }
  assert (N : forall t, In t tags_fallback -> name t <> "foo").
  { intros t [<- | [<- | [<- | []]]]; discriminate. }
  split; [exact E|]. split.
  - destruct (find_definition_exact_or_fallback tags_b_then_a "foo")
      as [H _].
    destruct (H E) as [-> _]. reflexivity.
  - split; [exact N|].
    destruct (find_definition_exact_or_fallback tags_fallback "foo")
      as [_ [H _]].
    destruct (H N) as [-> _]. reflexivity.
Defined.

Lemma find_definition_exact_not_sorted :
  ~ StronglySorted key_le (CtagsParser.find_definition tags_b_then_a "foo").
Proof.
  change (CtagsParser.find_definition tags_b_then_a "foo") with tags_b_then_a.
  unfold tags_b_then_a. intros H.
  apply StronglySorted_inv in H as [_ H].
  apply Forall_inv in H. destruct H as [H | [H _]]; discriminate.
Qed.

Lemma find_symbols_sorted_by_file_line_witness :
  (forall t, In t tags_fallback -> name t <> "foo") /\
  StronglySorted key_le (CtagsParser.find_definition tags_fallback "foo") /\
  (exists t, In t tags_b_then_a /\ name t = "foo") /\
  CtagsParser.find_definition tags_b_then_a "foo" = tags_b_then_a.
Proof.
  assert (E : exists t, In t tags_b_then_a /\ name t = "foo").
  { eexists. split; [left; reflexivity | reflexivity]. }
  assert (N : forall t, In t tags_fallback -> name t <> "foo").
  { intros t [<- | [<- | [<- | []]]]; discriminate. }
  destruct (find_symbols_sorted_by_file_line tags_fallback "foo" None None "foo")
    as [_ [_ [H _]]].
  destruct (find_symbols_sorted_by_file_line tags_b_then_a "foo" None None "foo")
    as [_ [_ [_ G]]].
  split; [exact N|]. split; [exact (H N)|]. split; [exact E|].
  rewrite (G E). reflexivity.
Defined.

Lemma is_in_comment_boundary_differs :
  ~ (is_in_comment block_then_code 5 = true <->
     in_comment_claimed block_then_code 5).
Proof.
  intros [_ H]. assert (C : in_comment_claimed block_then_code 5).
  { right. exists 0. split; [lia|]. split; [now split; [simpl; lia|]|].
    right. exists 5. split; [lia|]. split; [now split; [simpl; lia|]|].
    split; [|lia]. intros j _ Hj [_ O].
    do 5 (destruct j as [|j]; [discriminate O|]). lia. }
  apply H in C. discriminate C.
Qed.

Lemma is_in_comment_exact_witness :
  find "/*" block_then_code 0 = Some 0 /\
  find "*/" block_then_code 0 = Some 5 /\
  is_in_comment block_then_code 5 = false /\
  is_in_comment "x = 1; // foo" 7 = false /\
  is_in_comment "x = 1; // foo" 8 = true.
Proof.
  destruct (is_in_comment_exact block_then_code 5) as [_ [H _]].
  split; [reflexivity|]. split; [reflexivity|]. split.
  - apply (H 0); [reflexivity | lia | reflexivity |].
    intros i Hi [_ O].
    do 5 (destruct i as [|i]; [discriminate O|]). lia.
  - destruct (is_in_comment_exact "x = 1; // foo" 7) as [_ [_ G7]].
    destruct (is_in_comment_exact "x = 1; // foo" 8) as [_ [_ G8]].
    rewrite (G7 7), (G8 7) by reflexivity. split; reflexivity.
Defined.

(** C2 at the line [n<TAB>f<TAB>c<TAB>kind:function<TAB>line:10]: the
    record has the kind of the fourth field and line 0; the fifth field
    is not read. *)
Theorem parse_tag_line_reads_fourth_field_only (line_num : nat) :
  _parse_tag_line tag_line_kind_then_line line_num
  = Ok (Some (mkTag "n" "f" "c" "function" 0 "" "" "" "" line_num)).
Proof. reflexivity. Qed.

End ConcreteQueries.

(** ** The tag table parser *)

Section ParserFacts.
Import Py FS CtagsParser Notions PyFacts.

Lemma is_substring_refl (s : string) : is_substring s s.
Proof. exists "", "". simpl. now rewrite str_app_nil_r. Qed.

Lemma is_substring_nil (s : string) : is_substring "" s.
Proof. now exists "", s. Qed.

Lemma is_substring_trans (a b c : string) :
  is_substring a b -> is_substring b c -> is_substring a c.
Proof.
  intros [p1 [q1 ->]] [p2 [q2 ->]]. exists (p2 ++ p1), (q1 ++ q2).
  now rewrite !str_app_assoc.
Qed.

Lemma is_substring_cons (c : ascii) (a s : string) :
  is_substring a s -> is_substring a (String c s).
Proof. intros [p [q ->]]. now exists (String c p), q. Qed.

Lemma is_substring_length (a s : string) :
  is_substring a s -> String.length a <= String.length s.
Proof. intros [p [q ->]]. rewrite !str_length_app. lia. Qed.

Lemma forallb_str_app (P : ascii -> bool) (a b : string) :
  forallb_str P (a ++ b) = forallb_str P a && forallb_str P b.
Proof.
  induction a as [|c a IH]; simpl; [reflexivity|].
  now rewrite IH, andb_assoc.
Qed.

Lemma forallb_str_substring (P : ascii -> bool) (a s : string) :
  is_substring a s -> forallb_str P s = true -> forallb_str P a = true.
Proof.
  intros [p [q ->]]. rewrite !forallb_str_app, !andb_true_iff. tauto.
Qed.

Lemma lstrip_suffix (s : string) : exists pre, s = pre ++ lstrip s.
Proof.
  induction s as [|c s [pre IH]]; simpl.
  - now exists "".
  - destruct (isspace c).
    + exists (String c pre). simpl. now rewrite <- IH.
    + now exists "".
Qed.

Lemma rstrip_prefix (s : string) : exists post, s = rstrip s ++ post.
Proof.
  induction s as [|c s [post IH]]; simpl.
  - now exists "".
  - destruct (rstrip s) as [|d r] eqn:E.
    + destruct (isspace c).
      * now exists (String c s).
      * exists post. simpl. now rewrite IH at 1.
    + exists post. simpl. now rewrite IH at 1.
Qed.

Lemma strip_substring (s : string) : is_substring (strip s) s.
Proof.
  unfold strip. destruct (lstrip_suffix s) as [pre E].
  destruct (rstrip_prefix (lstrip s)) as [post F].
  exists pre, post. now rewrite <- F.
Qed.

Lemma split_nonempty (sep : ascii) (s : string) : split sep s <> [].
Proof.
  destruct s as [|c r]; simpl; [discriminate|].
  destruct (Ascii.eqb c sep); [discriminate|].
  destruct (split sep r); discriminate.
Qed.

Lemma split_head_prefix (sep : ascii) (s h : string) (t : list string) :
  split sep s = h :: t -> exists q, s = h ++ q.
Proof.
  revert h t; induction s as [|c r IH]; simpl; intros h t E.
  - injection E as <- _. now exists "".
  - destruct (Ascii.eqb c sep).
    + injection E as <- _. now exists (String c r).
    + destruct (split sep r) as [|h' t'] eqn:E'.
      * injection E as <- _. now exists r.
      * injection E as <- _. destruct (IH h' t' eq_refl) as [q ->].
        now exists q.
Qed.

Lemma split_substring (sep : ascii) (s x : string) :
  In x (split sep s) -> is_substring x s.
Proof.
  revert x; induction s as [|c r IH]; simpl; intros x H.
  - destruct H as [<- | []]. apply is_substring_refl.
  - destruct (Ascii.eqb c sep).
    + destruct H as [<- | H]; [apply is_substring_nil|].
      now apply is_substring_cons, IH.
    + destruct (split sep r) as [|h t] eqn:E.
      * destruct H as [<- | []]. now exists "", r.
      * destruct H as [<- | H].
        -- destruct (split_head_prefix _ _ _ _ E) as [q ->]. now exists "", q.
        -- apply is_substring_cons, IH. now right.
Qed.

Lemma nth_substring (sep : ascii) (s : string) (n : nat) :
  is_substring (nth n (split sep s) "") s.
Proof.
  destruct (nth_in_or_default n (split sep s) "") as [H | ->].
  - now apply split_substring in H.
  - apply is_substring_nil.
Qed.

Lemma split_cons_other (sep c : ascii) (r : string) :
  Ascii.eqb c sep = false ->
  exists h t, split sep r = h :: t /\ split sep (String c r) = String c h :: t.
Proof.
  intros E. simpl. rewrite E.
  destruct (split sep r) as [|h t] eqn:S; [now apply split_nonempty in S|].
  eauto.
Qed.

Lemma length_split_app (sep : ascii) (a b : string) :
  List.length (split sep (a ++ b)) + 1
  = List.length (split sep a) + List.length (split sep b).
Proof.
  induction a as [|c a IH]; [simpl; lia|].
  destruct (Ascii.eqb c sep) eqn:E.
  - simpl. rewrite E. simpl. lia.
  - destruct (split_cons_other sep c (a ++ b) E) as [h [t [S1 S2]]].
    destruct (split_cons_other sep c a E) as [h' [t' [S3 S4]]].
    change (String c a ++ b) with (String c (a ++ b)).
    rewrite S2, S4. rewrite S1, S3 in IH. simpl in *. lia.
Qed.

Lemma length_split_substring (sep : ascii) (a s : string) :
  is_substring a s -> List.length (split sep a) <= List.length (split sep s).
Proof.
  intros [p [q ->]].
  pose proof (length_split_app sep p (a ++ q)).
  pose proof (length_split_app sep a q).
  assert (1 <= List.length (split sep p)).
  { destruct (split sep p) eqn:E; [now apply split_nonempty in E | simpl; lia]. }
  assert (1 <= List.length (split sep q)).
  { destruct (split sep q) eqn:E; [now apply split_nonempty in E | simpl; lia]. }
  lia.
Qed.

Lemma split_app_sep (sep : ascii) (a b : string) :
  split sep (a ++ String sep b) = (split sep a ++ split sep b)%list.
Proof.
  induction a as [|c a IH]; simpl.
  - now rewrite Ascii.eqb_refl.
  - destruct (Ascii.eqb c sep); [now rewrite IH|].
    rewrite IH. destruct (split sep a) as [|h t] eqn:E;
      [now apply split_nonempty in E | reflexivity].
Qed.

Lemma take_substring (n : nat) (s : string) : is_substring (take n s) s.
Proof.
  exists "", (drop n s). simpl. now rewrite take_drop.
Qed.

Lemma cut_substring (sep : ascii) (s k v : string) :
  cut sep s = Some (k, v) -> is_substring v s.
Proof.
  revert k; induction s as [|c r IH]; simpl; intros k H; [discriminate|].
  destruct (Ascii.eqb c sep).
  - injection H as _ <-. apply is_substring_cons, is_substring_refl.
  - destruct (cut sep r) as [[k' v']|]; [|discriminate].
    injection H as _ <-. eapply is_substring_cons, IH. reflexivity.
Qed.

Lemma dict_get_in (d : dict) (k default : string) :
  dict_get d k default = default \/ exists k', In (k', dict_get d k default) d.
Proof.
  induction d as [|[k' v] r IH]; simpl; [now left|].
  destruct (k' =? k)%string.
  - right. exists k'. now left.
  - destruct IH as [IH | [k'' IH]]; [now left|].
    right. exists k''. now right.
Qed.

Lemma parse_ext_values (ext_part k v : string) :
  In (k, v) (parse_ext ext_part) -> is_substring v ext_part.
Proof.
  unfold parse_ext.
  set (e := if endswith terminator ext_part
            then take (String.length ext_part - 2) ext_part else ext_part).
  assert (He : is_substring e ext_part).
  { unfold e. destruct (endswith terminator ext_part);
      [apply take_substring | apply is_substring_refl]. }
  assert (G : forall fields acc,
    (forall x, In x fields -> is_substring x ext_part) ->
    (forall k v, In (k, v) acc -> is_substring v ext_part) ->
    forall k v,
      In (k, v)
        (fold_left
           (fun ext_fields field =>
              match cut ":" field with
              | Some (key, value) => dict_set ext_fields key value
              | None => ext_fields
              end) fields acc) ->
      is_substring v ext_part).
  { induction fields as [|f fs IH]; simpl; intros acc Hf Ha k0 v0 H.
    - eauto.
    - eapply IH; [| |exact H].
      + intros x Hx. apply Hf. now right.
      + intros k1 v1 H1. destruct (cut ":" f) as [[key value]|] eqn:C.
        * destruct H1 as [[= <- <-] | H1]; [|eauto].
          eapply is_substring_trans; [eapply cut_substring; exact C|].
          apply Hf. now left.
        * eauto. }
  apply G.
  - intros x Hx. eapply is_substring_trans; [|exact He].
    now apply split_substring in Hx.
  - intros k0 v0 [].
Qed.

Lemma int_of_digits_ok (v : string) :
  isdigit v = true -> digits_are_decimal v = true ->
  String.length v <= max_str_digits ->
  exists n, int_of_digits v = Ok n.
Proof.
  intros D N L. unfold int_of_digits.
  assert (A : forallb_str isdecimal_char v = true).
  { unfold isdigit in D. apply andb_true_iff in D as [_ D].
    unfold digits_are_decimal in N. clear L.
    induction v as [|c v IH]; simpl in *; [reflexivity|].
    apply andb_true_iff in D as [D1 D2]. apply andb_true_iff in N as [N1 N2].
    rewrite D1 in N1. simpl in N1. rewrite N1. simpl. now apply IH. }
  rewrite A. apply Nat.leb_le in L. rewrite L. simpl. eauto.
Qed.

(** The value of the [line] field is a part of the line. *)
Lemma line_value_substring (line : string) :
  is_substring
    (dict_get (if 3 <? List.length (split TAB line)
          then parse_ext (nth 3 (split TAB line) "") else []) "line" "")
    line.
Proof.
  destruct (dict_get_in (if 3 <? List.length (split TAB line)
                    then parse_ext (nth 3 (split TAB line) "") else [])
                   "line" "") as [-> | [k H]].
  - apply is_substring_nil.
  - destruct (3 <? List.length (split TAB line)); [|destruct H].
    apply parse_ext_values in H.
    eapply is_substring_trans; [exact H | apply nth_substring].
Qed.

(** Whatever follows the fourth field of a tag line is not read. *)
Lemma parse_tag_line_ignores_later_fields (line extra : string) (line_num : nat) :
  4 <= List.length (split TAB line) ->
  _parse_tag_line (line ++ tab ++ extra) line_num = _parse_tag_line line line_num.
Proof.
  intros H. unfold _parse_tag_line, tab.
  change (line ++ String TAB "" ++ extra) with (line ++ String TAB extra).
  rewrite split_app_sep, length_app.
  assert (A : (List.length (split TAB line)
               + List.length (split TAB extra) <? 3) = false)
    by (apply Nat.ltb_ge; lia).
  assert (B : (List.length (split TAB line) <? 3) = false)
    by (apply Nat.ltb_ge; lia).
  assert (C : (3 <? List.length (split TAB line)
                    + List.length (split TAB extra)) = true)
    by (apply Nat.ltb_lt; lia).
  assert (D : (3 <? List.length (split TAB line)) = true)
    by (apply Nat.ltb_lt; lia).
  rewrite A, B, C, D, !app_nth1 by lia. reflexivity.
Qed.

Lemma parse_tag_line_short (line : string) (line_num : nat) :
  List.length (split TAB line) < 3 -> _parse_tag_line line line_num = Ok None.
Proof.
  intros H. unfold _parse_tag_line. apply Nat.ltb_lt in H. now rewrite H.
Qed.

Lemma parse_tag_line_ok (line : string) (line_num : nat) :
  digits_are_decimal line = true -> String.length line <= max_str_digits ->
  3 <= List.length (split TAB line) ->
  exists t, _parse_tag_line line line_num = Ok (Some t) /\
            line_number t = line_num /\
            name t = nth 0 (split TAB line) "" /\
            filename t = nth 1 (split TAB line) "" /\
            excmd t = nth 2 (split TAB line) "".
Proof.
  intros N L H. unfold _parse_tag_line.
  apply Nat.ltb_ge in H. rewrite H.
  pose proof (line_value_substring line) as V.
  set (ext := if 3 <? List.length (split TAB line)
              then parse_ext (nth 3 (split TAB line) "") else []) in *.
  destruct (isdigit (dict_get ext "line" "")) eqn:D.
  - destruct (int_of_digits_ok (dict_get ext "line" "")) as [n ->].
    + assumption.
    + eapply forallb_str_substring; [exact V | exact N].
    + apply is_substring_length in V. lia.
    + eexists. repeat split.
  - eexists. repeat split.
Qed.

Lemma readlines_substring (text l : string) :
  In l (readlines text) -> is_substring l text.
Proof.
  revert l; induction text as [|c r IH]; simpl; intros l H; [destruct H|].
  destruct (Ascii.eqb c LF).
  - destruct H as [<- | H]; [now exists "", r|].
    now apply is_substring_cons, IH.
  - destruct (readlines r) as [|h t] eqn:E.
    + destruct H as [<- | []]. now exists "", r.
    + destruct H as [<- | H].
      * assert (P : exists q, r = h ++ q).
        { clear IH. revert h t E. induction r as [|d r IHr]; simpl; intros h t E;
            [discriminate|].
          destruct (Ascii.eqb d LF).
          - injection E as <- _. now exists r.
          - destruct (readlines r) as [|h' t'] eqn:E'.
            + injection E as <- _. now exists r.
            + injection E as <- _. destruct (IHr h' t' eq_refl) as [q ->].
              now exists q. }
        destruct P as [q ->]. now exists "", q.
      * apply is_substring_cons, IH. now right.
Qed.

(** Text of ASCII characters has no digit but the decimal ones. *)
Lemma isascii_digits (s : string) :
  isascii s = true -> digits_are_decimal s = true.
Proof.
  unfold isascii, digits_are_decimal.
  induction s as [|c r IH]; [reflexivity|]. cbn [forallb_str]. intros H.
  apply andb_true_iff in H as [H1 H2]. rewrite (IH H2), andb_true_r.
  apply Nat.ltb_lt in H1. unfold isdigit_char, isdecimal_char.
  destruct (between 48 57 (code c)); [reflexivity|]. cbn [orb negb].
  assert (A : (code c =? 178) = false) by (apply Nat.eqb_neq; lia).
  assert (B : (code c =? 179) = false) by (apply Nat.eqb_neq; lia).
  assert (C : (code c =? 185) = false) by (apply Nat.eqb_neq; lia).
  now rewrite A, B, C.
Qed.

Lemma digits_are_decimal_universal_newlines (s : string) :
  digits_are_decimal s = true -> digits_are_decimal (universal_newlines s) = true.
Proof.
  unfold digits_are_decimal.
  set (P := fun c => negb (isdigit_char c) || isdecimal_char c).
  assert (G : forall n s, String.length s <= n ->
            forallb_str P s = true -> forallb_str P (universal_newlines s) = true).
  { induction n as [|n IH]; intros [|c r] L H; simpl in *;
      try reflexivity; try lia.
    apply andb_true_iff in H as [H1 H2].
    destruct (Ascii.eqb c CR).
    - simpl. change (P LF) with true. simpl.
      destruct r as [|c' r']; [reflexivity|].
      simpl in H2. apply andb_true_iff in H2 as [H3 H4].
      destruct (Ascii.eqb c' LF).
      + apply IH; [simpl in L; lia | assumption].
      + apply IH; [lia|]. simpl. now rewrite H3, H4.
    - simpl. rewrite H1. simpl. apply IH; [lia | assumption]. }
  apply (G (String.length s)). lia.
Qed.

(** The loop over the lines: with no superscript digits and no line
    longer than the conversion bound it ends normally, and every record
    it yields is the record of a line of at least three fields. *)
Lemma load_lines_ok (lines : list string) (line_num : nat) :
  Forall (fun l => digits_are_decimal l = true) lines ->
  Forall (fun l => String.length l <= max_str_digits) lines ->
  exists tags,
    load_lines lines line_num = Ok tags /\
    forall t, In t tags ->
      exists i l,
        nth_error lines i = Some l /\ line_number t = line_num + i /\
        startswith "!_TAG_" (strip l) = false /\
        3 <= List.length (split TAB (strip l)) /\
        _parse_tag_line (strip l) (line_num + i) = Ok (Some t).
Proof.
  revert line_num; induction lines as [|l rest IH]; intros line_num N L.
  - exists []. split; [reflexivity | intros t []].
  - apply Forall_cons_iff in N as [N1 N2]. apply Forall_cons_iff in L as [L1 L2].
    destruct (IH (S line_num) N2 L2) as [ts [E Hts]].
    assert (Hrest : forall t, In t ts ->
      exists i l0,
        nth_error (l :: rest) i = Some l0 /\ line_number t = line_num + i /\
        startswith "!_TAG_" (strip l0) = false /\
        3 <= List.length (split TAB (strip l0)) /\
        _parse_tag_line (strip l0) (line_num + i) = Ok (Some t)).
    { intros t Ht. destruct (Hts t Ht) as [i [l0 [A [B C]]]].
      exists (S i), l0. rewrite <- Nat.add_succ_comm. auto. }
    cbn [load_lines]. destruct (startswith "!_TAG_" (strip l)) eqn:M.
    + exists ts. auto.
    + destruct (Compare_dec.le_lt_dec 3 (List.length (split TAB (strip l))))
        as [G|G].
      * destruct (parse_tag_line_ok (strip l) line_num) as [t [P [Q _]]].
        -- eapply forallb_str_substring; [apply strip_substring | exact N1].
        -- pose proof (is_substring_length _ _ (strip_substring l)). lia.
        -- assumption.
        -- rewrite P, E. exists (t :: ts). split; [reflexivity|].
           intros t' [<- | Ht']; [|auto].
           exists 0, l. rewrite Nat.add_0_r. auto.
      * rewrite (parse_tag_line_short _ _ G), E. exists ts. auto.
Qed.

End ParserFacts.

Section ParserClaims.
Import Py FS CtagsParser Notions PyFacts Examples.

(** C8, as the code has it: a line of fewer than three tab-separated
    fields yields no record; a tag table that does not exist yields the
    empty index, over which every query is empty; a tag table that exists
    and cannot be read raises an error, since only existence is tested:
    [OSError] when it does not open, [ValueError] when its bytes do not
    decode; and a readable table of ASCII characters without lines beyond
    the conversion bound is loaded without error, every record coming from
    a line of at least three fields. *)
Theorem load_tags_degrades (st : fs) (path : string) :
  (forall line n,
      List.length (split TAB line) < 3 -> _parse_tag_line line n = Ok None)
  /\ (st path = None ->
      _load_tags st path = Ok [] /\
      forall q k f,
        find_symbols [] q k f = [] /\ find_definition [] q = [] /\
        find_references [] q = [])
  /\ (forall f, st path = Some f -> readable f = false ->
      _load_tags st path = Raise (if opens f then ValueError else OSError))
  /\ (forall f, st path = Some f -> readable f = true ->
      isascii (content f) = true ->
      forallb (fun l => String.length l <=? max_str_digits)
              (readlines (universal_newlines (content f))) = true ->
      exists tags,
        _load_tags st path = Ok tags /\
        forall t, In t tags ->
          exists l,
            nth_error (readlines (universal_newlines (content f)))
                      (line_number t - 1) = Some l /\
            3 <= List.length (split TAB l) /\
            3 <= List.length (split TAB (strip l)) /\
            _parse_tag_line (strip l) (line_number t) = Ok (Some t)).
Proof.
  split; [intros line n; apply parse_tag_line_short|].
  split; [|split].
  - intros H. unfold _load_tags, exists_. rewrite H. simpl.
    split; [reflexivity|]. intros q k f. repeat split.
  - intros f H R. unfold _load_tags, exists_, read_text. rewrite H, R.
    reflexivity.
  - intros f H R N L. unfold _load_tags, exists_, read_text. rewrite H, R.
    cbn [negb].
    set (lines := readlines (universal_newlines (content f))) in *.
    destruct (load_lines_ok lines 1) as [tags [E Ht]].
    + apply Forall_forall. intros l Hl.
      eapply forallb_str_substring;
        [apply readlines_substring; exact Hl|].
      now apply digits_are_decimal_universal_newlines, isascii_digits.
    + apply Forall_forall. intros l Hl.
      rewrite forallb_forall in L. apply Nat.leb_le. now apply L.
    + exists tags. split; [exact E|]. intros t Hin.
      destruct (Ht t Hin) as [i [l [A [B [_ [C D]]]]]].
      exists l. rewrite B. simpl. rewrite Nat.sub_0_r.
      split; [exact A|]. split; [|split; [exact C | exact D]].
      pose proof (length_split_substring TAB _ _ (strip_substring l)). lia.
Qed.

Lemma load_tags_unreadable_raises :
  _load_tags unreadable_tags "tags" = Raise OSError /\
  ~ (exists tags, _load_tags unreadable_tags "tags" = Ok tags).
Proof.
  split; [reflexivity|]. intros [tags H]. discriminate H.
Qed.

Lemma load_tags_degrades_witness :
  _load_tags no_files "tags" = Ok [] /\
  _load_tags unreadable_tags "tags" = Raise OSError /\
  _load_tags undecodable_tags "tags" = Raise ValueError /\
  exists tags, _load_tags scenario "tags" = Ok tags /\ List.length tags = 1.
Proof.
  destruct (load_tags_degrades no_files "tags") as [_ [H _]].
  destruct (load_tags_degrades unreadable_tags "tags") as [_ [_ [G _]]].
  destruct (load_tags_degrades undecodable_tags "tags") as [_ [_ [G' _]]].
  destruct (load_tags_degrades scenario "tags") as [_ [_ [_ K]]].
  split; [apply H; reflexivity|].
  split; [exact (G _ eq_refl eq_refl)|].
  split; [exact (G' _ eq_refl eq_refl)|].
  destruct (K (plain tag_line_foo)) as [tags [E _]]; try reflexivity.
  exists tags. split; [exact E|].
  assert (Q : Ok tags = _load_tags scenario "tags") by (symmetry; exact E).
  vm_compute in Q. injection Q as ->. reflexivity.
Defined.

(** A [line] value of superscript digits passes [isdigit] and makes the
    conversion raise. *)
Lemma parse_tag_line_superscript_raises :
  _parse_tag_line
    ("n" ++ tab ++ "f" ++ tab ++ "c" ++ tab ++ "line:"
         ++ String (ascii_of_nat 178) "") 1
  = Raise ValueError.
Proof. reflexivity. Qed.

End ParserClaims.

(** ** The rename engine: preview *)

Section PreviewClaims.
Import Py FS CtagsParser CursorCtagsIntegration Notions PyFacts.
Import AdvancedRefactorTool Examples.

Lemma scenario_references (ws : workspace) (st : fs) (ft : file) :
  st (join_root ws "tags") = Some ft -> readable ft = true ->
  content ft = tag_line_foo \/ content ft = tag_line_foo ++ nl ->
  find_all_references ws st "foo"
  = [mkReference "src/a.c" 0 1 "function" ("10;" ++ dquote)].
Proof.
  intros Ht Hr Hc.
  unfold find_all_references, main_find_references, CtagsMCPTool.new,
    _load_tags, exists_, read_text.
  rewrite Ht, Hr. destruct Hc as [-> | ->]; reflexivity.
Qed.

(** C1, as the code has it: in the end-to-end scenario [preview_rename]
    reports one occurrence, at line 1 and column 5 (the [foo] after
    [int ]); it counts no skipped comment, the line not being a comment
    line; and the proposed line is the whole line with every [foo]
    replaced, the one in the comment included. *)
Theorem preview_end_to_end (ws : workspace) (st : fs) (ft fsrc : file) :
  st (join_root ws "tags") = Some ft -> readable ft = true ->
  content ft = tag_line_foo \/ content ft = tag_line_foo ++ nl ->
  st (join_root ws "src/a.c") = Some fsrc -> readable fsrc = true ->
  content fsrc = source_line_foo \/ content fsrc = source_line_foo ++ nl ->
  preview_rename ws st "foo" "bar"
  = mkPreview "foo" "bar" 1 ["src/a.c"]
      [mkChange "src/a.c" 1 5 source_line_foo
         "int bar() { return 1; } // calls bar"]
      0.
Proof.
  intros Ht Hr Hc Hs Hrs Hcs.
  unfold preview_rename, find_symbol_occurrences.
  rewrite (scenario_references ws st ft Ht Hr Hc).
  cbn [flat_map map list_sum].
  unfold occurrences_of_ref, skipped_of_ref, exists_, read_text.
  cbn [ref_file]. rewrite Hs, Hrs.
  destruct Hcs as [-> | ->]; reflexivity.
Qed.

Lemma preview_end_to_end_witness :
  preview_rename here scenario "foo" "bar"
  = mkPreview "foo" "bar" 1 ["src/a.c"]
      [mkChange "src/a.c" 1 5 source_line_foo
         "int bar() { return 1; } // calls bar"]
      0.
Proof.
  apply (preview_end_to_end here scenario
           (plain tag_line_foo) (plain source_line_foo));
    try reflexivity; left; reflexivity.
Defined.

Lemma preview_end_to_end_not_as_claimed :
  ~ (total_occurrences (preview_rename here scenario "foo" "bar") = 1 /\
     map ch_line (changes (preview_rename here scenario "foo" "bar")) = [1] /\
     map ch_column (changes (preview_rename here scenario "foo" "bar")) = [5] /\
     skipped_comments (preview_rename here scenario "foo" "bar") = 1 /\
     map new_line (changes (preview_rename here scenario "foo" "bar"))
     = ["int bar() { return 1; } // calls foo"]).
Proof.
  intros [_ [_ [_ [H _]]]]. vm_compute in H. discriminate H.
Qed.

End PreviewClaims.

(** ** The rename engine: occurrences *)

Section Occurrences.
Import Py FS CtagsParser CursorCtagsIntegration Notions PyFacts.
Import AdvancedRefactorTool.

Lemma occurrence_eq_dec (a b : occurrence) : {a = b} + {a <> b}.
Proof.
  decide equality; try apply string_dec; apply Nat.eq_dec.
Defined.

Lemma change_eq_dec (a b : change) : {a = b} + {a <> b}.
Proof.
  decide equality; try apply string_dec; apply Nat.eq_dec.
Defined.

(** The loop on one line reports exactly the occurrences at or after
    [start_pos] that are not classified as inside a comment; the fuel
    given by [occurrences_in_line] is enough for that. *)
Lemma occurrences_from_spec (fuel : nat) (symbol file : string) (n : nat)
    (line : string) (start_pos : nat) (o : occurrence) :
  String.length line + 2 <= fuel + start_pos ->
  (In o (occurrences_from fuel symbol file n line start_pos) <->
   exists p, start_pos <= p /\ occurs_at symbol line p /\
             is_in_comment line p = false /\
             o = mkOccurrence file n (p + 1) (strip line) symbol).
Proof.
  revert start_pos; induction fuel as [|fuel IH]; intros start_pos Hf.
  - simpl. split; [intros []|]. intros [p [Hp [[Hl _] _]]]. lia.
  - cbn [occurrences_from].
    destruct (find symbol line start_pos) as [pos|] eqn:F.
    + pose proof F as F'. apply find_some in F' as [F1 [F2 F3]].
      rewrite in_app_iff, (IH (pos + 1)) by lia. split.
      * intros [H | [p [Hp H]]].
        -- destruct (is_in_comment line pos) eqn:C; simpl in H; [destruct H|].
           destruct H as [<- | []]. exists pos. auto.
        -- exists p. split; [lia | exact H].
      * intros [p [Hp [Ho [Hc ->]]]].
        destruct (Nat.eq_dec p pos) as [-> | Hne].
        -- left. rewrite Hc. now left.
        -- right. exists p. split; [|auto].
           destruct (Compare_dec.le_lt_dec (pos + 1) p) as [G|G]; [exact G|].
           exfalso. apply (F3 p); [assumption | lia | assumption].
    + rewrite find_none in F. split; [intros []|].
      intros [p [Hp [Ho _]]]. exfalso. now apply (F p).
Qed.

Lemma occurrences_in_line_spec (symbol file : string) (n : nat)
    (line : string) (o : occurrence) :
  In o (occurrences_in_line symbol file n line) <->
  is_comment_line line = false /\
  exists p, occurs_at symbol line p /\ is_in_comment line p = false /\
            o = mkOccurrence file n (p + 1) (strip line) symbol.
Proof.
  unfold occurrences_in_line. destruct (is_comment_line line).
  - split; [intros [] | intros [H _]; discriminate].
  - destruct (contains symbol line) eqn:C.
    + rewrite occurrences_from_spec by lia. split.
      * intros [p [_ H]]. split; [reflexivity | now exists p].
      * intros [_ [p H]]. exists p. split; [lia | exact H].
    + split; [intros []|]. intros [_ [p [Ho _]]].
      assert (contains symbol line = true) by (apply contains_occurs; eauto).
      congruence.
Qed.

Lemma occurrences_in_lines_spec (symbol file : string) (n : nat)
    (lines : list string) (o : occurrence) :
  In o (occurrences_in_lines symbol file n lines) <->
  exists i line p,
    nth_error lines i = Some line /\ is_comment_line line = false /\
    occurs_at symbol line p /\ is_in_comment line p = false /\
    o = mkOccurrence file (n + i) (p + 1) (strip line) symbol.
Proof.
  revert n; induction lines as [|l rest IH]; intros n; simpl.
  - split; [intros []|]. intros [[|i] [line [p [H _]]]]; discriminate.
  - rewrite in_app_iff, occurrences_in_line_spec, IH. split.
    + intros [[Hc [p H]] | [i [line [p [Hn H]]]]].
      * exists 0, l, p. rewrite Nat.add_0_r. tauto.
      * exists (S i), line, p. rewrite <- Nat.add_succ_comm. tauto.
    + intros [[|i] [line [p [Hn H]]]].
      * left. injection Hn as ->. rewrite Nat.add_0_r in H.
        split; [tauto | exists p; tauto].
      * right. exists i, line, p. rewrite Nat.add_succ_comm. tauto.
Qed.

Lemma occurrences_in_lines_file (symbol file : string) (n : nat)
    (lines : list string) (o : occurrence) :
  In o (occurrences_in_lines symbol file n lines) ->
  occ_file o = file /\ occ_match o = symbol.
Proof.
  rewrite occurrences_in_lines_spec.
  intros [i [line [p [_ [_ [_ [_ ->]]]]]]]. split; reflexivity.
Qed.

Lemma occurrences_from_NoDup (fuel : nat) (symbol file : string) (n : nat)
    (line : string) (start_pos : nat) :
  NoDup (occurrences_from fuel symbol file n line start_pos) /\
  forall o, In o (occurrences_from fuel symbol file n line start_pos) ->
            start_pos < occ_column o /\ occ_line o = n.
Proof.
  revert start_pos; induction fuel as [|fuel IH]; intros start_pos.
  - simpl. split; [constructor | intros o []].
  - cbn [occurrences_from].
    destruct (find symbol line start_pos) as [pos|] eqn:F;
      [|split; [constructor | intros o []]].
    apply find_bound in F as [F _].
    destruct (IH (pos + 1)) as [N B].
    destruct (negb (is_in_comment line pos)); simpl.
    + split.
      * constructor; [|exact N]. intros H. apply B in H. simpl in H. lia.
      * intros o [<- | H]; [simpl; split; [lia | reflexivity]|].
        apply B in H. split; [lia | tauto].
    + split; [exact N|]. intros o H. apply B in H. split; [lia | tauto].
Qed.

Lemma occurrences_in_lines_NoDup (symbol file : string) (n : nat)
    (lines : list string) :
  NoDup (occurrences_in_lines symbol file n lines) /\
  forall o, In o (occurrences_in_lines symbol file n lines) -> n <= occ_line o.
Proof.
  revert n; induction lines as [|l rest IH]; intros n; simpl.
  - split; [constructor | intros o []].
  - destruct (IH (S n)) as [N B].
    assert (L : NoDup (occurrences_in_line symbol file n l) /\
                forall o, In o (occurrences_in_line symbol file n l) ->
                          occ_line o = n).
    { unfold occurrences_in_line. destruct (is_comment_line l);
        [split; [constructor | intros o []]|].
      destruct (contains symbol l); [|split; [constructor | intros o []]].
      destruct (occurrences_from_NoDup (String.length l + 2) symbol file n l 0)
        as [N' B']. split; [exact N'|]. intros o H. now apply B' in H. }
    destruct L as [N' B']. split.
    + apply NoDup_app; [exact N' | exact N |].
      intros o H1 H2. apply B' in H1. apply B in H2. lia.
    + intros o H. apply in_app_or in H as [H | H].
      * apply B' in H. lia.
      * apply B in H. lia.
Qed.

End Occurrences.

Section OccurrenceClaims.
Import Py FS CtagsParser CursorCtagsIntegration Notions RenameNotions PyFacts.
Import AdvancedRefactorTool Examples.

Lemma count_occ_flat_map {A B : Type} (dec : forall x y : B, {x = y} + {x <> y})
    (g : A -> list B) (l : list A) (x : B) :
  count_occ dec (flat_map g l) x
  = list_sum (map (fun a => count_occ dec (g a) x) l).
Proof.
  induction l as [|a l IH]; simpl; [reflexivity|].
  now rewrite count_occ_app, IH.
Qed.

Lemma list_sum_indicator {A : Type} (t : A -> bool) (h : A -> nat) (l : list A) :
  (forall a, In a l -> h a = if t a then 1 else 0) ->
  list_sum (map h l) = List.length (filter t l).
Proof.
  induction l as [|a l IH]; simpl; intros H; [reflexivity|].
  rewrite (H a (or_introl eq_refl)), IH by (intros; apply H; now right).
  now destruct (t a).
Qed.

Lemma change_of_injective (symbol new : string) (a b : occurrence) :
  occ_match a = symbol -> occ_match b = symbol ->
  change_of symbol new a = change_of symbol new b -> a = b.
Proof.
  destruct a, b. unfold change_of. simpl. intros -> -> [=]. congruence.
Qed.

Lemma count_occ_change_of (symbol new : string) (l : list occurrence)
    (o : occurrence) :
  (forall a, In a l -> occ_match a = symbol) -> occ_match o = symbol ->
  count_occ change_eq_dec (map (change_of symbol new) l) (change_of symbol new o)
  = count_occ occurrence_eq_dec l o.
Proof.
  intros Hl Ho. induction l as [|a l IH]; [reflexivity|].
  cbn [map count_occ]. rewrite IH by (intros; apply Hl; now right).
  destruct (change_eq_dec (change_of symbol new a) (change_of symbol new o))
    as [E|E]; destruct (occurrence_eq_dec a o) as [E'|E']; try reflexivity.
  - exfalso. apply E'. eapply change_of_injective; [| |exact E]; auto.
    apply Hl. now left.
  - exfalso. apply E. now rewrite E'.
Qed.

Lemma occurrences_of_ref_file (ws : workspace) (st : fs) (symbol : string)
    (r : reference) (o : occurrence) :
  In o (occurrences_of_ref ws st symbol r) ->
  occ_file o = ref_file r /\ occ_match o = symbol.
Proof.
  unfold occurrences_of_ref.
  destruct (exists_ st (join_root ws (ref_file r))); [|intros []].
  destruct (read_text st (join_root ws (ref_file r))); [|intros []].
  apply occurrences_in_lines_file.
Qed.

Lemma occurrences_match (ws : workspace) (st : fs) (symbol : string)
    (o : occurrence) :
  In o (find_symbol_occurrences ws st symbol) -> occ_match o = symbol.
Proof.
  unfold find_symbol_occurrences. rewrite in_flat_map.
  intros [r [_ H]]. now apply occurrences_of_ref_file in H.
Qed.

(** C9: when [k] of the references that [find_symbol_occurrences] receives
    name the file [f], every occurrence of [symbol] on a non-comment line
    of [f], at a position not classified as inside a comment, is in the
    occurrence list exactly [k] times, and so is its entry in the changes
    of the preview; [total_occurrences] and the changes count every element
    of the occurrence list, duplicates included. *)
Theorem occurrences_repeat_per_reference (ws : workspace) (st : fs)
    (symbol new : string) (f : string) (file : FS.file) :
  st (join_root ws f) = Some file -> readable file = true ->
  (forall i line p,
      nth_error (readlines (universal_newlines (content file))) i = Some line ->
      is_comment_line line = false -> occurs_at symbol line p ->
      is_in_comment line p = false ->
      count_occ occurrence_eq_dec (find_symbol_occurrences ws st symbol)
        (mkOccurrence f (S i) (p + 1) (strip line) symbol)
      = refs_naming f (find_all_references ws st symbol) /\
      count_occ change_eq_dec (changes (preview_rename ws st symbol new))
        (change_of symbol new (mkOccurrence f (S i) (p + 1) (strip line) symbol))
      = refs_naming f (find_all_references ws st symbol))
  /\ total_occurrences (preview_rename ws st symbol new)
     = List.length (find_symbol_occurrences ws st symbol)
  /\ List.length (changes (preview_rename ws st symbol new))
     = List.length (find_symbol_occurrences ws st symbol).
Proof.
  intros Hf Hr. split; [|split; [reflexivity | apply length_map]].
  intros i line p Hn Hc Ho Hi.
  set (o := mkOccurrence f (S i) (p + 1) (strip line) symbol).
  assert (C : count_occ occurrence_eq_dec (find_symbol_occurrences ws st symbol) o
              = refs_naming f (find_all_references ws st symbol)).
  { unfold find_symbol_occurrences, refs_naming.
    rewrite count_occ_flat_map. apply list_sum_indicator. intros r _.
    destruct (ref_file r =? f)%string eqn:E.
    - apply String.eqb_eq in E. unfold occurrences_of_ref, exists_, read_text.
      rewrite E, Hf, Hr.
      set (lines := readlines (universal_newlines (content file))) in *.
      destruct (occurrences_in_lines_NoDup symbol f 1 lines) as [N _].
      assert (I : In o (occurrences_in_lines symbol f 1 lines)).
      { apply occurrences_in_lines_spec. exists i, line, p. auto. }
      rewrite (NoDup_count_occ occurrence_eq_dec) in N. specialize (N o).
      apply (count_occ_In occurrence_eq_dec) in I. lia.
    - apply String.eqb_neq in E. apply count_occ_not_In. intros H.
      apply occurrences_of_ref_file in H as [H _]. simpl in H. congruence. }
  split; [exact C|]. cbn [changes preview_rename].
  rewrite count_occ_change_of; [exact C | | reflexivity].
  intros a. apply occurrences_match.
Qed.

Lemma occurrences_repeat_per_reference_witness :
  refs_naming "src/a.c" (find_all_references here two_refs "foo") = 2 /\
  count_occ occurrence_eq_dec (find_symbol_occurrences here two_refs "foo")
    (mkOccurrence "src/a.c" 1 5 "x = foo + foo2;" "foo") = 2 /\
  total_occurrences (preview_rename here two_refs "foo" "bar") = 4.
Proof.
  destruct (occurrences_repeat_per_reference here two_refs "foo" "bar"
              "src/a.c" (plain ("x = foo + foo2;" ++ nl)))
    as [H [T _]]; try reflexivity.
  split; [reflexivity|]. split; [|rewrite T; reflexivity].
  assert (O : occurs_at "foo" ("x = foo + foo2;" ++ nl) 4).
  { split; [simpl; lia | reflexivity]. }
  destruct (H 0 ("x = foo + foo2;" ++ nl) 4 eq_refl eq_refl O eq_refl)
    as [C _].
  exact C.
Defined.

End OccurrenceClaims.

(** ** The rename engine: apply *)

Section ApplyTermination.
Import Py FS CtagsParser CursorCtagsIntegration Notions RenameNotions PyFacts.
Import AdvancedRefactorTool.

Lemma length_nonempty (s : string) : s <> "" -> 1 <= String.length s.
Proof. destruct s; [congruence | simpl; lia]. Qed.

(** With a non-empty [old_symbol] each round of the loop shortens the part
    of the line that is still to be scanned. *)
Lemma replace_loop_total (fuel : nat) (old new line : string) (start : nat) :
  old <> "" -> start <= String.length line ->
  String.length line + 1 <= fuel + start ->
  exists r, replace_loop fuel old new line start = Some r.
Proof.
  intros Ho. apply length_nonempty in Ho.
  revert line start; induction fuel as [|fuel IH]; intros line start Hs Hf;
    [lia|].
  cbn [replace_loop]. destruct (find old line start) as [pos|] eqn:F;
    [|eauto].
  apply find_bound in F as [F1 F2].
  destruct (negb (is_in_comment line pos)).
  - apply IH.
    + rewrite !str_length_app, length_take, length_drop. lia.
    + rewrite !str_length_app, length_take, length_drop. lia.
  - apply IH; lia.
Qed.

Lemma rename_line_total (fuel : nat) (old new line : string) :
  old <> "" -> exists r, rename_line fuel old new line = Some r.
Proof.
  intros Ho. unfold rename_line.
  destruct (contains old line && negb (is_comment_line line)); [|eauto].
  apply replace_loop_total; [assumption | lia | lia].
Qed.

Lemma rename_lines_total (fuel : nat) (old new : string) (lines : list string) :
  old <> "" -> exists r, rename_lines fuel old new lines = Some r.
Proof.
  intros Ho. induction lines as [|l rest [r IH]]; simpl; [eauto|].
  destruct (rename_line_total fuel old new l Ho) as [l' ->].
  rewrite IH. eauto.
Qed.

Lemma apply_change_total (fuel : nat) (ws : workspace) (old new : string)
    (s : apply_state) (c : change) :
  old <> "" -> exists s', apply_change fuel ws old new s c = Some s'.
Proof.
  intros Ho. unfold apply_change, rewrite_text.
  destruct (read_text (files s) (join_root ws (ch_file c))) as [text|];
    [|eauto].
  destruct (rename_lines_total fuel old new (split LF text) Ho) as [r ->].
  destruct (write_text _ _ _); eauto.
Qed.

Lemma apply_changes_total (fuel : nat) (ws : workspace) (old new : string)
    (cs : list change) (s : apply_state) :
  old <> "" -> exists s', apply_changes fuel ws old new s cs = Some s'.
Proof.
  intros Ho. revert s; induction cs as [|c rest IH]; intros s; simpl;
    [eauto|].
  destruct (apply_change_total fuel ws old new s c Ho) as [s' ->]. apply IH.
Qed.

(** With both symbols empty the loop puts nothing in place of nothing at
    position 0 for ever. *)
Lemma replace_loop_empty_symbols (fuel : nat) (line : string) :
  replace_loop fuel "" "" line 0 = None.
Proof.
  induction fuel as [|fuel IH]; [reflexivity|].
  cbn [replace_loop].
  assert (F : find "" line 0 = Some 0).
  { apply find_some. split; [lia|]. split; [|intros; lia].
    split; [lia|]. rewrite drop_0. apply startswith_nil. }
  rewrite F.
  assert (C : is_in_comment line 0 = false).
  { unfold is_in_comment. destruct (find "//" line 0); simpl;
      destruct (find "/*" line 0); reflexivity. }
  rewrite C. simpl negb. cbn iota.
  replace (take 0 line ++ "" ++ drop (0 + String.length "") line) with line.
  - exact IH.
  - simpl. now destruct line.
Qed.

Lemma set_add_incl (x : string) (l l' : list string) :
  incl l l' -> In x l' -> incl (set_add x l) l'.
Proof.
  intros H Hx. unfold set_add. destruct (in_dec string_dec x l); [exact H|].
  apply incl_app; [exact H|]. intros y [<- | []]. exact Hx.
Qed.

Lemma apply_change_files_changed (fuel : nat) (ws : workspace)
    (old new : string) (s s' : apply_state) (c : change) (bound : list string) :
  apply_change fuel ws old new s c = Some s' ->
  incl (files_changed s) bound -> In (ch_file c) bound ->
  incl (files_changed s') bound.
Proof.
  unfold apply_change. intros H Hs Hc.
  destruct (read_text (files s) (join_root ws (ch_file c))) as [text|];
    [|now injection H as <-].
  destruct (rewrite_text fuel old new text) as [out|]; [|discriminate].
  destruct (write_text _ _ _) as [st'|]; injection H as <-; [|exact Hs].
  simpl. now apply set_add_incl.
Qed.

Lemma apply_changes_files_changed (fuel : nat) (ws : workspace)
    (old new : string) (cs : list change) (s s' : apply_state)
    (bound : list string) :
  apply_changes fuel ws old new s cs = Some s' ->
  incl (files_changed s) bound -> incl (map ch_file cs) bound ->
  incl (files_changed s') bound.
Proof.
  revert s; induction cs as [|c rest IH]; simpl; intros s H Hs Hc.
  - now injection H as <-.
  - destruct (apply_change fuel ws old new s c) as [s1|] eqn:E; [|discriminate].
    apply (IH s1 H).
    + eapply apply_change_files_changed; [exact E | exact Hs |].
      apply Hc. now left.
    + intros x Hx. apply Hc. now right.
Qed.

Lemma preview_change_files (ws : workspace) (st : fs) (old new : string) :
  incl (map ch_file (changes (preview_rename ws st old new)))
       (files_affected (preview_rename ws st old new)).
Proof.
  cbn [changes files_affected preview_rename]. unfold list_set.
  intros x Hx. apply nodup_In. rewrite map_map in Hx. exact Hx.
Qed.

(** C4: with a non-empty old symbol [rename_symbol] without [dry_run]
    returns, and whenever it returns, the files it reports as changed are
    among the [files_affected] of the preview computed over the file
    system it started from, which is the preview it returns. *)
Theorem apply_changed_files_subset_of_preview (fuel : nat) (ws : workspace)
    (st : fs) (old new : string) :
  match rename_symbol fuel ws st old new false with
  | Some (_, Completed changed _ p) =>
      p = preview_rename ws st old new /\
      incl changed (files_affected (preview_rename ws st old new))
  | Some (_, Preview _) => False
  | None => old = ""
  end.
Proof.
  unfold rename_symbol.
  destruct (apply_changes fuel ws old new (mkApplyState st [] 0)
              (changes (preview_rename ws st old new))) as [s|] eqn:E.
  - split; [reflexivity|].
    eapply apply_changes_files_changed;
      [exact E | intros x [] | apply preview_change_files].
  - destruct (string_dec old "") as [H|H]; [exact H|].
    destruct (apply_changes_total fuel ws old new
                (changes (preview_rename ws st old new))
                (mkApplyState st [] 0) H) as [s' H'].
    congruence.
Qed.

End ApplyTermination.

(** ** The rename engine: what a rewrite leaves alone *)

Section CharacterFacts.
Import Py Notions RenameNotions PyFacts.

Lemma get_app_l (a b : string) (i : nat) :
  i < String.length a -> get i (a ++ b) = get i a.
Proof.
  revert i; induction a as [|c a IH]; simpl; intros i H; [lia|].
  destruct i as [|i]; [reflexivity|]. apply IH. lia.
Qed.

Lemma get_app_r (a b : string) (i : nat) :
  get (String.length a + i) (a ++ b) = get i b.
Proof. induction a as [|c a IH]; simpl; [reflexivity | exact IH]. Qed.

Lemma get_drop (k i : nat) (s : string) : get i (drop k s) = get (k + i) s.
Proof.
  revert s; induction k as [|k IH]; intros s; simpl; [reflexivity|].
  destruct s as [|c r]; simpl; [now destruct i | apply IH].
Qed.

Lemma get_some_lt (s : string) (i : nat) (c : ascii) :
  get i s = Some c -> i < String.length s.
Proof.
  revert i; induction s as [|d s IH]; simpl; intros i H; [discriminate|].
  destruct i as [|i]; [lia|]. apply IH in H. lia.
Qed.

Lemma occurs_at_get (sub s : string) (i t : nat) (c : ascii) :
  occurs_at sub s i -> get t sub = Some c -> get (i + t) s = Some c.
Proof.
  intros H G. apply occurs_at_split in H as [post [E L]].
  rewrite E, <- L at 1. rewrite get_app_r, get_app_l; [exact G|].
  eapply get_some_lt; exact G.
Qed.

Lemma occurs_at_pair (x y : ascii) (s : string) (i : nat) :
  occurs_at (String x (String y "")) s i <->
  get i s = Some x /\ get (S i) s = Some y.
Proof.
  split.
  - intros H. split.
    + rewrite <- (Nat.add_0_r i). eapply occurs_at_get; [exact H | reflexivity].
    + rewrite <- Nat.add_1_r. eapply occurs_at_get; [exact H | reflexivity].
  - intros [G1 G2]. split; [apply get_some_lt in G1; lia|].
    rewrite <- (Nat.add_0_r i), <- get_drop in G1.
    rewrite <- Nat.add_1_r, <- get_drop in G2.
    destruct (drop i s) as [|a [|b r]]; simpl in *; try discriminate.
    injection G1 as ->. injection G2 as ->.
    now rewrite !Ascii.eqb_refl.
Qed.

Lemma lacks_get (c : ascii) (s : string) (t : nat) (d : ascii) :
  lacks c s = true -> get t s = Some d -> d <> c.
Proof.
  unfold lacks. revert t; induction s as [|e s IH]; simpl; intros t M G;
    [discriminate|].
  apply andb_true_iff in M as [M1 M2]. destruct t as [|t].
  - injection G as ->. apply negb_true_iff in M1. now apply Ascii.eqb_neq.
  - eapply IH; eassumption.
Qed.

Lemma get_lt_some (s : string) (i : nat) :
  i < String.length s -> exists c, get i s = Some c.
Proof.
  revert i; induction s as [|d s IH]; simpl; intros i H; [lia|].
  destruct i as [|i]; [eauto|]. apply IH. lia.
Qed.

(** A match of a symbol without the character [c] covers no [c]. *)
Lemma match_avoids_char (sub s : string) (i m : nat) (c : ascii) :
  lacks c sub = true -> occurs_at sub s i -> get m s = Some c ->
  m < i \/ i + String.length sub <= m.
Proof.
  intros M O G.
  destruct (Compare_dec.le_lt_dec i m) as [H1|H1]; [|now left].
  destruct (Compare_dec.le_lt_dec (i + String.length sub) m) as [H2|H2];
    [now right|].
  exfalso. destruct (get_lt_some sub (m - i)) as [d D]; [lia|].
  pose proof (occurs_at_get _ _ _ _ _ O D) as G'.
  replace (i + (m - i)) with m in G' by lia.
  rewrite G in G'. injection G' as ->.
  now apply (lacks_get _ _ _ _ M D).
Qed.

Lemma lstrip_contains (x y : ascii) (s : string) :
  isspace x = false ->
  contains (String x (String y "")) (lstrip s)
  = contains (String x (String y "")) s.
Proof.
  intros Hx. induction s as [|c r IH]; [reflexivity|].
  cbn [lstrip]. destruct (isspace c) eqn:C; [|reflexivity].
  rewrite IH. cbn [contains startswith].
  destruct (Ascii.eqb x c) eqn:E; [|reflexivity].
  apply Ascii.eqb_eq in E. congruence.
Qed.

Lemma rstrip_head (c : ascii) (r : string) :
  rstrip (String c r) = "" \/ exists r', rstrip (String c r) = String c r'.
Proof.
  simpl. destruct (rstrip r); [destruct (isspace c)|]; eauto.
Qed.

Lemma rstrip_nil_space (c : ascii) (r : string) :
  rstrip (String c r) = "" -> isspace c = true.
Proof.
  simpl. destruct (rstrip r); [|discriminate].
  now destruct (isspace c).
Qed.

Lemma rstrip_contains (x y : ascii) (s : string) :
  isspace y = false ->
  contains (String x (String y "")) (rstrip s)
  = contains (String x (String y "")) s.
Proof.
  intros Hy. induction s as [|c r IH]; [reflexivity|].
  assert (N : contains (String x (String y "")) "" = false) by reflexivity.
  cbn [rstrip]. destruct (rstrip r) as [|d r'] eqn:R.
  - rewrite N in IH.
    assert (S1 : startswith (String x (String y "")) (String c r) = false).
    { cbn [startswith]. destruct (Ascii.eqb x c); [|reflexivity].
      destruct r as [|e r]; [reflexivity|].
      apply rstrip_nil_space in R. simpl.
      destruct (Ascii.eqb y e) eqn:E; [|reflexivity].
      apply Ascii.eqb_eq in E. congruence. }
    change (contains (String x (String y "")) (String c r))
      with (startswith (String x (String y "")) (String c r)
            || contains (String x (String y "")) r).
    rewrite S1, <- IH. simpl.
    destruct (isspace c); simpl; [reflexivity|].
    destruct (Ascii.eqb x c); reflexivity.
  - change (contains (String x (String y "")) (String c r))
      with (startswith (String x (String y "")) (String c r)
            || contains (String x (String y "")) r).
    change (contains (String x (String y "")) (String c (String d r')))
      with (startswith (String x (String y "")) (String c (String d r'))
            || contains (String x (String y "")) (String d r')).
    rewrite IH. f_equal. cbn [startswith].
    destruct r as [|e r]; [discriminate R|].
    destruct (rstrip_head e r) as [H | [r'' H]]; rewrite H in R;
      [discriminate|]. injection R as <- _. reflexivity.
Qed.

Lemma strip_contains (x y : ascii) (s : string) :
  isspace x = false -> isspace y = false ->
  contains (String x (String y "")) (strip s)
  = contains (String x (String y "")) s.
Proof.
  intros Hx Hy. unfold strip. now rewrite rstrip_contains, lstrip_contains.
Qed.

End CharacterFacts.

Section LoopFrame.
Import Py Notions RenameNotions PyFacts AdvancedRefactorTool.

Variables old new l : string.
Hypothesis old_nonempty : old <> "".
Hypothesis old_lacks_slash : lacks "/" old = true.
Hypothesis new_lacks_star : lacks "*" new = true.

Lemma comment_before_mono (cur : string) (y y' : nat) :
  comment_before cur y -> y <= y' -> comment_before cur y'.
Proof.
  intros [[i [H1 H2]] | [[i [H1 H2]] J]] L.
  - left. exists i. split; [lia | assumption].
  - right. split; [|exact J]. exists i. split; [lia | assumption].
Qed.

Lemma comment_before_in_comment (cur : string) (y : nat) :
  comment_before cur y -> is_in_comment cur y = true.
Proof.
  intros H. apply is_in_comment_iff. destruct H as [H | [H J]]; [now left|].
  right. apply find_first_before in H as [b [F L]].
  apply find_some in F as [_ [F1 F2]].
  exists b. split; [exact L|]. split; [exact F1|]. split.
  - intros j Hj. apply F2; lia.
  - intros e H1 _ He. specialize (J b e F1 He). lia.
Qed.

(** Once every position from [start] on is inside a comment the loop
    changes nothing more. *)
Lemma replace_loop_all_comment (fuel : nat) (cur : string) (start : nat)
    (r : string) :
  (forall y, start <= y -> is_in_comment cur y = true) ->
  replace_loop fuel old new cur start = Some r -> r = cur.
Proof.
  revert start; induction fuel as [|fuel IH]; intros start C H;
    [discriminate|].
  cbn [replace_loop] in H.
  destruct (find old cur start) as [pos|] eqn:F; [|now injection H].
  apply find_bound in F as [F _]. rewrite (C pos F) in H. simpl in H.
  apply (IH (pos + 1)); [|exact H]. intros y Hy. apply C. lia.
Qed.

(** The marker that opens the comment of the line [l]: a [//], or a [/*]
    on a line without [*/]. *)
Variable mu : nat.
Variable block : bool.
Hypothesis marker_at :
  if block then occurs_at "/*" l mu /\ (forall e, ~ occurs_at "*/" l e)
  else occurs_at "//" l mu.

Lemma marker_slash : get mu l = Some "/"%char.
Proof.
  pose proof marker_at as M. destruct (Bool.bool_dec block true) as [Bk|Bk].
  - rewrite Bk in M. destruct M as [H _]. apply occurs_at_pair in H. tauto.
  - apply not_true_is_false in Bk. rewrite Bk in M.
    apply occurs_at_pair in M. tauto.
Qed.

Lemma marker_in_line : mu < String.length l.
Proof. eapply get_some_lt. exact marker_slash. Qed.

Lemma before_marker_occurs (sub cur : string) (start k t : nat) :
  scan_before_marker l mu block cur start k ->
  (occurs_at sub cur (start + t) <-> occurs_at sub l (k + t)).
Proof.
  intros [A [B [C _]]]. pose proof marker_in_line.
  rewrite <- (occurs_at_drop sub cur start t A), B.
  apply occurs_at_drop. lia.
Qed.

Lemma before_marker_tail (cur : string) (start k : nat) :
  scan_before_marker l mu block cur start k -> exists x, cur = x ++ drop (mu + 1) l.
Proof.
  intros [A [B [C _]]].
  exists (take start cur ++ take (mu + 1 - k) (drop k l)).
  rewrite str_app_assoc.
  replace (drop (mu + 1) l) with (drop (mu + 1 - k) (drop k l)).
  - now rewrite take_drop, <- B, take_drop.
  - rewrite drop_drop. f_equal. lia.
Qed.

Lemma before_marker_comment (cur : string) (start k j : nat) :
  scan_before_marker l mu block cur start k -> mu < k + j ->
  comment_before cur (start + j).
Proof.
  intros I H. pose proof I as [A [B [C J]]].
  pose proof marker_at as M.
  destruct (Bool.bool_dec block true) as [Bk|Bk].
  - rewrite Bk in M. right. split; [|now apply J].
    exists (start + (mu - k)). split; [lia|].
    apply (before_marker_occurs _ _ _ _ _ I).
    replace (k + (mu - k)) with mu by lia. apply M.
  - apply not_true_is_false in Bk. rewrite Bk in M.
    left. exists (start + (mu - k)). split; [lia|].
    apply (before_marker_occurs _ _ _ _ _ I).
    replace (k + (mu - k)) with mu by lia. exact M.
Qed.

(** A match that begins at or before the marker ends before it. *)
Lemma match_before_marker (q : nat) :
  occurs_at old l q -> q <= mu -> q + String.length old <= mu.
Proof.
  intros O H.
  destruct (match_avoids_char old l q mu "/"%char old_lacks_slash O
              marker_slash); lia.
Qed.

(** Replacing a match outside comments keeps [opens_stay_open] when the
    rest of the line has no [*/]. *)
Lemma splice_opens_stay_open (a rest : string) :
  opens_stay_open (a ++ old ++ rest) ->
  is_in_comment (a ++ old ++ rest) (String.length a) = false ->
  (forall e, ~ occurs_at "*/" rest e) ->
  opens_stay_open (a ++ new ++ rest).
Proof.
  intros J C R i e Hi He.
  destruct (Compare_dec.le_lt_dec i e) as [Le|]; [exfalso | assumption].
  apply occurs_at_pair in Hi as [Hi1 Hi2], He as [He1 He2].
  assert (NoOpen : forall t, t < String.length a ->
                     ~ occurs_at "/*" (a ++ old ++ rest) t).
  { intros t Ht O.
    assert (comment_before (a ++ old ++ rest) (String.length a)).
    { right. split; [eauto | exact J]. }
    apply comment_before_in_comment in H. congruence. }
  assert (InNew : forall t c, String.length a <= t ->
            t < String.length a + String.length new ->
            get t (a ++ new ++ rest) = Some c -> c <> "*"%char).
  { intros t c H1 H2 G.
    replace t with (String.length a + (t - String.length a)) in G by lia.
    rewrite get_app_r, get_app_l in G by lia.
    eapply lacks_get; [exact new_lacks_star | exact G]. }
  assert (InRest : forall t, String.length a + String.length new <= t ->
            get t (a ++ new ++ rest)
            = get (t - String.length a - String.length new) rest).
  { intros t H.
    replace t with (String.length a
                    + (String.length new
                       + (t - String.length a - String.length new))) at 1
      by lia.
    now rewrite !get_app_r. }
  destruct (Compare_dec.le_lt_dec (String.length a + String.length new) e)
    as [E1|E1].
  - (* the closing marker lies in the rest of the line *)
    apply (R (e - String.length a - String.length new)).
    apply occurs_at_pair.
    pose proof (InRest e E1) as R1.
    assert (R2 : get (S e) (a ++ new ++ rest)
                 = get (S (e - String.length a - String.length new)) rest).
    { rewrite InRest by lia. f_equal. lia. }
    rewrite <- R1, <- R2. auto.
  - destruct (Compare_dec.le_lt_dec (String.length a) e) as [E2|E2].
    + now apply (InNew e _ E2 E1 He1).
    + (* the closing marker begins in [a], and so does the opening one *)
      destruct (Nat.eq_dec i e) as [->|Ne].
      * rewrite Hi1 in He1. discriminate.
      * apply (NoOpen i); [lia|]. apply occurs_at_pair.
        rewrite !get_app_l by lia.
        rewrite !get_app_l in Hi1, Hi2 by lia. auto.
Qed.

(** While the scan has not reached the marker, whatever the loop does,
    the result ends with the part of [l] that follows the marker. *)
Lemma replace_loop_before_marker (fuel : nat) (cur : string) (start k : nat)
    (r : string) :
  scan_before_marker l mu block cur start k ->
  replace_loop fuel old new cur start = Some r ->
  exists x, r = x ++ drop (mu + 1) l.
Proof.
  revert cur start k; induction fuel as [|fuel IH]; intros cur start k I H;
    [discriminate|].
  cbn [replace_loop] in H.
  destruct (find old cur start) as [pos|] eqn:F;
    [|injection H as <-; eapply before_marker_tail; exact I].
  apply find_some in F as [F1 [F2 _]].
  pose proof (occurs_at_bound _ _ _ F2) as F3.
  pose proof (length_nonempty old old_nonempty) as Lo.
  pose proof I as [A [B [C J]]].
  set (j := pos - start).
  assert (Ej : pos = start + j) by (unfold j; lia).
  assert (O : occurs_at old l (k + j)).
  { apply (before_marker_occurs _ _ _ _ _ I). now rewrite <- Ej. }
  destruct (Compare_dec.le_lt_dec (k + j) mu) as [Q|Q].
  - (* the match ends before the marker *)
    pose proof (match_before_marker _ O Q) as Q'.
    destruct (negb (is_in_comment cur pos)) eqn:N.
    + apply negb_true_iff in N.
      refine (IH _ _ (k + j + String.length old) _ H).
      apply occurs_at_split in F2 as [post [E L]].
      assert (Ep : drop (pos + String.length old) cur = post).
      { rewrite E at 1. rewrite <- L at 1.
        rewrite <- str_app_assoc, <- str_length_app. apply drop_app_length. }
      rewrite Ep. split; [|split; [|split]].
      * rewrite !str_length_app, L. lia.
      * rewrite <- L at 1. rewrite <- str_app_assoc, <- str_length_app.
        rewrite drop_app_length, <- Ep, Ej.
        replace (start + j + String.length old)
          with (start + (j + String.length old)) by lia.
        rewrite <- drop_drop, B, drop_drop. f_equal. lia.
      * exact Q'.
      * intros Bk. rewrite E in J, N. rewrite <- L in N at 2.
        apply splice_opens_stay_open; [now apply J | exact N |].
        intros e He. pose proof marker_at as M. rewrite Bk in M.
        destruct M as [_ M].
        apply (M (k + j + String.length old + e)).
        rewrite <- Ep in He. rewrite Ej in He.
        replace (start + j + String.length old)
          with (start + (j + String.length old)) in He by lia.
        rewrite <- drop_drop, B, drop_drop in He.
        apply occurs_at_drop in He.
        -- now replace (k + j + String.length old + e)
             with (k + (j + String.length old) + e) by lia.
        -- pose proof marker_in_line. lia.
    + refine (IH _ _ (k + j + 1) _ H).
      split; [lia|]. split; [|split; [lia | exact J]].
      rewrite Ej. replace (start + j + 1) with (start + (j + 1)) by lia.
      rewrite <- drop_drop, B, drop_drop. f_equal. lia.
  - (* the match begins after the marker: the loop changes nothing more *)
    pose proof (before_marker_comment _ _ _ j I Q) as Cm.
    rewrite <- Ej in Cm.
    rewrite (comment_before_in_comment _ _ Cm) in H. simpl in H.
    apply replace_loop_all_comment in H.
    + subst r. eapply before_marker_tail. exact I.
    + intros y Hy. apply comment_before_in_comment.
      eapply comment_before_mono; [exact Cm | lia].
Qed.

End LoopFrame.

Section ApplyFrame.
Import Py FS CtagsParser CursorCtagsIntegration Notions RenameNotions PyFacts.
Import AdvancedRefactorTool Examples.

Lemma not_comment_line_markers (l : string) :
  is_comment_line l = false ->
  contains "/*" l = true -> forall e, ~ occurs_at "*/" l e.
Proof.
  unfold is_comment_line. intros H C e He.
  destruct (startswith "//" (strip l) || startswith "/*" (strip l)
            || startswith "*" (strip l)); [discriminate|].
  rewrite !strip_contains in H by reflexivity. rewrite C in H.
  assert (E : contains "*/" l = true) by (apply contains_occurs; eauto).
  rewrite E in H. discriminate.
Qed.

Lemma tail_from_marker (l r x : string) (mu p : nat) :
  r = x ++ drop (mu + 1) l -> mu < p -> exists y, r = y ++ drop p l.
Proof.
  intros -> H. exists (x ++ take (p - (mu + 1)) (drop (mu + 1) l)).
  rewrite str_app_assoc. f_equal.
  replace (drop p l) with (drop (p - (mu + 1)) (drop (mu + 1) l)).
  - now rewrite take_drop.
  - rewrite drop_drop. f_equal. lia.
Qed.

(** One line: what [rename_line] writes for it. *)
Lemma rename_line_frame (fuel : nat) (old new l l' : string) :
  rename_line fuel old new l = Some l' -> line_frame old new l l'.
Proof.
  unfold rename_line. intros H. split.
  - intros [C | C]; rewrite C in H; simpl in H;
      [rewrite andb_false_r in H|]; now injection H.
  - intros Ho Mo Mn p Hp.
    destruct (contains old l && negb (is_comment_line l)) eqn:G.
    + apply andb_true_iff in G as [_ G]. apply negb_true_iff in G.
      apply is_in_comment_iff in Hp as [[i [Hi O]] | [b [Hb [O _]]]].
      * destruct (replace_loop_before_marker old new l Ho Mo Mn i false O
                    (fuel + String.length l + 1) l 0 0 l') as [x E];
          [|exact H|].
        -- split; [lia|]. split; [reflexivity|]. split; [lia | discriminate].
        -- eapply tail_from_marker; [exact E | exact Hi].
      * assert (NC : forall e, ~ occurs_at "*/" l e).
        { apply not_comment_line_markers; [exact G|].
          apply contains_occurs. eauto. }
        destruct (replace_loop_before_marker old new l Ho Mo Mn b true
                    (conj O NC) (fuel + String.length l + 1) l 0 0 l')
          as [x E]; [|exact H|].
        -- split; [lia|]. split; [reflexivity|]. split; [lia|].
           intros _ i e _ He. exfalso. now apply (NC e).
        -- eapply tail_from_marker; [exact E | exact Hb].
    + injection H as <-. exists (take p l). now rewrite take_drop.
Qed.

Lemma rename_lines_frame (fuel : nat) (old new : string)
    (lines lines' : list string) :
  rename_lines fuel old new lines = Some lines' ->
  Forall2 (line_frame old new) lines lines'.
Proof.
  revert lines'; induction lines as [|l rest IH]; simpl; intros lines' H.
  - injection H as <-. constructor.
  - destruct (rename_line fuel old new l) as [l'|] eqn:E; [|discriminate].
    destruct (rename_lines fuel old new rest) as [rest'|]; [|discriminate].
    injection H as <-. constructor; [|now apply IH].
    eapply rename_line_frame. exact E.
Qed.

Lemma rewrite_text_frame (fuel : nat) (old new text text' : string) :
  rewrite_text fuel old new text = Some text' ->
  text_frame old new text text'.
Proof.
  unfold rewrite_text. intros H.
  destruct (rename_lines fuel old new (split LF text)) as [lines'|] eqn:E;
    [|discriminate].
  injection H as <-. exists lines'. split; [reflexivity|].
  eapply rename_lines_frame. exact E.
Qed.

Lemma apply_change_rewritten (fuel : nat) (ws : workspace) (old new : string)
    (s s' : apply_state) (c : change) (path : string) (o : option file) :
  apply_change fuel ws old new s c = Some s' ->
  rewritten old new (files s' path) o ->
  rewritten old new (files s path) o.
Proof.
  unfold apply_change, read_text, write_text. intros H R.
  destruct (files s (join_root ws (ch_file c))) as [f|] eqn:F;
    [|now injection H as <-].
  destruct (readable f) eqn:Rd; [|now injection H as <-].
  destruct (rewrite_text fuel old new (universal_newlines (content f)))
    as [text'|] eqn:T; [|discriminate].
  destruct (writable f) eqn:W; [|now injection H as <-].
  injection H as <-. simpl in R. unfold update in R.
  destruct (path =? join_root ws (ch_file c))%string eqn:P; [|exact R].
  apply String.eqb_eq in P. subst path. rewrite F.
  eapply rewritten_step; [exact Rd | exact W | | exact R].
  eapply rewrite_text_frame. exact T.
Qed.

Lemma apply_changes_rewritten (fuel : nat) (ws : workspace) (old new : string)
    (cs : list change) (s s' : apply_state) (path : string) :
  apply_changes fuel ws old new s cs = Some s' ->
  rewritten old new (files s path) (files s' path).
Proof.
  revert s; induction cs as [|c rest IH]; simpl; intros s H.
  - injection H as <-. constructor.
  - destruct (apply_change fuel ws old new s c) as [s1|] eqn:E; [|discriminate].
    eapply apply_change_rewritten; [exact E|]. now apply IH.
Qed.

(** What the writes do keep: whenever [rename_symbol] without [dry_run]
    returns, every path holds what it held or the result of one or more
    rewrites, each from the text read to a text made of its lines; a line
    that is a comment line or lacks the old symbol is written as it is;
    and for a non-empty old symbol without [/] and a new symbol without
    [*], a rewritten line agrees with the line read from every position
    classified as inside a comment on. *)
Theorem apply_leaves_comments (fuel : nat) (ws : workspace) (st st' : fs)
    (old new : string) (r : rename_result) :
  rename_symbol fuel ws st old new false = Some (st', r) ->
  forall path, rewritten old new (st path) (st' path).
Proof.
  unfold rename_symbol. intros H path.
  destruct (apply_changes fuel ws old new (mkApplyState st [] 0)
              (changes (preview_rename ws st old new))) as [s|] eqn:E;
    [|discriminate].
  injection H as <- _.
  apply (apply_changes_rewritten _ _ _ _ _ _ _ path) in E. exact E.
Qed.

End ApplyFrame.

Section ApplyRuns.
Import Py FS CtagsParser CursorCtagsIntegration Notions RenameNotions PyFacts.
Import AdvancedRefactorTool Examples.

Lemma apply_leaves_comments_witness :
  exists st' r,
    rename_symbol 0 here scenario "foo" "bar" false = Some (st', r) /\
    rewritten "foo" "bar" (scenario "src/a.c") (st' "src/a.c") /\
    option_map content (st' "src/a.c")
    = Some "int bar() { return 1; } // calls foo".
Proof.
  destruct (rename_symbol 0 here scenario "foo" "bar" false)
    as [[st' r]|] eqn:E; [|vm_compute in E; discriminate E].
  exists st', r. split; [reflexivity|]. split.
  - exact (apply_leaves_comments _ _ _ _ _ _ _ E "src/a.c").
  - vm_compute in E. injection E as <- _. reflexivity.
Defined.

(** The run of the end-to-end scenario: one file changed, the one the
    preview names. *)
Lemma apply_changed_files_scenario :
  exists st' p,
    rename_symbol 0 here scenario "foo" "bar" false
    = Some (st', Completed ["src/a.c"] 1 p) /\
    files_affected p = ["src/a.c"].
Proof.
  destruct (rename_symbol 0 here scenario "foo" "bar" false)
    as [[st' r]|] eqn:E; [|vm_compute in E; discriminate E].
  pose proof E as E'. vm_compute in E'. injection E' as _ <-.
  exists st'. eexists. split; [reflexivity | reflexivity].
Qed.

(** C10, the defect: with the old symbol [/] and the new symbol [x] on the
    line [a // b / c], which is not a comment line, the rename rewrites the
    file to [a xx b x c].  The preview counts one occurrence, the first
    [/]; the loop replaces it, which removes the [//], and then takes the
    other two for code: the [/] at position 7, a match that is classified
    as inside a comment on the line read, is replaced, against the frame
    that the claim states for that line. *)
Theorem apply_alters_match_in_comment :
  exists st' p,
    rename_symbol 0 here slash_files "/" "x" false
    = Some (st', Completed ["src/a.c"] 1 p) /\
    total_occurrences p = 1 /\
    option_map content (st' "src/a.c") = Some "a xx b x c" /\
    is_comment_line slash_line = false /\
    occurs_at "/" slash_line 7 /\
    is_in_comment slash_line 7 = true /\
    contains "/" "a xx b x c" = false /\
    ~ line_frame_claimed "/" slash_line "a xx b x c".
Proof.
  destruct (rename_symbol 0 here slash_files "/" "x" false)
    as [[st' r]|] eqn:E; [|vm_compute in E; discriminate E].
  destruct r as [p | fc cm p]; [vm_compute in E; discriminate E|].
  exists st', p.
  assert (E' := E). vm_compute in E'. injection E' as <- <- <- <-.
  assert (O : occurs_at "/" slash_line 7) by (split; [simpl; lia | reflexivity]).
  split; [reflexivity|]. split; [reflexivity|]. split; [reflexivity|].
  split; [reflexivity|]. split; [exact O|]. split; [reflexivity|].
  split; [reflexivity|].
  intros [_ H]. destruct (H 7 O eq_refl) as [x Hx].
  assert (C : contains "/" (x ++ drop 7 slash_line) = true).
  { apply contains_spec. exists x, " c". reflexivity. }
  rewrite <- Hx in C. discriminate C.
Qed.

End ApplyRuns.

(** * Further properties of the tag table parser *)

Section ParserFields.
Import Py FS CtagsParser Notions RenameNotions PyFacts Examples.

Lemma split_lacks (sep : ascii) (s : string) :
  lacks sep s = true -> split sep s = [s].
Proof.
  unfold lacks. induction s as [|c s IH]; simpl; intros H; [reflexivity|].
  apply andb_true_iff in H as [H1 H2]. apply negb_true_iff in H1.
  rewrite H1, (IH H2). reflexivity.
Qed.

Lemma split_pieces_lack (sep : ascii) (s x : string) :
  In x (split sep s) -> lacks sep x = true.
Proof.
  unfold lacks. revert x; induction s as [|c s IH]; simpl; intros x H.
  - destruct H as [<- | []]. reflexivity.
  - destruct (Ascii.eqb c sep) eqn:E.
    + destruct H as [<- | H]; [reflexivity | now apply IH].
    + destruct (split sep s) as [|h t] eqn:S; [now apply split_nonempty in S|].
      destruct H as [<- | H].
      * simpl. rewrite E. simpl. apply IH. now left.
      * apply IH. now right.
Qed.

Lemma nth_split_lacks (sep : ascii) (s : string) (n : nat) :
  lacks sep (nth n (split sep s) "") = true.
Proof.
  destruct (nth_in_or_default n (split sep s) "") as [H | ->].
  - now apply split_pieces_lack in H.
  - reflexivity.
Qed.

Lemma decimal_value_nonneg (s : string) (acc : Z) :
  (0 <= acc)%Z -> (0 <= decimal_value acc s)%Z.
Proof.
  revert acc; induction s as [|c s IH]; cbn [decimal_value]; intros acc H;
    [exact H|].
  apply IH. pose proof (Nat2Z.is_nonneg (code c - 48)). lia.
Qed.

(** What a record says about the line it was parsed from. *)
Lemma parse_tag_line_some (line : string) (line_num : nat) (t : tag) :
  _parse_tag_line line line_num = Ok (Some t) ->
  3 <= List.length (split TAB line) /\
  name t = nth 0 (split TAB line) "" /\
  filename t = nth 1 (split TAB line) "" /\
  excmd t = nth 2 (split TAB line) "" /\
  (0 <= CtagsParser.line t)%Z /\ line_number t = line_num.
Proof.
  unfold _parse_tag_line.
  destruct (List.length (split TAB line) <? 3) eqn:L; [discriminate|].
  apply Nat.ltb_ge in L.
  set (ext := if 3 <? List.length (split TAB line)
              then parse_ext (nth 3 (split TAB line) "") else []).
  destruct (isdigit (dict_get ext "line" "")).
  - unfold int_of_digits.
    destruct (forallb_str isdecimal_char (dict_get ext "line" "")
              && (String.length (dict_get ext "line" "") <=? max_str_digits));
      [|discriminate].
    intros [= <-]. simpl. repeat split; try assumption.
    apply decimal_value_nonneg. lia.
  - intros [= <-]. simpl. repeat split; try assumption. lia.
Qed.

(** X1: a line made of three fields without tab characters is parsed without
    loss: the record holds the three fields as name, file and locator, with
    no kind, line 0 and the given number of the line in the table. *)
Theorem parse_three_fields_lossless (nm fl ex : string) (line_num : nat) :
  lacks TAB nm = true -> lacks TAB fl = true -> lacks TAB ex = true ->
  _parse_tag_line (nm ++ tab ++ fl ++ tab ++ ex) line_num
  = Ok (Some (mkTag nm fl ex "" 0 "" "" "" "" line_num)).
Proof.
  intros Hn Hf He. unfold _parse_tag_line, tab.
  change (nm ++ String TAB "" ++ fl ++ String TAB "" ++ ex)
    with (nm ++ String TAB (fl ++ String TAB ex)).
  rewrite !split_app_sep, (split_lacks _ _ Hn), (split_lacks _ _ Hf),
    (split_lacks _ _ He).
  reflexivity.
Qed.

Lemma parse_three_fields_lossless_witness :
  _parse_tag_line ("main" ++ tab ++ "src/main.c" ++ tab ++ "/^int main/") 7
  = Ok (Some (mkTag "main" "src/main.c" "/^int main/" "" 0 "" "" "" "" 7)).
Proof.
  apply parse_three_fields_lossless; reflexivity.
Defined.

Lemma endswith_lacks_last (q : ascii) (s : string) :
  lacks q s = true -> endswith (String ";" (String q "")) s = false.
Proof.
  intros H. unfold endswith.
  destruct (String.length (String ";" (String q "")) <=? String.length s) eqn:L;
    [|reflexivity].
  apply Nat.leb_le in L. simpl in L. simpl andb.
  apply String.eqb_neq. intros E.
  assert (G : get (String.length s - 1) s = Some q).
  { replace (String.length s - 1) with ((String.length s - 2) + 1) by lia.
    rewrite <- get_drop. change (String.length (String ";" (String q ""))) with 2 in E.
    rewrite E. reflexivity. }
  apply (lacks_get _ _ _ _ H) in G. congruence.
Qed.

(** X2: with a fourth field [line:v] whose value has neither a tab nor a
    double quote, the record's line is the decimal value of [v] when [v] is
    a non-empty string of at most 4300 decimal digits, and 0 when [v] is
    not all digits (empty, or with any character that [isdigit] rejects). *)
Theorem parse_line_field (nm fl ex v : string) (line_num : nat) :
  lacks TAB nm = true -> lacks TAB fl = true -> lacks TAB ex = true ->
  lacks TAB v = true -> lacks DQUOTE v = true ->
  (v <> "" -> forallb_str isdecimal_char v = true ->
   String.length v <= max_str_digits ->
   _parse_tag_line (nm ++ tab ++ fl ++ tab ++ ex ++ tab ++ "line:" ++ v) line_num
   = Ok (Some (mkTag nm fl ex "" (decimal_value 0 v) "" "" "" "" line_num)))
  /\ (isdigit v = false ->
      _parse_tag_line (nm ++ tab ++ fl ++ tab ++ ex ++ tab ++ "line:" ++ v) line_num
      = Ok (Some (mkTag nm fl ex "" 0 "" "" "" "" line_num))).
Proof.
  intros Hn Hf He Hv Hq.
  assert (P : forall r,
    (if isdigit v
     then match int_of_digits v with
          | Ok n => Ok (Some (mkTag nm fl ex "" n "" "" "" "" line_num))
          | Raise e => Raise e
          end
     else Ok (Some (mkTag nm fl ex "" 0 "" "" "" "" line_num))) = r ->
    _parse_tag_line (nm ++ tab ++ fl ++ tab ++ ex ++ tab ++ "line:" ++ v) line_num
    = r).
  { intros r <-. unfold _parse_tag_line, tab.
    change (nm ++ String TAB "" ++ fl ++ String TAB "" ++ ex ++ String TAB ""
               ++ "line:" ++ v)
      with (nm ++ String TAB (fl ++ String TAB (ex ++ String TAB ("line:" ++ v)))).
    assert (Hl : lacks TAB ("line:" ++ v) = true) by exact Hv.
    assert (Hd : lacks DQUOTE ("line:" ++ v) = true) by exact Hq.
    rewrite !split_app_sep, (split_lacks _ _ Hn), (split_lacks _ _ Hf),
      (split_lacks _ _ He), (split_lacks _ _ Hl).
    cbn [app List.length Nat.ltb Nat.leb nth]. unfold parse_ext, terminator.
    rewrite (endswith_lacks_last DQUOTE _ Hd), (split_lacks _ _ Hl).
    reflexivity. }
  split.
  - intros Hne Hdec Hlen. apply P.
    assert (D : isdigit v = true).
    { unfold isdigit. apply andb_true_iff. split.
      - apply negb_true_iff. now apply String.eqb_neq.
      - clear -Hdec. induction v as [|c v IH]; simpl in *; [reflexivity|].
        apply andb_true_iff in Hdec as [H1 H2]. rewrite (IH H2), andb_true_r.
        unfold isdigit_char, isdecimal_char in *. now rewrite H1. }
    rewrite D. unfold int_of_digits. rewrite Hdec.
    apply Nat.leb_le in Hlen. now rewrite Hlen.
  - intros D. apply P. now rewrite D.
Qed.

Lemma parse_line_field_witness :
  _parse_tag_line (tag_line_kind_then_line ++ "") 3
  = Ok (Some (mkTag "n" "f" "c" "function" 0 "" "" "" "" 3)) /\
  _parse_tag_line ("n" ++ tab ++ "f" ++ tab ++ "c" ++ tab ++ "line:" ++ "042") 3
  = Ok (Some (mkTag "n" "f" "c" "" 42 "" "" "" "" 3)) /\
  _parse_tag_line ("n" ++ tab ++ "f" ++ tab ++ "c" ++ tab ++ "line:" ++ "4x2") 3
  = Ok (Some (mkTag "n" "f" "c" "" 0 "" "" "" "" 3)).
Proof.
  split; [reflexivity|].
  destruct (parse_line_field "n" "f" "c" "042" 3) as [A _]; try reflexivity.
  destruct (parse_line_field "n" "f" "c" "4x2" 3) as [_ B]; try reflexivity.
  split.
  - apply A; [discriminate | reflexivity | unfold max_str_digits; simpl; lia].
  - apply B. reflexivity.
Defined.

End ParserFields.

Section LoadedRecords.
Import Py FS CtagsParser Notions RenameNotions PyFacts Examples.

Lemma lstrip_head (s : string) (c : ascii) (r : string) :
  lstrip s = String c r -> isspace c = false.
Proof.
  induction s as [|d s IH]; simpl; [discriminate|].
  destruct (isspace d) eqn:E; [exact IH|]. intros [= <- _]. exact E.
Qed.

Lemma strip_head (s : string) (c : ascii) (r : string) :
  strip s = String c r -> isspace c = false.
Proof.
  unfold strip. destruct (lstrip s) as [|d s'] eqn:L; [discriminate|].
  destruct (rstrip_head d s') as [-> | [r' ->]]; [discriminate|].
  intros [= <- _]. eapply lstrip_head. exact L.
Qed.

Lemma startswith_app_weaken (p a q : string) :
  startswith p a = true -> startswith p (a ++ q) = true.
Proof.
  intros H. apply startswith_spec in H as [r ->]. apply startswith_spec.
  exists (r ++ q). now rewrite str_app_assoc.
Qed.

(** The first field of a stripped line of several fields. *)
Lemma first_field_of_stripped (l : string) :
  2 <= List.length (split TAB (strip l)) ->
  nth 0 (split TAB (strip l)) "" <> "" /\
  exists q, strip l = nth 0 (split TAB (strip l)) "" ++ q.
Proof.
  intros H. split.
  - destruct (strip l) as [|c r] eqn:S; [simpl in H; lia|].
    pose proof (strip_head _ _ _ S) as Hc.
    assert (E : Ascii.eqb c TAB = false).
    { destruct (Ascii.eqb c TAB) eqn:E; [|reflexivity].
      apply Ascii.eqb_eq in E. subst c. discriminate Hc. }
    destruct (split_cons_other TAB c r E) as [h [t [_ ->]]]. discriminate.
  - destruct (split TAB (strip l)) as [|h t] eqn:S;
      [now apply split_nonempty in S|].
    apply split_head_prefix in S. exact S.
Qed.

Lemma load_lines_inv (lines : list string) (line_num : nat) (tags : list tag) :
  load_lines lines line_num = Ok tags ->
  List.length tags <= List.length lines /\
  StronglySorted lt (map line_number tags) /\
  forall t, In t tags ->
    exists i l,
      nth_error lines i = Some l /\ line_number t = line_num + i /\
      startswith "!_TAG_" (strip l) = false /\
      _parse_tag_line (strip l) (line_num + i) = Ok (Some t).
Proof.
  revert line_num tags; induction lines as [|l rest IH]; intros n tags H.
  - injection H as <-. split; [simpl; lia|]. split; [constructor|].
    intros t [].
  - cbn [load_lines] in H.
    assert (Shift : forall ts, load_lines rest (S n) = Ok ts ->
      List.length ts <= List.length rest /\
      StronglySorted lt (map line_number ts) /\
      (forall t, In t ts -> S n <= line_number t) /\
      forall t, In t ts ->
        exists i l0,
          nth_error (l :: rest) i = Some l0 /\ line_number t = n + i /\
          startswith "!_TAG_" (strip l0) = false /\
          _parse_tag_line (strip l0) (n + i) = Ok (Some t)).
    { intros ts E. destruct (IH _ _ E) as [A [B C]].
      split; [exact A|]. split; [exact B|]. split.
      - intros t Ht. destruct (C t Ht) as [i [l0 [_ [D _]]]]. lia.
      - intros t Ht. destruct (C t Ht) as [i [l0 [D1 [D2 D3]]]].
        exists (S i), l0. rewrite <- Nat.add_succ_comm. auto. }
    destruct (startswith "!_TAG_" (strip l)) eqn:M.
    + destruct (Shift _ H) as [A [B [_ C]]]. simpl. split; [lia | auto].
    + destruct (_parse_tag_line (strip l) n) as [o|] eqn:P; [|discriminate].
      destruct (load_lines rest (S n)) as [ts|] eqn:E; [|discriminate].
      destruct (Shift ts eq_refl) as [A [B [Lo C]]].
      destruct o as [t0|]; injection H as <-.
      * split; [simpl; lia|]. split.
        -- simpl. constructor; [exact B|].
           apply parse_tag_line_some in P as [_ [_ [_ [_ [_ P]]]]].
           apply Forall_forall. intros x Hx. apply in_map_iff in Hx as [t [<- Ht]].
           apply Lo in Ht. lia.
        -- intros t [<- | Ht]; [|auto].
           exists 0, l. rewrite Nat.add_0_r.
           pose proof P as P'.
           apply parse_tag_line_some in P' as [_ [_ [_ [_ [_ P']]]]].
           auto.
      * split; [simpl; lia | auto].
Qed.

(** X3: in the sequence of records that [_load_tags] builds, the table line
    numbers are at least 1 and strictly increasing; there are no more
    records than lines; and every record has a non-negative line, a
    non-empty name that does not begin with the metadata prefix, and a
    name, file and locator without tab characters, and is the record of
    the stripped table line that its number names. *)
Theorem loaded_records_invariants (st : fs) (path : string) (tags : list tag) :
  _load_tags st path = Ok tags ->
  StronglySorted lt (map line_number tags)
  /\ (st path = None -> tags = [])
  /\ (forall f, st path = Some f ->
        List.length tags
        <= List.length (readlines (universal_newlines (content f))))
  /\ forall t, In t tags ->
       1 <= line_number t /\ (0 <= line t)%Z /\ name t <> "" /\
       lacks TAB (name t) = true /\ lacks TAB (filename t) = true /\
       lacks TAB (excmd t) = true /\
       startswith "!_TAG_" (name t) = false /\
       forall f, st path = Some f ->
         exists l,
           nth_error (readlines (universal_newlines (content f)))
                     (line_number t - 1) = Some l /\
           _parse_tag_line (strip l) (line_number t) = Ok (Some t).
Proof.
  unfold _load_tags, exists_, read_text. intros H.
  destruct (st path) as [f|] eqn:F.
  - simpl in H. destruct (readable f); [|discriminate].
    apply load_lines_inv in H as [A [B C]].
    split; [exact B|]. split; [discriminate|].
    split; [now intros f' [= <-]|].
    intros t Ht. destruct (C t Ht) as [i [l [N [L [M P]]]]].
    pose proof P as P'.
    apply parse_tag_line_some in P' as [P1 [P2 [P3 [P4 [P5 P6]]]]].
    destruct (first_field_of_stripped l) as [Q1 [q Q2]]; [lia|].
    split; [lia|]. split; [exact P5|]. split; [now rewrite P2|].
    split; [rewrite P2; apply nth_split_lacks|].
    split; [rewrite P3; apply nth_split_lacks|].
    split; [rewrite P4; apply nth_split_lacks|].
    split.
    + apply not_true_is_false. intros S. rewrite P2 in S.
      apply (startswith_app_weaken _ _ q) in S. rewrite <- Q2 in S. congruence.
    + intros f' [= <-]. exists l. rewrite L.
      replace (1 + i - 1) with i by lia. split; [exact N | exact P].
  - simpl in H. injection H as <-.
    split; [constructor|]. split; [reflexivity|].
    split; [discriminate|]. intros t [].
Qed.

Lemma loaded_records_invariants_witness :
  exists tags,
    _load_tags two_refs "tags" = Ok tags /\
    map line_number tags = [1; 2] /\
    forall t, In t tags -> name t <> "" /\ lacks TAB (name t) = true.
Proof.
  destruct (_load_tags two_refs "tags") as [tags|] eqn:E;
    [|vm_compute in E; discriminate E].
  exists tags. split; [reflexivity|].
  destruct (loaded_records_invariants _ _ _ E) as [_ [_ [_ H]]].
  split.
  - vm_compute in E. injection E as <-. reflexivity.
  - intros t Ht. destruct (H t Ht) as [_ [_ [A [B _]]]]. auto.
Defined.

(** X4: parsing is local to the lines: the records of a table are those of
    its first lines followed by those of the remaining lines, numbered on
    from where the first part ends; and loading fails exactly when one of
    the two parts fails, the first one first. *)
Theorem load_lines_append (a b : list string) (line_num : nat) :
  load_lines (a ++ b) line_num
  = match load_lines a line_num with
    | Raise e => Raise e
    | Ok ta =>
        match load_lines b (line_num + List.length a) with
        | Raise e => Raise e
        | Ok tb => Ok (ta ++ tb)%list
        end
    end.
Proof.
  revert line_num; induction a as [|l a IH]; intros n.
  - simpl. rewrite Nat.add_0_r. now destruct (load_lines b n).
  - cbn [load_lines app List.length]. rewrite IH, <- Nat.add_succ_comm.
    destruct (startswith "!_TAG_" (strip l)); [reflexivity|].
    destruct (_parse_tag_line (strip l) n) as [o|]; [|reflexivity].
    destruct (load_lines a (S n)) as [ta|]; [|reflexivity].
    destruct (load_lines b (S n + List.length a)) as [tb|]; [|reflexivity].
    now destruct o.
Qed.

End LoadedRecords.

(** * Further properties of the query engine *)

Section SortBy.
Import Py.

Variable A : Type.
Variable leb : A -> A -> bool.
Hypothesis leb_total : forall x y, leb x y = false -> leb y x = true.
Hypothesis leb_trans :
  forall x y z, leb x y = true -> leb y z = true -> leb x z = true.

Lemma insert_by_perm (x : A) (l : list A) :
  Permutation (x :: l) (insert_by leb x l).
Proof.
  induction l as [|y r IH]; simpl; [apply Permutation_refl|].
  destruct (leb x y); [apply Permutation_refl|].
  eapply perm_trans; [apply perm_swap | now apply perm_skip].
Qed.

Lemma sort_by_perm (l : list A) : Permutation l (sort_by leb l).
Proof.
  induction l as [|x r IH]; simpl; [constructor|].
  eapply perm_trans; [apply perm_skip, IH | apply insert_by_perm].
Qed.

Lemma insert_by_sorted (x : A) (l : list A) :
  StronglySorted (fun a b => leb a b = true) l ->
  StronglySorted (fun a b => leb a b = true) (insert_by leb x l).
Proof.
  induction 1 as [|y r Hr IH Hy]; simpl.
  - repeat constructor.
  - destruct (leb x y) eqn:E.
    + constructor; [now constructor|]. constructor; [assumption|].
      eapply Forall_impl; [|exact Hy]. intros z Hz.
      eapply leb_trans; eassumption.
    + constructor; [assumption|].
      apply (Permutation_Forall (insert_by_perm x r)).
      constructor; [now apply leb_total | assumption].
Qed.

Lemma sort_by_sorted (l : list A) :
  StronglySorted (fun a b => leb a b = true) (sort_by leb l).
Proof.
  induction l as [|x r IH]; simpl; [constructor|].
  now apply insert_by_sorted.
Qed.

End SortBy.

Section FindSymbols.
Import Py FS CtagsParser Notions QueryNotions PyFacts Examples.

Lemma find_symbols_as_filter (tags : list tag) (query : string)
    (kind_filter filename_filter : option string) :
  find_symbols tags query kind_filter filename_filter
  = sorted (filter (symbol_matches query kind_filter filename_filter) tags).
Proof.
  unfold find_symbols. f_equal. apply filter_ext. intros t.
  unfold symbol_matches.
  destruct (given kind_filter) as [k|];
    destruct (given filename_filter) as [f|]; simpl;
    try destruct (kind t =? k)%string; simpl;
    try destruct (contains f (filename t)); reflexivity.
Qed.

Lemma given_some (o : option string) (s : string) :
  given o = Some s <-> o = Some s /\ s <> "".
Proof.
  unfold given. destruct o as [x|]; [|split; [discriminate | now intros [H _]]].
  destruct (x =? "")%string eqn:E.
  - apply String.eqb_eq in E. subst x. split; [discriminate|].
    intros [[= <-] H]. congruence.
  - apply String.eqb_neq in E. split.
    + now intros [= <-].
    + now intros [[= <-] _].
Qed.

(** X5: [find_symbols] returns, each as often as it is in the table, the
    records that pass the three tests: the kind equals a non-empty kind
    filter, the file contains a non-empty file filter, and the name
    contains the query without regard to case; a missing filter and an
    empty one test nothing, and a kind filter that no record has gives the
    empty list. *)
Theorem find_symbols_filters (tags : list tag) (query : string)
    (kind_filter filename_filter : option string) :
  Permutation (filter (symbol_matches query kind_filter filename_filter) tags)
              (find_symbols tags query kind_filter filename_filter)
  /\ (forall t,
        In t (find_symbols tags query kind_filter filename_filter) <->
        In t tags /\
        (forall k, kind_filter = Some k -> k <> "" -> kind t = k) /\
        (forall f, filename_filter = Some f -> f <> "" ->
                   is_substring f (filename t)) /\
        is_substring (lower query) (lower (name t)))
  /\ (forall k, kind_filter = Some k -> k <> "" ->
        (forall t, In t tags -> kind t <> k) ->
        find_symbols tags query kind_filter filename_filter = []).
Proof.
  rewrite find_symbols_as_filter.
  assert (M : forall t,
    symbol_matches query kind_filter filename_filter t = true <->
    (forall k, kind_filter = Some k -> k <> "" -> kind t = k) /\
    (forall f, filename_filter = Some f -> f <> "" ->
               is_substring f (filename t)) /\
    is_substring (lower query) (lower (name t))).
  { intros t. unfold symbol_matches.
    rewrite !andb_true_iff, <- contains_spec, and_assoc.
    assert (K : match given kind_filter with
                | Some k => (kind t =? k)%string
                | None => true
                end = true <->
                forall k, kind_filter = Some k -> k <> "" -> kind t = k).
    { destruct (given kind_filter) as [k|] eqn:G.
      - apply given_some in G as [-> G]. rewrite String.eqb_eq. split.
        + now intros H k' [= <-] _.
        + intros H. now apply H.
      - split; [|reflexivity]. intros _ k E N.
        assert (given kind_filter = Some k) by now apply given_some.
        congruence. }
    assert (F : match given filename_filter with
                | Some f => contains f (filename t)
                | None => true
                end = true <->
                forall f, filename_filter = Some f -> f <> "" ->
                          is_substring f (filename t)).
    { destruct (given filename_filter) as [f|] eqn:G.
      - apply given_some in G as [-> G]. rewrite contains_spec. split.
        + now intros H f' [= <-] _.
        + intros H. now apply H.
      - split; [|reflexivity]. intros _ f E N.
        assert (given filename_filter = Some f) by now apply given_some.
        congruence. }
    rewrite K, F. reflexivity. }
  split; [apply sorted_perm|]. split.
  - intros t. rewrite in_sorted, filter_In, M. reflexivity.
  - intros k E N H.
    assert (Z : filter (symbol_matches query kind_filter filename_filter) tags
                = []).
    { destruct (filter _ tags) as [|x r] eqn:F; [reflexivity|].
      exfalso. assert (I : In x (x :: r)) by now left.
      rewrite <- F in I. apply filter_In in I as [I1 I2].
      apply M in I2 as [I2 _]. apply (H x I1). now apply I2. }
    now rewrite Z.
Qed.

Lemma find_symbols_filters_witness :
  map name (find_symbols tags_fallback "FOO" (Some "function") (Some "a.c"))
  = ["xFOO"] /\
  find_symbols tags_fallback "foo" (Some "macro") None = [].
Proof.
  destruct (find_symbols_filters tags_fallback "foo" (Some "macro") None)
    as [_ [_ H]].
  split; [reflexivity|].
  apply (H "macro"); [reflexivity | discriminate|].
  intros t [<- | [<- | [<- | []]]]; discriminate.
Defined.

(** X6: [search_symbols] reports as [total_results] the number of all the
    records of the table that pass the tests, and lists the first
    [min 50 total_results] of them in the order of [find_symbols]. *)
Theorem search_symbols_total_and_cap (tags : list tag) (query : string)
    (kind_filter filename_filter : option string) :
  fst (CtagsMCPTool.search_symbols tags query kind_filter filename_filter)
  = List.length
      (filter (symbol_matches query kind_filter filename_filter) tags)
  /\ List.length
       (snd (CtagsMCPTool.search_symbols tags query kind_filter filename_filter))
     = Nat.min 50
         (fst (CtagsMCPTool.search_symbols tags query kind_filter filename_filter))
  /\ exists rest,
       find_symbols tags query kind_filter filename_filter
       = (snd (CtagsMCPTool.search_symbols tags query kind_filter
                 filename_filter) ++ rest)%list.
Proof.
  unfold CtagsMCPTool.search_symbols. cbn [fst snd]. split; [|split].
  - rewrite find_symbols_as_filter. symmetry.
    apply Permutation_length, sorted_perm.
  - apply length_firstn.
  - exists (skipn 50 (find_symbols tags query kind_filter filename_filter)).
    symmetry. apply firstn_skipn.
Qed.

End FindSymbols.

Section CaseAndOrder.
Import Py FS CtagsParser CursorCtagsIntegration Notions QueryNotions PyFacts.
Import Examples.

Lemma lower_char_idem (c : ascii) : lower_char (lower_char c) = lower_char c.
Proof.
  destruct c as [[] [] [] [] [] [] [] []]; reflexivity.
Qed.

Lemma lower_idem (s : string) : lower (lower s) = lower s.
Proof.
  induction s as [|c s IH]; simpl; [reflexivity|].
  now rewrite lower_char_idem, IH.
Qed.

Lemma lower_app (a b : string) : lower (a ++ b) = lower a ++ lower b.
Proof. induction a as [|c a IH]; simpl; [reflexivity | now rewrite IH]. Qed.

Lemma lower_substring (a s : string) :
  is_substring a s -> is_substring (lower a) (lower s).
Proof.
  intros [p [q ->]]. exists (lower p), (lower q). now rewrite !lower_app.
Qed.

(** X7: the search by name disregards case: the query in lower case gives
    the same result as the query itself, every record whose name contains
    a query of ASCII characters as it is written is found, and so is every
    record whose name equals the query up to case. *)
Theorem find_symbols_ignores_case (tags : list tag) (query : string)
    (kind_filter filename_filter : option string) :
  find_symbols tags (lower query) kind_filter filename_filter
  = find_symbols tags query kind_filter filename_filter
  /\ (isascii query = true ->
      forall t, In t tags -> is_substring query (name t) ->
                In t (find_symbols tags query None None))
  /\ (forall t, In t tags -> lower (name t) = lower query ->
                In t (find_symbols tags query None None)).
Proof.
  split; [|split].
  - unfold find_symbols. now rewrite lower_idem.
  - intros _ t Ht H. apply in_find_symbols_unfiltered. split; [exact Ht|].
    now apply lower_substring.
  - intros t Ht H. apply in_find_symbols_unfiltered. split; [exact Ht|].
    rewrite H. exists "", "". simpl. now rewrite str_app_nil_r.
Qed.

Lemma find_symbols_ignores_case_witness :
  map name (find_symbols tags_fallback "Foo" None None) = ["xFOO"; "foobar"] /\
  In (mkTag "xFOO" "a.c" "2" "function" 3 "" "" "" "" 2)
     (find_symbols tags_fallback "FOO" None None).
Proof.
  destruct (find_symbols_ignores_case tags_fallback "FOO" None None)
    as [_ [H _]].
  split; [reflexivity|]. apply (H eq_refl).
  - right. left. reflexivity.
  - exists "x", "". reflexivity.
Defined.

Lemma same_key_spec (x y : tag) :
  same_key x y = true <-> filename x = filename y /\ line x = line y.
Proof.
  unfold same_key. now rewrite andb_true_iff, String.eqb_eq, Z.eqb_eq.
Qed.

Lemma insert_sorted_same_key (x a : tag) (l : list tag) :
  filter (same_key x) (insert_sorted a l) = filter (same_key x) (a :: l).
Proof.
  induction l as [|y r IH]; [reflexivity|].
  cbn [insert_sorted]. destruct (key_leb a y) eqn:E; [reflexivity|].
  cbn [filter] in *. rewrite IH.
  destruct (same_key x a) eqn:Sa; destruct (same_key x y) eqn:Sy;
    try reflexivity.
  exfalso. apply same_key_spec in Sa as [A1 A2], Sy as [B1 B2].
  unfold key_leb in E. rewrite <- A1, B1, compare_refl in E.
  apply Z.leb_gt in E. lia.
Qed.

(** X8: the sort of [find_symbols] is stable: the records that share a
    file and a line come in the result in the order they have in the tag
    table. *)
Theorem find_symbols_stable (tags : list tag) (query : string)
    (kind_filter filename_filter : option string) (x : tag) :
  filter (same_key x) (find_symbols tags query kind_filter filename_filter)
  = filter (same_key x)
      (filter (symbol_matches query kind_filter filename_filter) tags).
Proof.
  rewrite find_symbols_as_filter.
  induction (filter (symbol_matches query kind_filter filename_filter) tags)
    as [|a l IH]; [reflexivity|].
  cbn [sorted]. rewrite insert_sorted_same_key. cbn [filter]. now rewrite IH.
Qed.

Lemma contains_nil (s : string) : contains "" s = true.
Proof. destruct s; reflexivity. Qed.

Lemma filter_all {A : Type} (p : A -> bool) (l : list A) :
  (forall x, In x l -> p x = true) -> filter p l = l.
Proof.
  induction l as [|a l IH]; simpl; intros H; [reflexivity|].
  rewrite (H a (or_introl eq_refl)), IH; [reflexivity|].
  intros x Hx. apply H. now right.
Qed.

(** X9: the empty symbol, which the command line passes when the argument
    is missing, matches every record: [find_references] returns the whole
    table (its first 50 records through the adapter), [find_symbols]
    returns the whole table sorted, and so does [find_definition] when no
    record has an empty name. *)
Theorem empty_symbol_matches_all (tags : list tag) :
  CtagsParser.find_references tags "" = tags
  /\ CtagsMCPTool.find_references tags "" = firstn 50 tags
  /\ find_symbols tags "" None None = sorted tags
  /\ ((forall t, In t tags -> name t <> "") ->
      CtagsParser.find_definition tags "" = sorted tags).
Proof.
  assert (R : CtagsParser.find_references tags "" = tags).
  { apply filter_all. intros t _. now rewrite contains_nil. }
  assert (S : find_symbols tags "" None None = sorted tags).
  { rewrite find_symbols_unfiltered. f_equal. apply filter_all.
    intros t _. apply contains_nil. }
  split; [exact R|]. split; [|split; [exact S|]].
  - unfold CtagsMCPTool.find_references. now rewrite R.
  - intros H. now rewrite find_definition_fallback.
Qed.

Lemma empty_symbol_matches_all_witness :
  CtagsParser.find_definition tags_b_then_a ""
  = [ mkTag "foo" "a.c" "2" "function" 2 "" "" "" "" 2;
      mkTag "foo" "b.c" "1" "function" 1 "" "" "" "" 1 ].
Proof.
  destruct (empty_symbol_matches_all tags_b_then_a) as [_ [_ [_ H]]].
  rewrite H; [reflexivity|].
  intros t [<- | [<- | []]]; discriminate.
Defined.

Lemma filter_head_split {A : Type} (p : A -> bool) (l : list A) (x : A)
    (r : list A) :
  filter p l = x :: r ->
  exists pre post,
    l = (pre ++ x :: post)%list /\ p x = true /\
    forall y, In y pre -> p y = false.
Proof.
  induction l as [|a l IH]; simpl; [discriminate|].
  destruct (p a) eqn:E.
  - intros [= <- _]. exists [], l. split; [reflexivity|].
    split; [exact E | intros y []].
  - intros H. destruct (IH H) as [pre [post [-> [Hx Hp]]]].
    exists (a :: pre), post. split; [reflexivity|]. split; [exact Hx|].
    intros y [<- | Hy]; auto.
Qed.

Lemma firstn_nil_iff {A : Type} (n : nat) (l : list A) :
  0 < n -> (firstn n l = [] <-> l = []).
Proof.
  intros H. destruct n as [|n]; [lia|]. destruct l; simpl; split;
    try reflexivity; discriminate.
Qed.

Lemma goto_not_found_iff (tags : list tag) (symbol : string) :
  (exists m, goto_definition tags symbol = NotFound m) <->
  forall t, In t tags -> ~ is_substring (lower symbol) (lower (name t)).
Proof.
  assert (E : (exists m, goto_definition tags symbol = NotFound m) <->
              CtagsParser.find_definition tags symbol = []).
  { unfold goto_definition, CtagsMCPTool.find_definition.
    rewrite <- (firstn_nil_iff 10) by lia.
    destruct (firstn 10 (CtagsParser.find_definition tags symbol)); split;
      try discriminate; eauto.
    intros [m H]. discriminate H. }
  rewrite E. split.
  - intros H t Ht S.
    destruct (exact_match_dec tags symbol) as [D | D].
    + rewrite (find_definition_exact _ _ D) in H.
      destruct D as [u [Hu Eu]].
      assert (I : In u []); [|destruct I].
      rewrite <- H. apply filter_In. split; [exact Hu|].
      now apply String.eqb_eq.
    + rewrite (find_definition_fallback _ _ D) in H.
      assert (I : In t []); [|destruct I].
      rewrite <- H. apply in_find_symbols_unfiltered. auto.
  - intros H.
    assert (D : forall t, In t tags -> name t <> symbol).
    { intros t Ht N. apply (H t Ht). rewrite N.
      exists "", "". simpl. now rewrite str_app_nil_r. }
    rewrite (find_definition_fallback _ _ D).
    destruct (find_symbols tags symbol None None) as [|x r] eqn:F;
      [reflexivity|].
    exfalso. assert (I : In x (x :: r)) by now left.
    rewrite <- F in I. apply in_find_symbols_unfiltered in I as [I1 I2].
    now apply (H x).
Qed.

(** X10: [goto_definition] reports that nothing was found exactly when no
    record's name contains the symbol without regard to case; and when a
    record is named exactly like the symbol, it reports the file, line,
    kind and signature of the first such record of the tag table. *)
Theorem goto_definition_found (tags : list tag) (symbol : string) :
  ((exists m, goto_definition tags symbol = NotFound m) <->
   forall t, In t tags -> ~ is_substring (lower symbol) (lower (name t)))
  /\ ((exists t, In t tags /\ name t = symbol) ->
      exists pre t post,
        tags = (pre ++ t :: post)%list /\ name t = symbol /\
        (forall u, In u pre -> name u <> symbol) /\
        goto_definition tags symbol
        = Found (filename t) (line t) 1 symbol (kind t) (signature t)).
Proof.
  split; [apply goto_not_found_iff|].
  intros D. unfold goto_definition, CtagsMCPTool.find_definition.
  rewrite (find_definition_exact _ _ D).
  destruct (filter (fun t => (name t =? symbol)%string) tags) as [|x r] eqn:F.
  - exfalso. destruct D as [u [Hu Eu]].
    assert (I : In u []); [|destruct I].
    rewrite <- F. apply filter_In. split; [exact Hu|].
    now apply String.eqb_eq.
  - apply filter_head_split in F as [pre [post [-> [Hx Hp]]]].
    apply String.eqb_eq in Hx. exists pre, x, post.
    split; [reflexivity|]. split; [exact Hx|]. split; [|reflexivity].
    intros u Hu. apply String.eqb_neq. now apply Hp.
Qed.

Lemma goto_definition_found_witness :
  goto_definition tags_b_then_a "foo" = Found "b.c" 1 1 "foo" "function" "" /\
  goto_definition tags_fallback "zzz"
  = NotFound "No definition found for symbol: zzz".
Proof.
  destruct (goto_definition_found tags_b_then_a "foo") as [_ H].
  destruct H as [pre [t [post [E [N [P G]]]]]].
  - eexists. split; [left; reflexivity | reflexivity].
  - split; [|reflexivity]. rewrite G.
    destruct pre as [|u pre].
    + injection E as <- _. reflexivity.
    + exfalso. injection E as <- _. apply (P _ (or_introl eq_refl)).
      reflexivity.
Defined.

End CaseAndOrder.

Section KindsAndGroups.
Import Py FS CtagsParser CtagsMCPTool CursorCtagsIntegration.
Import Notions QueryNotions PyFacts Examples.

Lemma string_leb_total (x y : string) :
  String.leb x y = false -> String.leb y x = true.
Proof.
  intros H. destruct (String.leb_total x y) as [E | E]; congruence.
Qed.

Lemma string_leb_trans (x y z : string) :
  String.leb x y = true -> String.leb y z = true -> String.leb x z = true.
Proof.
  unfold String.leb.
  destruct (String.compare x y) eqn:A; try discriminate;
    destruct (String.compare y z) eqn:B; try discriminate; intros _ _.
  - apply compare_eq in A, B. subst. now rewrite compare_refl.
  - apply compare_eq in A. subst. now rewrite B.
  - apply compare_eq in B. subst. now rewrite A.
  - now rewrite (compare_lt_trans _ _ _ A B).
Qed.

Lemma sorted_distinct_strict (l : list string) :
  StronglySorted (fun a b => String.leb a b = true) l -> NoDup l ->
  StronglySorted string_lt l.
Proof.
  induction 1 as [|a l Hl IH Ha]; intros N; [constructor|].
  apply NoDup_cons_iff in N as [N1 N2]. constructor; [now apply IH|].
  rewrite Forall_forall in *. intros b Hb. specialize (Ha b Hb).
  unfold string_lt, String.leb in *.
  destruct (String.compare a b) eqn:C; try reflexivity; try discriminate.
  apply compare_eq in C. subst. contradiction.
Qed.

Lemma in_length_pos {A : Type} (x : A) (l : list A) :
  In x l -> 0 < List.length l.
Proof. destruct l; [intros [] | simpl; lia]. Qed.

Lemma length_pos_in {A : Type} (l : list A) :
  0 < List.length l -> exists x, In x l.
Proof. destruct l as [|x r]; [simpl; lia | exists x; now left]. Qed.

Lemma count_add_sum (d : list (string * nat)) (k : string) :
  list_sum (map snd (count_add d k)) = S (list_sum (map snd d)).
Proof.
  induction d as [|[k' n] r IH]; simpl; [reflexivity|].
  destruct (k' =? k)%string; simpl; [lia | rewrite IH; lia].
Qed.

Lemma count_add_keys (d : list (string * nat)) (k k' : string) :
  In k' (map fst (count_add d k)) <-> k' = k \/ In k' (map fst d).
Proof.
  induction d as [|[k0 n] r IH]; simpl; [intuition congruence|].
  destruct (k0 =? k)%string eqn:E; simpl.
  - apply String.eqb_eq in E. subst. intuition congruence.
  - rewrite IH. tauto.
Qed.

Lemma count_add_nodup (d : list (string * nat)) (k : string) :
  NoDup (map fst d) -> NoDup (map fst (count_add d k)).
Proof.
  induction d as [|[k0 n] r IH]; simpl; intros N.
  - constructor; [intros [] | constructor].
  - apply NoDup_cons_iff in N as [N1 N2].
    destruct (k0 =? k)%string eqn:E; simpl.
    + now constructor.
    + constructor; [|now apply IH].
      rewrite count_add_keys. intros [-> | H]; [|contradiction].
      now rewrite String.eqb_refl in E.
Qed.

Lemma count_add_of (d : list (string * nat)) (k k' : string) :
  count_of (count_add d k) k'
  = count_of d k' + (if (k =? k')%string then 1 else 0).
Proof.
  induction d as [|[k0 n] r IH]; simpl.
  - destruct (k =? k')%string; reflexivity.
  - destruct (k0 =? k)%string eqn:E; simpl.
    + apply String.eqb_eq in E. subst k0.
      destruct (k =? k')%string; lia.
    + destruct (k0 =? k')%string eqn:E'; [|exact IH].
      apply String.eqb_eq in E'. subst k0. rewrite String.eqb_sym, E. lia.
Qed.

Lemma kind_counts_fold (l : list tag) (d : list (string * nat)) :
  NoDup (map fst d) ->
  let d' := fold_left (fun counts t => count_add counts (kind_or_unknown t)) l d in
  NoDup (map fst d') /\
  list_sum (map snd d') = list_sum (map snd d) + List.length l /\
  (forall k, count_of d' k = count_of d k + bucket_size l k) /\
  (forall k, In k (map fst d') <->
             In k (map fst d) \/ exists t, In t l /\ kind_or_unknown t = k).
Proof.
  revert d; induction l as [|t l IH]; intros d N; simpl.
  - split; [exact N|]. split; [lia|]. split.
    + intros k. unfold bucket_size. simpl. lia.
    + intros k. split; [tauto|]. intros [H | [t [[] _]]]. exact H.
  - destruct (IH (count_add d (kind_or_unknown t)) (count_add_nodup _ _ N))
      as [A [B [C D]]].
    split; [exact A|]. split; [rewrite B, count_add_sum; lia|]. split.
    + intros k. rewrite C, count_add_of. unfold bucket_size. simpl.
      destruct (kind_or_unknown t =? k)%string; simpl; lia.
    + intros k. rewrite D, count_add_keys. split.
      * intros [[-> | H] | [u [Hu Eu]]]; eauto.
      * intros [H | [u [[<- | Hu] Eu]]]; eauto.
Qed.

(** X11: [get_available_kinds] lists the distinct non-empty kinds of the
    table in strictly ascending order; its counts have one entry for every
    bucket that is not empty, the records without a kind being counted
    under "unknown" together with those of that very kind; each count is
    the size of its bucket, and the counts add up to [total_tags], the
    number of records. *)
Theorem available_kinds_and_counts (tags : list tag) :
  StronglySorted string_lt (available_kinds (get_available_kinds tags))
  /\ (forall k, In k (available_kinds (get_available_kinds tags)) <->
                k <> "" /\ exists t, In t tags /\ kind t = k)
  /\ NoDup (map fst (kind_counts (get_available_kinds tags)))
  /\ (forall k, In k (map fst (kind_counts (get_available_kinds tags))) <->
                0 < bucket_size tags k)
  /\ (forall k, count_of (kind_counts (get_available_kinds tags)) k
                = bucket_size tags k)
  /\ list_sum (map snd (kind_counts (get_available_kinds tags)))
     = total_tags (get_available_kinds tags)
  /\ total_tags (get_available_kinds tags) = List.length tags.
Proof.
  cbn [available_kinds kind_counts total_tags get_available_kinds].
  unfold get_kinds.
  set (ks := nodup string_dec
               (map kind (filter (fun t => negb (kind t =? "")%string) tags))).
  assert (I : forall k, In k ks <-> k <> "" /\ exists t, In t tags /\ kind t = k).
  { intros k. unfold ks. rewrite nodup_In, in_map_iff. split.
    - intros [t [<- H]]. apply filter_In in H as [H1 H2].
      apply negb_true_iff, String.eqb_neq in H2. eauto.
    - intros [N [t [H <-]]]. exists t. split; [reflexivity|].
      apply filter_In. split; [exact H|].
      now apply negb_true_iff, String.eqb_neq. }
  destruct (kind_counts_fold tags [] (NoDup_nil _)) as [A [B [C D]]].
  split; [|split; [|split; [exact A|split; [|split; [|split]]]]].
  - apply sorted_distinct_strict.
    + apply sort_by_sorted; [apply string_leb_total | apply string_leb_trans].
    + eapply Permutation_NoDup; [apply sort_by_perm | apply NoDup_nodup].
  - intros k. rewrite <- I. split; apply Permutation_in;
      [apply Permutation_sym|]; apply sort_by_perm.
  - intros k. rewrite D. unfold bucket_size. split.
    + intros [[] | [t [Ht E]]]. apply (in_length_pos t).
      apply filter_In. split; [exact Ht | now apply String.eqb_eq].
    + intros H. right. apply length_pos_in in H as [t T].
      apply filter_In in T as [H1 H2]. apply String.eqb_eq in H2. eauto.
  - intros k. rewrite C. reflexivity.
  - rewrite B. reflexivity.
  - reflexivity.
Qed.

Lemma group_add_of (d : list (string * list tag)) (k k' : string) (t : tag) :
  group_of (group_add d k t) k'
  = (group_of d k' ++ (if (k =? k')%string then [t] else []))%list.
Proof.
  induction d as [|[k0 g] r IH]; simpl.
  - destruct (k =? k')%string; reflexivity.
  - destruct (k0 =? k)%string eqn:E; simpl.
    + apply String.eqb_eq in E. subst k0.
      destruct (k =? k')%string; [reflexivity | now rewrite app_nil_r].
    + destruct (k0 =? k')%string eqn:E'; [|exact IH].
      apply String.eqb_eq in E'. subst k0. rewrite String.eqb_sym, E.
      now rewrite app_nil_r.
Qed.

Lemma group_add_keys (d : list (string * list tag)) (k k' : string) (t : tag) :
  In k' (map fst (group_add d k t)) <-> k' = k \/ In k' (map fst d).
Proof.
  induction d as [|[k0 g] r IH]; simpl; [intuition congruence|].
  destruct (k0 =? k)%string eqn:E; simpl.
  - apply String.eqb_eq in E. subst. intuition congruence.
  - rewrite IH. tauto.
Qed.

Lemma group_add_nodup (d : list (string * list tag)) (k : string) (t : tag) :
  NoDup (map fst d) -> NoDup (map fst (group_add d k t)).
Proof.
  induction d as [|[k0 g] r IH]; simpl; intros N.
  - constructor; [intros [] | constructor].
  - apply NoDup_cons_iff in N as [N1 N2].
    destruct (k0 =? k)%string eqn:E; simpl.
    + now constructor.
    + constructor; [|now apply IH].
      rewrite group_add_keys. intros [-> | H]; [|contradiction].
      now rewrite String.eqb_refl in E.
Qed.

Lemma group_add_sizes (d : list (string * list tag)) (k : string) (t : tag) :
  list_sum (map (fun g => List.length (snd g)) (group_add d k t))
  = S (list_sum (map (fun g => List.length (snd g)) d)).
Proof.
  induction d as [|[k0 g] r IH]; simpl; [reflexivity|].
  destruct (k0 =? k)%string; simpl.
  - rewrite length_app. simpl. lia.
  - rewrite IH. lia.
Qed.

Lemma by_kind_fold (l : list tag) (d : list (string * list tag)) :
  NoDup (map fst d) ->
  let d' := fold_left (fun by_kind symbol =>
                         group_add by_kind (kind_or_unknown symbol) symbol) l d in
  NoDup (map fst d') /\
  list_sum (map (fun g => List.length (snd g)) d')
  = list_sum (map (fun g => List.length (snd g)) d) + List.length l /\
  (forall k, group_of d' k
             = (group_of d k
                ++ filter (fun t => (kind_or_unknown t =? k)%string) l)%list) /\
  (forall k, In k (map fst d') <->
             In k (map fst d) \/ exists t, In t l /\ kind_or_unknown t = k).
Proof.
  revert d; induction l as [|t l IH]; intros d N; simpl.
  - split; [exact N|]. split; [lia|]. split.
    + intros k. now rewrite app_nil_r.
    + intros k. split; [tauto|]. intros [H | [t [[] _]]]. exact H.
  - destruct (IH (group_add d (kind_or_unknown t) t) (group_add_nodup _ _ _ N))
      as [A [B [C D]]].
    split; [exact A|]. split; [rewrite B, group_add_sizes; lia|]. split.
    + intros k. rewrite C, group_add_of.
      destruct (kind_or_unknown t =? k)%string; simpl;
        rewrite <- app_assoc; reflexivity.
    + intros k. rewrite D, group_add_keys. split.
      * intros [[-> | H] | [u [Hu Eu]]]; eauto.
      * intros [H | [u [[<- | Hu] Eu]]]; eauto.
Qed.

Lemma group_of_in (d : list (string * list tag)) (k : string) (g : list tag) :
  NoDup (map fst d) -> In (k, g) d -> group_of d k = g.
Proof.
  induction d as [|[k0 g0] r IH]; simpl; intros N H; [destruct H|].
  apply NoDup_cons_iff in N as [N1 N2]. destruct H as [[= -> ->] | H].
  - now rewrite String.eqb_refl.
  - destruct (k0 =? k)%string eqn:E; [|now apply IH].
    apply String.eqb_eq in E. subst k0. exfalso. apply N1.
    apply in_map_iff. now exists (k, g).
Qed.

(** X12: [get_file_symbols] puts every record whose file contains the
    given name into exactly one group, the group of its kind ("unknown"
    for a record without kind): the keys are distinct, each group is not
    empty and holds, in the order of the tag table, the records of its
    bucket, and [total_symbols] is the number of those records and the sum
    of the sizes of the groups. *)
Theorem file_symbols_grouped (tags : list tag) (filename_query : string) :
  fst (get_file_symbols tags filename_query)
  = List.length (get_symbols_in_file tags filename_query)
  /\ fst (get_file_symbols tags filename_query)
     = list_sum (map (fun g => List.length (snd g))
                     (snd (get_file_symbols tags filename_query)))
  /\ NoDup (map fst (snd (get_file_symbols tags filename_query)))
  /\ (forall k g, In (k, g) (snd (get_file_symbols tags filename_query)) ->
        g <> [] /\
        g = filter (fun t => (kind_or_unknown t =? k)%string)
                   (get_symbols_in_file tags filename_query))
  /\ (forall t, In t (get_symbols_in_file tags filename_query) ->
        exists g, In (kind_or_unknown t, g)
                     (snd (get_file_symbols tags filename_query)) /\ In t g).
Proof.
  cbn [fst snd get_file_symbols].
  set (symbols := get_symbols_in_file tags filename_query).
  destruct (by_kind_fold symbols [] (NoDup_nil _)) as [A [B [C D]]].
  cbv zeta in A, B, C, D.
  set (groups := fold_left
                   (fun by_kind symbol =>
                      group_add by_kind (kind_or_unknown symbol) symbol)
                   symbols []) in *.
  split; [reflexivity|]. split; [now rewrite B|]. split; [exact A|].
  assert (G : forall k g, In (k, g) groups ->
            g = filter (fun t => (kind_or_unknown t =? k)%string) symbols).
  { intros k g H. rewrite <- (group_of_in _ _ _ A H). apply C. }
  split.
  - intros k g H. split; [|now apply G].
    assert (K : In k (map fst groups)).
    { apply in_map_iff. now exists (k, g). }
    apply D in K as [[] | [t [Ht E]]].
    rewrite (G k g H). intros Z.
    assert (I : In t []); [|destruct I]. rewrite <- Z.
    apply filter_In. split; [exact Ht | now apply String.eqb_eq].
  - intros t Ht.
    assert (K : In (kind_or_unknown t) (map fst groups)).
    { apply D. right. now exists t. }
    apply in_map_iff in K as [[k g] [E H]]. simpl in E. subst k.
    exists g. split; [exact H|]. rewrite (G _ _ H).
    apply filter_In. split; [exact Ht | apply String.eqb_refl].
Qed.

End KindsAndGroups.

Section CursorLists.
Import Py FS CtagsParser CtagsMCPTool CursorCtagsIntegration.
Import Notions QueryNotions PyFacts Examples.

Lemma group_add_flat (d : list (string * list tag)) (k : string) (t : tag) :
  Permutation
    (flat_map (fun group => map to_file_symbol (snd group)) (group_add d k t))
    (to_file_symbol t
       :: flat_map (fun group => map to_file_symbol (snd group)) d).
Proof.
  induction d as [|[k0 g] r IH]; simpl; [apply Permutation_refl|].
  destruct (k0 =? k)%string; simpl.
  - rewrite map_app. simpl. rewrite <- app_assoc. simpl.
    apply Permutation_sym, Permutation_middle.
  - eapply perm_trans; [apply Permutation_app_head, IH|].
    apply Permutation_sym, Permutation_middle.
Qed.

Lemma by_kind_flat (l : list tag) (d : list (string * list tag)) :
  Permutation
    (flat_map (fun group => map to_file_symbol (snd group))
       (fold_left (fun by_kind symbol =>
                     group_add by_kind (kind_or_unknown symbol) symbol) l d))
    (flat_map (fun group => map to_file_symbol (snd group)) d
       ++ map to_file_symbol l).
Proof.
  revert d; induction l as [|t l IH]; intros d; simpl.
  - rewrite app_nil_r. apply Permutation_refl.
  - eapply perm_trans; [apply IH|].
    eapply perm_trans; [apply Permutation_app_tail, group_add_flat|].
    simpl. apply Permutation_middle.
Qed.

Lemma strongly_sorted_impl {A : Type} (R S : A -> A -> Prop) (l : list A) :
  (forall a b, R a b -> S a b) -> StronglySorted R l -> StronglySorted S l.
Proof.
  intros H. induction 1 as [|a l Hl IH Ha]; constructor; [exact IH|].
  eapply Forall_impl; [|exact Ha]. intros b. apply H.
Qed.

Lemma line_leb_total (a b : file_symbol) :
  (fsym_line a <=? fsym_line b)%Z = false ->
  (fsym_line b <=? fsym_line a)%Z = true.
Proof. rewrite Z.leb_gt, Z.leb_le. lia. Qed.

Lemma line_leb_trans (a b c : file_symbol) :
  (fsym_line a <=? fsym_line b)%Z = true ->
  (fsym_line b <=? fsym_line c)%Z = true ->
  (fsym_line a <=? fsym_line c)%Z = true.
Proof. rewrite !Z.leb_le. lia. Qed.

(** X13: [get_symbols_in_current_file] lists, by ascending line, the
    records whose file contains the given name, each as often as it is in
    the table, and [total] is their number. *)
Theorem symbols_in_current_file_sorted (tags : list tag)
    (filename_query : string) :
  Permutation
    (map to_file_symbol (get_symbols_in_file tags filename_query))
    (fst (get_symbols_in_current_file tags filename_query))
  /\ StronglySorted (fun a b => (fsym_line a <= fsym_line b)%Z)
       (fst (get_symbols_in_current_file tags filename_query))
  /\ snd (get_symbols_in_current_file tags filename_query)
     = List.length (get_symbols_in_file tags filename_query).
Proof.
  unfold get_symbols_in_current_file, get_file_symbols. cbn [fst snd].
  set (symbols := get_symbols_in_file tags filename_query).
  pose proof (by_kind_flat symbols []) as P. simpl in P.
  split; [|split].
  - eapply perm_trans; [apply Permutation_sym, P | apply sort_by_perm].
  - eapply strongly_sorted_impl;
      [|apply sort_by_sorted; [apply line_leb_total | apply line_leb_trans]].
    intros a b H. now apply Z.leb_le.
  - rewrite (Permutation_length P). apply length_map.
Qed.

Lemma slice_to_length {A : Type} (l : list A) (stop : Z) :
  List.length (slice_to l stop)
  = if (stop <? 0)%Z then List.length l - Z.to_nat (- stop)
    else Nat.min (Z.to_nat stop) (List.length l).
Proof.
  unfold slice_to. destruct (stop <? 0)%Z; rewrite length_firstn; lia.
Qed.

Lemma slice_to_prefix {A : Type} (l : list A) (stop : Z) :
  slice_to l stop = firstn (List.length (slice_to l stop)) l.
Proof.
  rewrite slice_to_length. unfold slice_to.
  destruct (stop <? 0)%Z; [reflexivity|].
  destruct (Compare_dec.le_lt_dec (Z.to_nat stop) (List.length l)).
  - now rewrite Nat.min_l.
  - rewrite Nat.min_r by lia. rewrite firstn_all. apply firstn_all2. lia.
Qed.

(** X14: [search_symbols_fuzzy] reports as [total] the number of all the
    records whose name contains the query without regard to case, and
    lists a beginning of the sorted matches: with a limit that is not
    negative the first [min limit (min 50 total)] of them, and with a
    negative limit the first 50 (or all) but the last [- limit]. *)
Theorem search_symbols_fuzzy_limits (tags : list tag) (query : string)
    (limit : Z) :
  let r := search_symbols_fuzzy tags query limit in
  let found := find_symbols tags query None None in
  snd r = List.length found
  /\ fst r = map to_fuzzy_symbol (firstn (List.length (fst r)) found)
  /\ List.length (fst r) <= 50
  /\ ((0 <= limit)%Z ->
      List.length (fst r)
      = Nat.min (Z.to_nat limit) (Nat.min 50 (List.length found)))
  /\ ((limit < 0)%Z ->
      List.length (fst r)
      = Nat.min 50 (List.length found) - Z.to_nat (- limit)).
Proof.
  intros r found. unfold r, search_symbols_fuzzy, search_symbols.
  cbn [fst snd]. fold found.
  assert (L : List.length (slice_to (firstn 50 found) limit)
              = if (limit <? 0)%Z
                then Nat.min 50 (List.length found) - Z.to_nat (- limit)
                else Nat.min (Z.to_nat limit) (Nat.min 50 (List.length found))).
  { rewrite slice_to_length, length_firstn. reflexivity. }
  split; [reflexivity|]. rewrite length_map. split; [|split; [|split]].
  - f_equal. rewrite slice_to_prefix at 1. rewrite firstn_firstn.
    f_equal. rewrite L. destruct (limit <? 0)%Z; lia.
  - rewrite L. destruct (limit <? 0)%Z; lia.
  - intros H. rewrite L. apply Z.ltb_ge in H. now rewrite H.
  - intros H. rewrite L. apply Z.ltb_lt in H. now rewrite H.
Qed.

Lemma search_symbols_fuzzy_limits_witness :
  map fz_name (fst (search_symbols_fuzzy tags_fallback "foo" 1)) = ["xFOO"] /\
  map fz_name (fst (search_symbols_fuzzy tags_fallback "foo" (-1))) = ["xFOO"] /\
  List.length (fst (search_symbols_fuzzy tags_fallback "foo" 20)) = 2.
Proof.
  destruct (search_symbols_fuzzy_limits tags_fallback "foo" 20)
    as [_ [_ [_ [H _]]]].
  split; [reflexivity|]. split; [reflexivity|].
  rewrite H by lia. reflexivity.
Defined.

End CursorLists.

Section InfoCommands.
Import Py FS CtagsParser CtagsMCPTool CursorCtagsIntegration.
Import Notions QueryNotions PyFacts AdvancedRefactorTool Examples.

(** X15: for a symbol that holds a NUL character [get_symbol_info] returns
    the error record, with the message of the exception.  Whenever it
    returns the information, it names the symbol and counts the references
    it returns, at most 50; when the tag table cannot be loaded it has no
    definition and no reference; and when the table is loaded, it has no
    definition exactly when no record's name contains the symbol without
    regard to case, in which case, for a symbol of ASCII characters, its
    references are the first 50 records whose type reference contains the
    symbol. *)
Theorem symbol_info_consistent (ws : workspace) (st : fs) (symbol : string) :
  (is_substring (String NUL "") symbol ->
   get_symbol_info ws st symbol = InfoError symbol "embedded null byte")
  /\ forall i, get_symbol_info ws st symbol = Info i ->
       info_symbol i = symbol
       /\ total_references i = List.length (info_references i)
       /\ List.length (info_references i) <= 50
       /\ (forall e, CtagsMCPTool.new ws st = Raise e ->
             info_definition i = None /\ info_references i = [])
       /\ (forall tags, CtagsMCPTool.new ws st = Ok tags ->
             (info_definition i = None <->
              forall t, In t tags ->
                        ~ is_substring (lower symbol) (lower (name t))) /\
             (isascii symbol = true -> info_definition i = None ->
              info_references i
              = map to_reference
                  (firstn 50
                     (filter (fun t => contains symbol (typeref t)) tags)))).
Proof.
  unfold get_symbol_info, find_all_references, spawns.
  split.
  - intros H. apply contains_spec in H. now rewrite H.
  - intros i. destruct (contains (String NUL "") symbol); [discriminate|].
    cbn [negb]. intros E. injection E as <-.
    unfold main_find_references, main_goto_definition.
    cbn [total_references info_references info_definition info_symbol].
    split; [reflexivity|]. split; [reflexivity|]. split; [|split].
    + destruct (CtagsMCPTool.new ws st) as [tags|]; [|simpl; lia].
      unfold CursorCtagsIntegration.find_all_references,
        CtagsMCPTool.find_references.
      rewrite length_map. apply firstn_le_length.
    + intros e ->. split; reflexivity.
    + intros tags ->.
      assert (N : match goto_definition tags symbol with
                  | Found f l c s k g => Some (Found f l c s k g)
                  | NotFound _ => None
                  end = None <->
                  forall t, In t tags ->
                            ~ is_substring (lower symbol) (lower (name t))).
      { rewrite <- goto_not_found_iff.
        destruct (goto_definition tags symbol); split;
          try discriminate; eauto.
        intros [m H]. discriminate H. }
      split; [exact N|]. intros _ H0. pose proof (proj1 N H0) as H.
      unfold CursorCtagsIntegration.find_all_references,
        CtagsMCPTool.find_references, CtagsParser.find_references.
      do 2 f_equal. apply filter_ext_in. intros t Ht.
      destruct (contains symbol (name t)) eqn:C; [|reflexivity].
      exfalso. apply (H t Ht). apply lower_substring.
      now apply contains_spec.
Qed.

Lemma symbol_info_consistent_witness :
  get_symbol_info here two_refs ("fo" ++ String NUL "o")
  = InfoError ("fo" ++ String NUL "o") "embedded null byte" /\
  (exists i, get_symbol_info here unreadable_tags "foo" = Info i /\
             info_definition i = None /\ info_references i = []) /\
  (exists i, get_symbol_info here two_refs "foo" = Info i /\
             total_references i = 2).
Proof.
  destruct (symbol_info_consistent here two_refs ("fo" ++ String NUL "o"))
    as [N _].
  destruct (symbol_info_consistent here unreadable_tags "foo") as [_ H].
  split.
  - apply N. exists "fo", "o". reflexivity.
  - split.
    + eexists. split; [reflexivity|].
      destruct (H _ eq_refl) as (_ & _ & _ & G & _).
      exact (G OSError eq_refl).
    + eexists. split; reflexivity.
Defined.

(** X16: [get_workspace_info] reports the number of the records as
    [total_symbols], which is the sum of the counts of its kind
    distribution; for the records loaded from a workspace whose tag file
    does not exist it reports no file, no symbol and no kind. *)
Theorem workspace_info_totals (ws : workspace) (st : fs) (tags : list tag) :
  total_symbols (get_workspace_info ws st tags) = List.length tags
  /\ list_sum (map snd (kind_distribution (get_workspace_info ws st tags)))
     = total_symbols (get_workspace_info ws st tags)
  /\ (CtagsMCPTool.new ws st = Ok tags ->
      tags_file_exists (get_workspace_info ws st tags) = false ->
      tags = [] /\
      get_workspace_info ws st tags = mkWorkspaceInfo false 0 [] []).
Proof.
  unfold get_workspace_info.
  cbn [total_symbols kind_distribution tags_file_exists total_tags
       kind_counts available_kinds get_available_kinds].
  destruct (kind_counts_fold tags [] (NoDup_nil _)) as [_ [B _]].
  split; [reflexivity|]. split; [exact B|].
  unfold CtagsMCPTool.new, _load_tags. intros L E. rewrite E in *.
  simpl in L. injection L as <-. split; reflexivity.
Qed.

Lemma workspace_info_totals_witness :
  get_workspace_info here no_files [] = mkWorkspaceInfo false 0 [] [].
Proof.
  destruct (workspace_info_totals here no_files []) as [_ [_ H]].
  now apply H.
Defined.

End InfoCommands.

(** * Further properties of the comment classifier *)

Section ClassifierMore.
Import Py FS Notions RenameNotions PyFacts AdvancedRefactorTool Examples.

Lemma rstrip_spaces (s : string) :
  forallb_str isspace s = true -> rstrip s = "".
Proof.
  induction s as [|c s IH]; simpl; [reflexivity|]. intros H.
  apply andb_true_iff in H as [H1 H2]. now rewrite (IH H2), H1.
Qed.

Lemma rstrip_app_spaces (s post : string) :
  forallb_str isspace post = true -> rstrip (s ++ post) = rstrip s.
Proof.
  intros H. induction s as [|c s IH]; simpl.
  - now apply rstrip_spaces.
  - now rewrite IH.
Qed.

Lemma lstrip_app_spaces (pre s : string) :
  forallb_str isspace pre = true -> lstrip (pre ++ s) = lstrip s.
Proof.
  induction pre as [|c pre IH]; simpl; [reflexivity|]. intros H.
  apply andb_true_iff in H as [H1 H2]. rewrite H1. now apply IH.
Qed.

Lemma lstrip_app (a b : string) :
  lstrip (a ++ b)
  = if forallb_str isspace a then lstrip b else lstrip a ++ b.
Proof.
  induction a as [|c a IH]; simpl; [reflexivity|].
  destruct (isspace c); simpl; [exact IH | reflexivity].
Qed.

Lemma lstrip_spaces (s : string) :
  forallb_str isspace s = true -> lstrip s = "".
Proof.
  induction s as [|c s IH]; simpl; [reflexivity|]. intros H.
  apply andb_true_iff in H as [H1 H2]. rewrite H1. now apply IH.
Qed.

Lemma strip_padding (pre line post : string) :
  forallb_str isspace pre = true -> forallb_str isspace post = true ->
  strip (pre ++ line ++ post) = strip line.
Proof.
  intros Hpre Hpost. unfold strip.
  rewrite (lstrip_app_spaces _ _ Hpre), lstrip_app.
  destruct (forallb_str isspace line) eqn:E.
  - rewrite (lstrip_spaces _ Hpost), (lstrip_spaces _ E). reflexivity.
  - now apply rstrip_app_spaces.
Qed.

(** X17: a line is a comment line exactly when, leading and trailing white
    space apart, it begins with [//], [/*] or [*], or when [/*] and [*/]
    both occur somewhere in it; white space added before or after the line,
    such as its indentation or its line end, does not change the answer. *)
Theorem is_comment_line_exact (line : string) :
  (is_comment_line line = true <->
     startswith "//" (strip line) = true \/
     startswith "/*" (strip line) = true \/
     startswith "*" (strip line) = true \/
     (is_substring "/*" line /\ is_substring "*/" line))
  /\ (forall pre post,
        forallb_str isspace pre = true -> forallb_str isspace post = true ->
        is_comment_line (pre ++ line ++ post) = is_comment_line line).
Proof.
  split.
  - unfold is_comment_line. rewrite <- !contains_spec.
    rewrite !strip_contains by reflexivity.
    destruct (startswith "//" (strip line)) eqn:A; [simpl; tauto|].
    destruct (startswith "/*" (strip line)) eqn:B; [simpl; tauto|].
    destruct (startswith "*" (strip line)) eqn:C; [simpl; tauto|].
    cbn [orb].
    destruct (contains "/*" line && contains "*/" line) eqn:D.
    + apply andb_true_iff in D. tauto.
    + assert (S3 : startswith "///" (strip line) = false).
      { apply not_true_is_false. intros H.
        apply startswith_spec in H as [r E].
        assert (startswith "//" (strip line) = true); [|congruence].
        apply startswith_spec. exists ("/" ++ r). rewrite E. reflexivity. }
      assert (S4 : startswith "* @" (strip line) = false).
      { apply not_true_is_false. intros H.
        apply startswith_spec in H as [r E].
        assert (startswith "*" (strip line) = true); [|congruence].
        apply startswith_spec. exists (" @" ++ r). rewrite E. reflexivity. }
      rewrite S3, S4. simpl. apply andb_false_iff in D. split.
      * discriminate.
      * intros [H | [H | [H | [H1 H2]]]]; try discriminate.
        destruct D; congruence.
  - intros pre post Hpre Hpost. unfold is_comment_line.
    now rewrite (strip_padding _ _ _ Hpre Hpost).
Qed.

Lemma is_comment_line_exact_witness :
  is_comment_line ("    /// doc" ++ nl) = is_comment_line "/// doc" /\
  is_comment_line "x = 1; /* a */" = true.
Proof.
  destruct (is_comment_line_exact "/// doc") as [_ H].
  destruct (is_comment_line_exact "x = 1; /* a */") as [G _].
  split.
  - apply (H "    " nl); reflexivity.
  - apply G. right. right. right. split.
    + exists "x = 1; ", " a */". reflexivity.
    + exists "x = 1; /* a ", "". reflexivity.
Defined.

(** X18: no position is inside a comment on a line without [//] and
    without [/*], and position 0 never is; on a line that is not a comment
    line, once a position is inside a comment every later position is. *)
Theorem is_in_comment_extent (line : string) :
  is_in_comment line 0 = false
  /\ (contains "//" line = false -> contains "/*" line = false ->
      forall p, is_in_comment line p = false)
  /\ (is_comment_line line = false ->
      forall p q, p <= q -> is_in_comment line p = true ->
                  is_in_comment line q = true).
Proof.
  split; [|split].
  - apply not_true_is_false. intros H.
    apply is_in_comment_iff in H as [[i [Hi _]] | [b [Hb _]]]; lia.
  - intros A B p. apply not_true_is_false. intros H.
    apply is_in_comment_iff in H as [[i [_ O]] | [b [_ [O _]]]].
    + assert (contains "//" line = true) by (apply contains_occurs; eauto).
      congruence.
    + assert (contains "/*" line = true) by (apply contains_occurs; eauto).
      congruence.
  - intros N p q L H. apply is_in_comment_iff.
    apply is_in_comment_iff in H as [[i [Hi O]] | [b [Hb [O [M _]]]]].
    + left. exists i. split; [lia | exact O].
    + right. exists b. split; [lia|]. split; [exact O|]. split; [exact M|].
      intros e _ _. apply (not_comment_line_markers line N).
      apply contains_occurs. eauto.
Qed.

Lemma is_in_comment_extent_witness :
  is_in_comment "x = a / b;" 9 = false /\
  is_in_comment "x = 1; /* note" 40 = true.
Proof.
  destruct (is_in_comment_extent "x = a / b;") as [_ [A _]].
  destruct (is_in_comment_extent "x = 1; /* note") as [_ [_ B]].
  split.
  - apply A; reflexivity.
  - apply (B eq_refl 8 40); [lia | reflexivity].
Defined.

End ClassifierMore.

(** * Further properties of the rename engine *)

Section RenameMore.
Import Py FS CtagsParser CursorCtagsIntegration Notions RenameNotions.
Import ApplyNotions PyFacts AdvancedRefactorTool Examples.

Lemma occurrences_of_ref_spec (ws : workspace) (st : fs) (symbol : string)
    (r : reference) (o : occurrence) :
  In o (occurrences_of_ref ws st symbol r) <->
  exists text i line p,
    read_text st (join_root ws (ref_file r)) = Ok text /\
    nth_error (readlines text) i = Some line /\
    is_comment_line line = false /\ occurs_at symbol line p /\
    is_in_comment line p = false /\
    o = mkOccurrence (ref_file r) (1 + i) (p + 1) (strip line) symbol.
Proof.
  unfold occurrences_of_ref, exists_, read_text.
  destruct (st (join_root ws (ref_file r))) as [f|].
  - destruct (readable f).
    + rewrite occurrences_in_lines_spec. split.
      * intros (i & line & p & H). exists (universal_newlines (content f)), i, line, p.
        split; [reflexivity | exact H].
      * intros (text & i & line & p & E & H). injection E as <-.
        exists i, line, p. exact H.
    + split; [intros [] |]. intros (text & _ & _ & _ & E & _). discriminate.
  - split; [intros [] |]. intros (text & _ & _ & _ & E & _). discriminate.
Qed.

Lemma in_find_symbol_occurrences (ws : workspace) (st : fs)
    (symbol : string) (o : occurrence) :
  In o (find_symbol_occurrences ws st symbol) <->
  exists r text i line p,
    In r (find_all_references ws st symbol) /\
    read_text st (join_root ws (ref_file r)) = Ok text /\
    nth_error (readlines text) i = Some line /\
    is_comment_line line = false /\ occurs_at symbol line p /\
    is_in_comment line p = false /\
    o = mkOccurrence (ref_file r) (1 + i) (p + 1) (strip line) symbol.
Proof.
  unfold find_symbol_occurrences. rewrite in_flat_map. split.
  - intros (r & Hr & H). apply occurrences_of_ref_spec in H
      as (text & i & line & p & H). exists r, text, i, line, p. tauto.
  - intros (r & text & i & line & p & Hr & H). exists r. split; [exact Hr|].
    apply occurrences_of_ref_spec. exists text, i, line, p. exact H.
Qed.

(** X19: the occurrences found are exactly the matches of the symbol, at
    positions not classified as inside a comment, on the lines that are not
    comment lines, of the readable files the references name; each carries
    the file of its reference, the line number counted from 1, the column
    counted from 1 and the stripped line. *)
Theorem find_symbol_occurrences_exact (ws : workspace) (st : fs)
    (symbol : string) (o : occurrence) :
  In o (find_symbol_occurrences ws st symbol) <->
  exists r text i line p,
    In r (find_all_references ws st symbol) /\
    read_text st (join_root ws (ref_file r)) = Ok text /\
    nth_error (readlines text) i = Some line /\
    is_comment_line line = false /\ occurs_at symbol line p /\
    is_in_comment line p = false /\
    o = mkOccurrence (ref_file r) (1 + i) (p + 1) (strip line) symbol.
Proof. apply in_find_symbol_occurrences. Qed.

Lemma read_text_ok (st : fs) (path text : string) :
  read_text st path = Ok text ->
  exists f, st path = Some f /\ readable f = true /\
            text = universal_newlines (content f).
Proof.
  unfold read_text. destruct (st path) as [f|]; [|discriminate].
  destruct (readable f) eqn:R; [|discriminate].
  intros E. injection E as <-. eauto.
Qed.

Lemma find_all_references_tags (ws : workspace) (st : fs) (symbol : string)
    (r : reference) :
  In r (find_all_references ws st symbol) ->
  exists tags t, CtagsMCPTool.new ws st = Ok tags /\ In t tags /\
    filename t = ref_file r /\
    (is_substring symbol (name t) \/ is_substring symbol (typeref t)).
Proof.
  unfold find_all_references, main_find_references.
  destruct (spawns symbol); [|intros []].
  destruct (CtagsMCPTool.new ws st) as [tags|]; [|intros []].
  unfold CursorCtagsIntegration.find_all_references,
    CtagsMCPTool.find_references, CtagsParser.find_references.
  intros H. apply in_map_iff in H as (t & <- & H). apply in_firstn in H.
  apply filter_In in H as [H1 H2]. exists tags, t.
  rewrite orb_true_iff, !contains_spec in H2. auto.
Qed.

(** X20: in a preview the number of occurrences is the number of changes
    proposed; the affected files are listed once each and are the files of
    the changes; every change has line and column at least 1, proposes the
    stripped line with the old symbol replaced throughout, and names a
    readable file that a record of the tag table names, a record whose name
    or type reference contains the old symbol. *)
Theorem preview_rename_summary (ws : workspace) (st : fs) (old new : string) :
  let p := preview_rename ws st old new in
  total_occurrences p = List.length (changes p)
  /\ NoDup (files_affected p)
  /\ (forall f, In f (files_affected p) <->
                exists c, In c (changes p) /\ ch_file c = f)
  /\ (forall c, In c (changes p) ->
        1 <= ch_line c /\ 1 <= ch_column c
        /\ new_line c = replace old new (old_line c)
        /\ (exists f, st (join_root ws (ch_file c)) = Some f /\
                      readable f = true)
        /\ exists tags t, CtagsMCPTool.new ws st = Ok tags /\ In t tags /\
             filename t = ch_file c /\
             (is_substring old (name t) \/ is_substring old (typeref t))).
Proof.
  cbn zeta. unfold preview_rename. cbn [total_occurrences changes files_affected].
  split; [now rewrite length_map|]. split; [apply NoDup_nodup|]. split.
  - intros f. unfold list_set. rewrite nodup_In, in_map_iff. split.
    + intros (o & <- & H). exists (change_of old new o). split; [|reflexivity].
      now apply in_map.
    + intros (c & H & <-). apply in_map_iff in H as (o & <- & H).
      exists o. split; [reflexivity | exact H].
  - intros c H. apply in_map_iff in H as (o & <- & H).
    apply in_find_symbol_occurrences in H
      as (r & text & i & line & p & Hr & R & _ & _ & _ & _ & ->).
    cbn [change_of ch_line ch_column new_line old_line ch_file occ_file
         occ_line occ_column occ_context].
    split; [lia|]. split; [lia|]. split; [reflexivity|]. split.
    + apply read_text_ok in R as (f & A & B & _). eauto.
    + now apply find_all_references_tags.
Qed.

Lemma file_eq_dec (a b : option file) : {a = b} + {a <> b}.
Proof. repeat decide equality. Qed.

Lemma same_but_content_refl (a : option file) : same_but_content a a.
Proof. destruct a; simpl; auto. Qed.

Lemma same_but_content_trans (a b c : option file) :
  same_but_content a b -> same_but_content b c -> same_but_content a c.
Proof.
  destruct a, b, c; simpl; try tauto. intros [A B] [C D]. split; congruence.
Qed.

(** One round of the loop over the changes either leaves the state as it
    is or rewrites the readable and writable file of the change. *)
Lemma apply_change_effect (fuel : nat) (ws : workspace) (old new : string)
    (s s' : apply_state) (c : change) :
  apply_change fuel ws old new s c = Some s' ->
  s' = s \/
  exists f text,
    files s (join_root ws (ch_file c)) = Some f /\
    readable f = true /\ writable f = true /\
    rewrite_text fuel old new (universal_newlines (content f)) = Some text /\
    s' = mkApplyState
           (update (files s) (join_root ws (ch_file c))
                   (mkFile (opens f) true true text))
           (set_add (ch_file c) (files_changed s)) (S (changes_made s)).
Proof.
  unfold apply_change, read_text, write_text.
  destruct (files s (join_root ws (ch_file c))) as [f|] eqn:F;
    [|intros E; injection E as <-; now left].
  destruct (readable f) eqn:R; [|intros E; injection E as <-; now left].
  destruct (rewrite_text fuel old new (universal_newlines (content f)))
    as [text|] eqn:T; [|discriminate].
  destruct (writable f) eqn:W; intros E; injection E as <-; [|now left].
  right. exists f, text. rewrite R. auto.
Qed.

Lemma set_add_in (x : string) (l : list string) : In x (set_add x l).
Proof.
  unfold set_add. destruct (in_dec string_dec x l); [assumption|].
  apply in_or_app. right. now left.
Qed.

Lemma set_add_keeps (x : string) (l : list string) : incl l (set_add x l).
Proof.
  unfold set_add. destruct (in_dec string_dec x l); [apply incl_refl|].
  now apply incl_appl.
Qed.

Lemma set_add_NoDup (x : string) (l : list string) :
  NoDup l -> NoDup (set_add x l).
Proof.
  intros H. unfold set_add. destruct (in_dec string_dec x l); [assumption|].
  apply NoDup_app; [assumption | repeat constructor; intros [] |].
  intros a Ha [-> | []]. contradiction.
Qed.

Lemma set_add_length (x : string) (l : list string) :
  List.length (set_add x l) <= S (List.length l).
Proof.
  unfold set_add. destruct (in_dec string_dec x l); [lia|].
  rewrite length_app. simpl. lia.
Qed.

Lemma update_other (st : fs) (p q : string) (f : file) :
  update st p f q <> st q -> q = p.
Proof.
  unfold update. destruct (q =? p)%string eqn:E; [|congruence].
  intros _. now apply String.eqb_eq.
Qed.

Lemma update_same_but_content (st : fs) (p q : string) (f g : file) :
  st p = Some f -> readable g = readable f -> writable g = writable f ->
  same_but_content (st q) (update st p g q).
Proof.
  intros F R W. unfold update. destruct (q =? p)%string eqn:E.
  - apply String.eqb_eq in E. subst q. rewrite F. simpl. auto.
  - apply same_but_content_refl.
Qed.

Lemma written_file_flags (f : file) (text : string) :
  readable f = true -> writable f = true ->
  readable (mkFile (opens f) true true text) = readable f /\
  writable (mkFile (opens f) true true text) = writable f.
Proof.
  unfold readable. cbn [opens decodes writable]. intros R W.
  apply andb_true_iff in R as [-> ->]. rewrite W. auto.
Qed.

Lemma same_but_content_flags (a : option file) (g : file) :
  same_but_content a (Some g) -> readable g = true -> writable g = true ->
  exists f, a = Some f /\ readable f = true /\ writable f = true.
Proof.
  destruct a as [f|]; simpl; [|tauto]. intros [A B] R W. exists f.
  split; [reflexivity|]. split; congruence.
Qed.

(** What the loop over the changes keeps and what it counts. *)
Lemma apply_changes_effect (fuel : nat) (ws : workspace) (old new : string)
    (cs : list change) (s s' : apply_state) :
  apply_changes fuel ws old new s cs = Some s' ->
  (forall q, same_but_content (files s q) (files s' q))
  /\ (forall q, files s' q <> files s q ->
        exists f, In f (files_changed s') /\ q = join_root ws f)
  /\ incl (files_changed s) (files_changed s')
  /\ changes_made s <= changes_made s'
  /\ changes_made s' <= changes_made s + List.length cs
  /\ List.length (files_changed s') + changes_made s
     <= List.length (files_changed s) + changes_made s'
  /\ (NoDup (files_changed s) -> NoDup (files_changed s'))
  /\ (changes_made s' = changes_made s -> forall q, files s' q = files s q).
Proof.
  revert s; induction cs as [|c rest IH]; intros s; cbn [apply_changes].
  - intros E. injection E as <-.
    repeat split; try lia; try (apply incl_refl); auto using same_but_content_refl.
    intros q H. congruence.
  - destruct (apply_change fuel ws old new s c) as [s1|] eqn:A; [|discriminate].
    intros E. destruct (IH s1 E) as (I1 & I2 & I3 & I4 & I5 & I6 & I7 & I8).
    apply apply_change_effect in A as [-> | (f & text & F & R & W & T & ->)].
    + cbn [List.length]. repeat split; auto; try lia.
    + cbn [files files_changed changes_made List.length] in *.
      pose proof (set_add_length (ch_file c) (files_changed s)) as L.
      destruct (written_file_flags f text R W) as [Fr Fw].
      split; [|split; [|split; [|split; [|split; [|split; [|split]]]]]];
        try lia.
      * intros q. eapply same_but_content_trans; [|apply I1].
        now apply (update_same_but_content _ _ _ f).
      * intros q H.
        destruct (file_eq_dec (files s' q)
                    (update (files s) (join_root ws (ch_file c))
                       (mkFile (opens f) true true text) q)) as [Q | Q].
        -- rewrite Q in H. apply update_other in H.
           exists (ch_file c). split; [|exact H]. apply I3, set_add_in.
        -- now apply I2.
      * intros x Hx. apply I3. now apply set_add_keeps.
      * intros N. apply I7. now apply set_add_NoDup.
Qed.

(** The files reported and the changes counted: none without the other;
    and a file is reported only after it was read and written. *)
Lemma apply_changes_reported (fuel : nat) (ws : workspace) (old new : string)
    (cs : list change) (s s' : apply_state) :
  apply_changes fuel ws old new s cs = Some s' ->
  ((changes_made s = 0 <-> files_changed s = []) ->
   (changes_made s' = 0 <-> files_changed s' = []))
  /\ forall x, In x (files_changed s') ->
       In x (files_changed s) \/
       exists f, files s (join_root ws x) = Some f /\
                 readable f = true /\ writable f = true.
Proof.
  revert s; induction cs as [|c rest IH]; intros s; cbn [apply_changes].
  - intros E. injection E as <-. split; [tauto | auto].
  - destruct (apply_change fuel ws old new s c) as [s1|] eqn:A; [|discriminate].
    intros E. destruct (IH s1 E) as [J1 J2].
    apply apply_change_effect in A as [-> | (f & text & F & R & W & T & ->)];
      [split; assumption|].
    cbn [files files_changed changes_made] in *. split.
    + intros _. apply J1. split; [discriminate|]. intros N.
      pose proof (set_add_in (ch_file c) (files_changed s)) as I.
      rewrite N in I. destruct I.
    + intros x Hx. destruct (J2 x Hx) as [H | (g & G & Rg & Wg)].
      * unfold set_add in H.
        destruct (in_dec string_dec (ch_file c) (files_changed s));
          [now left|].
        apply in_app_or in H as [H | [<- | []]]; [now left|].
        right. exists f. auto.
      * right. apply (same_but_content_flags _ g); [|exact Rg | exact Wg].
        rewrite <- G.
        destruct (written_file_flags f text R W) as [Fr Fw].
        now apply (update_same_but_content _ _ _ f).
Qed.

(** X21: a run of the rename never creates or removes a file and never
    changes whether a file can be read or written; the only files whose
    text it changes are files of the changes of the preview, the affected
    files; a dry run leaves every file as it is and returns the preview. *)
Theorem rename_symbol_frame (fuel : nat) (ws : workspace) (st : fs)
    (old new : string) (dry_run : bool) (st' : fs) (r : rename_result) :
  rename_symbol fuel ws st old new dry_run = Some (st', r) ->
  (dry_run = true ->
     st' = st /\ r = Preview (preview_rename ws st old new))
  /\ forall q,
       same_but_content (st q) (st' q) /\
       (st' q <> st q ->
        exists f, In f (files_affected (preview_rename ws st old new)) /\
                  q = join_root ws f).
Proof.
  unfold rename_symbol. destruct dry_run.
  - intros E. injection E as <- <-. split; [auto|]. intros q.
    split; [apply same_but_content_refl | congruence].
  - destruct (apply_changes fuel ws old new (mkApplyState st [] 0) _)
      as [s|] eqn:A; [|discriminate].
    intros E. injection E as <- <-. split; [discriminate|].
    pose proof (apply_changes_effect _ _ _ _ _ _ _ A) as (I1 & I2 & _).
    intros q. split; [apply I1|]. intros H.
    destruct (I2 q H) as (f & Hf & ->). exists f. split; [|reflexivity].
    apply (apply_changes_files_changed _ _ _ _ _ _ _ _ A);
      [intros x [] | apply preview_change_files | exact Hf].
Qed.

Lemma rename_symbol_frame_witness :
  exists st' r,
    rename_symbol 0 here scenario "foo" "bar" false = Some (st', r) /\
    same_but_content (scenario "src/a.c") (st' "src/a.c") /\
    same_but_content (scenario "tags") (st' "tags").
Proof.
  destruct (rename_symbol 0 here scenario "foo" "bar" false)
    as [[st' r]|] eqn:E; [|vm_compute in E; discriminate E].
  exists st', r. split; [reflexivity|].
  destruct (rename_symbol_frame _ _ _ _ _ _ _ _ E) as [_ H].
  split; apply H.
Defined.



(** X22: a completed run counts one change for each write, at most one
    for each occurrence of the preview; the files reported are listed once
    each and are no more than the changes counted; no file is reported
    exactly when no change is counted; and every file reported could be
    read and written when the run began. *)
Theorem rename_symbol_counts (fuel : nat) (ws : workspace) (st : fs)
    (old new : string) (st' : fs) (fc : list string) (cm : nat) (p : preview) :
  rename_symbol fuel ws st old new false = Some (st', Completed fc cm p) ->
  cm <= total_occurrences p /\ List.length fc <= cm /\ NoDup fc
  /\ (cm = 0 <-> fc = [])
  /\ forall f, In f fc ->
       exists file, st (join_root ws f) = Some file /\
                    readable file = true /\ writable file = true.
Proof.
  unfold rename_symbol. cbn iota.
  destruct (apply_changes fuel ws old new (mkApplyState st [] 0) _)
    as [s|] eqn:A; [|discriminate].
  intros E. injection E as <- <- <- <-.
  pose proof (apply_changes_effect _ _ _ _ _ _ _ A)
    as (_ & _ & _ & _ & I5 & I6 & I7 & _).
  pose proof (apply_changes_reported _ _ _ _ _ _ _ A) as [J1 J2].
  cbn [files files_changed changes_made List.length] in *.
  assert (T : total_occurrences (preview_rename ws st old new)
              = List.length (changes (preview_rename ws st old new))).
  { cbn. now rewrite length_map. }
  split; [lia|]. split; [lia|]. split; [apply I7; constructor|].
  split; [apply J1; tauto|].
  intros f Hf. destruct (J2 f Hf) as [[] | H]. exact H.
Qed.

Lemma rename_symbol_counts_witness :
  exists st' fc cm p,
    rename_symbol 0 here two_refs "foo" "bar" false
    = Some (st', Completed fc cm p) /\
    cm <= total_occurrences p /\ List.length fc <= cm /\ fc <> [].
Proof.
  destruct (rename_symbol 0 here two_refs "foo" "bar" false)
    as [[st' r]|] eqn:E; [|vm_compute in E; discriminate E].
  destruct r as [p | fc cm p]; [vm_compute in E; discriminate E|].
  exists st', fc, cm, p. split; [reflexivity|].
  destruct (rename_symbol_counts _ _ _ _ _ _ _ _ _ E) as (A & L & _ & Z & _).
  split; [exact A|]. split; [exact L|]. intros N.
  apply Z in N. subst cm. vm_compute in E. discriminate E.
Defined.



End RenameMore.

(** * Round trips of the rename engine *)

Section RenameRoundTrip.
Import Py FS CtagsParser CursorCtagsIntegration Notions RenameNotions.
Import ApplyNotions PyFacts AdvancedRefactorTool Examples.

(** Splitting at LF and joining with LF gives the text back. *)
Lemma join_split (s : string) : join nl (split LF s) = s.
Proof.
  unfold join. induction s as [|c r IH]; [reflexivity|].
  cbn [split]. destruct (Ascii.eqb c LF) eqn:E.
  - apply Ascii.eqb_eq in E. subst c.
    destruct (split LF r) as [|h t] eqn:S; [now apply split_nonempty in S|].
    change (String.concat nl ("" :: h :: t))
      with (nl ++ String.concat nl (h :: t)).
    now rewrite IH.
  - destruct (split LF r) as [|h t] eqn:S; [now apply split_nonempty in S|].
    destruct t as [|h2 t2].
    + simpl in IH |- *. now rewrite IH.
    + change (String.concat nl (String c h :: h2 :: t2))
        with (String c (h ++ nl ++ String.concat nl (h2 :: t2))).
      change (String.concat nl (h :: h2 :: t2))
        with (h ++ nl ++ String.concat nl (h2 :: t2)) in IH.
      now rewrite IH.
Qed.







Lemma rename_lines_fixed (fuel : nat) (old new : string) (lines : list string) :
  (forall l, In l lines -> rename_line fuel old new l = Some l) ->
  rename_lines fuel old new lines = Some lines.
Proof.
  induction lines as [|l rest IH]; intros H; [reflexivity|].
  cbn [rename_lines]. rewrite (H l (or_introl eq_refl)), IH; [reflexivity|].
  intros l' Hl'. apply H. now right.
Qed.









(** X24: a text in which every line that contains the old symbol is a
    comment line is written back exactly as it was read: the lines are
    split at LF, none is rewritten, and joining them with LF gives the
    text again. *)
Theorem rewrite_text_unchanged (fuel : nat) (old new text : string) :
  (forall line, In line (split LF text) -> is_substring old line ->
                is_comment_line line = true) ->
  rewrite_text fuel old new text = Some text.
Proof.
  intros H. unfold rewrite_text. rewrite rename_lines_fixed.
  - now rewrite join_split.
  - intros l Hl. unfold rename_line.
    destruct (contains old l) eqn:C; [|reflexivity].
    apply contains_spec in C. now rewrite (H l Hl C).
Qed.

Lemma rewrite_text_unchanged_witness :
  rewrite_text 0 "foo" "bar" ("// foo" ++ nl ++ "x = 1;" ++ nl)
  = Some ("// foo" ++ nl ++ "x = 1;" ++ nl).
Proof.
  apply rewrite_text_unchanged. intros line H S.
  destruct H as [<- | [<- | [<- | []]]].
  - reflexivity.
  - apply contains_spec in S. vm_compute in S. discriminate S.
  - apply contains_spec in S. vm_compute in S. discriminate S.
Defined.

Lemma readlines_nil (s : string) : readlines s = [] -> s = "".
Proof.
  destruct s as [|c r]; [reflexivity|]. simpl.
  destruct (Ascii.eqb c LF); [discriminate|].
  destruct (readlines r); discriminate.
Qed.

(** The lines [readlines] gives are the pieces [split] gives, with their
    line end. *)
Lemma readlines_split_heads (s : string) :
  match readlines s with
  | [] => True
  | h :: t =>
      exists h' t', split LF s = h' :: t' /\ (h = h' ++ nl \/ h = h') /\
        forall line, In line t ->
          exists l, In l t' /\ (line = l ++ nl \/ line = l)
  end.
Proof.
  induction s as [|c r IH]; [exact I|]. cbn [readlines split].
  destruct (Ascii.eqb c LF) eqn:E.
  - apply Ascii.eqb_eq in E. subst c. exists "", (split LF r).
    split; [reflexivity|]. split; [now left|]. intros line Hl.
    destruct (readlines r) as [|h t]; [destruct Hl|].
    destruct IH as (h' & t' & S & Hh & Ht). rewrite S.
    destruct Hl as [<- | Hl].
    + exists h'. split; [now left | exact Hh].
    + destruct (Ht _ Hl) as (l & A & B). exists l. split; [now right | exact B].
  - destruct (readlines r) as [|h t] eqn:R.
    + apply readlines_nil in R. subst r. exists (String c ""), [].
      split; [reflexivity|]. split; [now right | intros line []].
    + destruct IH as (h' & t' & S & Hh & Ht). rewrite S.
      exists (String c h'), t'. split; [reflexivity|]. split; [|exact Ht].
      destruct Hh as [-> | ->]; [now left | now right].
Qed.

Lemma readlines_split_lines (s line : string) :
  In line (readlines s) ->
  exists l, In l (split LF s) /\ (line = l ++ nl \/ line = l).
Proof.
  intros H. pose proof (readlines_split_heads s) as P.
  destruct (readlines s) as [|h t]; [destruct H|].
  destruct P as (h' & t' & S & Hh & Ht). rewrite S.
  destruct H as [<- | H].
  - exists h'. split; [now left | exact Hh].
  - destruct (Ht _ H) as (l & A & B). exists l. split; [now right | exact B].
Qed.

Lemma is_comment_line_line_end (l : string) :
  is_comment_line (l ++ nl) = is_comment_line l.
Proof.
  unfold is_comment_line.
  pose proof (strip_padding "" l nl eq_refl eq_refl) as E.
  change ("" ++ l ++ nl) with (l ++ nl) in E. now rewrite E.
Qed.

Lemma rename_lines_stuck (fuel : nat) (old new l : string)
    (lines : list string) :
  In l lines -> rename_line fuel old new l = None ->
  rename_lines fuel old new lines = None.
Proof.
  induction lines as [|l' rest IH]; intros H N; [destruct H|].
  cbn [rename_lines]. destruct H as [-> | H].
  - now rewrite N.
  - destruct (rename_line fuel old new l'); [|reflexivity].
    now rewrite (IH H N).
Qed.

(** X25: with the old and the new symbol both empty, a rename that is not
    a dry run never returns once the preview holds an occurrence: the loop
    over the first line that is not a comment line replaces nothing by
    nothing at position 0 in every round. *)
Theorem rename_empty_symbols_never_ends (ws : workspace) (st : fs) :
  0 < total_occurrences (preview_rename ws st "" "") ->
  forall fuel, rename_symbol fuel ws st "" "" false = None.
Proof.
  intros H fuel. unfold rename_symbol. cbn iota.
  cbn [preview_rename changes total_occurrences] in *.
  destruct (find_symbol_occurrences ws st "") as [|o rest] eqn:O;
    [simpl in H; lia|].
  assert (Ho : In o (find_symbol_occurrences ws st ""))
    by (rewrite O; now left).
  apply in_find_symbol_occurrences in Ho
    as (r & text & i & line & p & _ & R & L & C & _ & _ & ->).
  cbn [map apply_changes]. unfold apply_change.
  cbn [change_of ch_file occ_file files]. rewrite R.
  apply nth_error_In in L.
  apply readlines_split_lines in L as (l & Hl & E).
  assert (Cl : is_comment_line l = false).
  { destruct E as [-> | ->]; [now rewrite is_comment_line_line_end in C|].
    exact C. }
  unfold rewrite_text.
  rewrite (rename_lines_stuck fuel "" "" l _ Hl); [reflexivity|].
  unfold rename_line. rewrite contains_nil, Cl. simpl.
  apply replace_loop_empty_symbols.
Qed.

Lemma rename_empty_symbols_never_ends_witness :
  rename_symbol 1000 here scenario "" "" false = None.
Proof.
  apply rename_empty_symbols_never_ends. vm_compute. lia.
Defined.

End RenameRoundTrip.
